(** * Internal wallet transfer and per-chain ledger engine

    A shallow embedding of the transfer handler (operation [createTransfer]),
    of [processInternalTransfer] and of the helpers they share
    ([parseAddresses], [deductFromEcoWallet], [addToEcoWallet], ...), together
    with the properties the specification states about them and further
    properties read off the code.  The blog category page that shares the
    source file ([getServerSideProps], [Blog]) and one run of the native
    deposit monitor ([verifyDeposits]) are embedded as well.

    Conventions of the embedding.
    - A JavaScript number is [NaN] or a rational.  The operators [+], [-],
      [*] and [/] round their exact result to the nearest double, ties to
      even, subnormal range included ([rnd]); comparisons, [Math.min] and
      arithmetic on [NaN] behave as in the language.  Overflow to the
      infinities and the sign of zero are not represented.
    - An object used as a chain map is the list of its own keys with their
      records, in the order the language enumerates them; what a name
      resolves to on the prototype chain is a parameter ([inheritedMember]).
    - The database is a record of tables; a table is the list of its rows.
    - [sequelize.transaction] runs its callback on a pair of stores: the
      committed one and the working copy of the atomic scope.  A write that
      carries the transaction handle touches the working copy only; a write
      issued without the handle is applied to both.  Commit keeps the working
      copy, rollback keeps the committed store.
    - Errors raised with [createError] are values of [HttpError]; a function
      that may throw returns in a state-and-error monad. *)

From Stdlib Require Import QArith Qround ZArith NArith List Ascii String Bool Lia Lqa
  DecimalString.
Import ListNotations.

Open Scope string_scope.
Open Scope list_scope.
Open Scope Q_scope.

(** ** JavaScript numbers *)

Inductive jsnum : Type :=
| NaN : jsnum
| Num : Q -> jsnum.

Definition Qlt_bool (x y : Q) : bool := negb (Qle_bool y x).

(** *** Rounding to the nearest double

    The result of an arithmetic operator is the double nearest to the exact
    result: 53 significant bits, least exponent [-1074], ties to the even
    significand. *)

Definition pow2 (k : Z) : Q :=
  if (0 <=? k)%Z then inject_Z (2 ^ k) else / inject_Z (2 ^ (- k)).

(** The exponent [k] with [2^k <= x < 2^(k+1)], for [x > 0]. *)
Definition floorLog2 (x : Q) : Z :=
  let k := (Z.log2 (Qnum x) - Z.log2 (Zpos (Qden x)))%Z in
  if Qle_bool (pow2 k) x then k else (k - 1)%Z.

Definition roundHalfEven (x : Q) : Z :=
  let f := Qfloor x in
  match Qcompare (x - inject_Z f) (1 # 2) with
  | Lt => f
  | Gt => (f + 1)%Z
  | Eq => if Z.even f then f else (f + 1)%Z
  end.

Definition roundMagnitude (x : Q) : Q :=
  let e := Z.max (floorLog2 x - 52) (-1074) in
  inject_Z (roundHalfEven (x / pow2 e)) * pow2 e.

(** The double nearest to [x], as a fraction in lowest terms. *)
Definition rnd (x : Q) : Q :=
  match Qcompare x 0 with
  | Eq => 0
  | Gt => Qred (roundMagnitude x)
  | Lt => Qred (- roundMagnitude (- x))
  end.

(** A numeric literal of the source text denotes the nearest double. *)
Definition lit (x : Q) : jsnum := Num (rnd x).

(** *** Arithmetic *)

Definition jadd (a b : jsnum) : jsnum :=
  match a, b with
  | Num x, Num y => Num (rnd (x + y))
  | _, _ => NaN
  end.

Definition jsub (a b : jsnum) : jsnum :=
  match a, b with
  | Num x, Num y => Num (rnd (x - y))
  | _, _ => NaN
  end.

Definition jneg (a : jsnum) : jsnum :=
  match a with
  | Num x => Num (- x)
  | NaN => NaN
  end.

Definition jmul (a b : jsnum) : jsnum :=
  match a, b with
  | Num x, Num y => Num (rnd (x * y))
  | _, _ => NaN
  end.

(** Division by the literal [100]. *)
Definition jdiv100 (a : jsnum) : jsnum :=
  match a with
  | Num x => Num (rnd (x / 100))
  | NaN => NaN
  end.

(** Sum and difference of the decimal values, without binary rounding: the
    arithmetic of the Balance Updater below, which rounds once, to the
    precision of the currency. *)
Definition decimal_add (a b : jsnum) : jsnum :=
  match a, b with
  | Num x, Num y => Num (x + y)
  | _, _ => NaN
  end.

Definition decimal_sub (a b : jsnum) : jsnum :=
  match a, b with
  | Num x, Num y => Num (x - y)
  | _, _ => NaN
  end.

(** [a < b], [a <= b], [a > b]: false as soon as one side is [NaN]. *)
Definition jlt (a b : jsnum) : bool :=
  match a, b with
  | Num x, Num y => Qlt_bool x y
  | _, _ => false
  end.

Definition jle (a b : jsnum) : bool :=
  match a, b with
  | Num x, Num y => Qle_bool x y
  | _, _ => false
  end.

Definition jgt (a b : jsnum) : bool := jlt b a.

(** [Math.min(a, b)]: [NaN] as soon as one argument is. *)
Definition jmin (a b : jsnum) : jsnum :=
  match a, b with
  | Num x, Num y => Num (if Qle_bool x y then x else y)
  | _, _ => NaN
  end.

Definition jzero : jsnum := Num 0.

(** Numeric equality of two JavaScript numbers (never true on [NaN]). *)
Definition jeq (a b : jsnum) : Prop :=
  match a, b with
  | Num x, Num y => x == y
  | _, _ => False
  end.

Definition jeqb (a b : jsnum) : bool :=
  match a, b with
  | Num x, Num y => Qeq_bool x y
  | _, _ => false
  end.

Definition is_num (a : jsnum) : Prop :=
  match a with Num _ => True | NaN => False end.

(** Truthiness of a number: [0] and [NaN] are falsy. *)
Definition num_truthy (a : jsnum) : bool :=
  match a with
  | Num x => negb (Qeq_bool x 0)
  | NaN => false
  end.

(** ** Wallet address maps and JavaScript values *)

(** One entry of an ECO wallet's address map. *)
Record ChainInfo : Type := mkChainInfo {
  ci_address : option string;
  ci_network : option string;
  ci_balance : jsnum
}.

(** An object used as a map from chain name to chain record: its own keys,
    in the order [for ... in] and [Object.entries] enumerate them. *)
Definition ChainMap : Type := list (string * ChainInfo).

(** The values [parseAddresses] can be handed: the column [wallet.address]
    is declared [any].  Objects are the chain maps the ledger code reads. *)
Inductive JsValue : Type :=
| JsUndefined : JsValue
| JsNull : JsValue
| JsBool : bool -> JsValue
| JsNumber : jsnum -> JsValue
| JsString : string -> JsValue
| JsFunction : JsValue
| JsObject : ChainMap -> JsValue.

(** [!v] is false exactly on the truthy values. *)
Definition truthy (v : JsValue) : bool :=
  match v with
  | JsUndefined | JsNull => false
  | JsBool b => b
  | JsNumber n => num_truthy n
  | JsString s => negb (String.eqb s EmptyString)
  | JsFunction => true
  | JsObject _ => true
  end.

Inductive JsTypeof : Type :=
| TyUndefined | TyObject | TyBoolean | TyNumber | TyString | TyFunction.

Definition typeof (v : JsValue) : JsTypeof :=
  match v with
  | JsUndefined => TyUndefined
  | JsNull => TyObject
  | JsBool _ => TyBoolean
  | JsNumber _ => TyNumber
  | JsString _ => TyString
  | JsFunction => TyFunction
  | JsObject _ => TyObject
  end.

Definition typeof_eqb (a b : JsTypeof) : bool :=
  match a, b with
  | TyUndefined, TyUndefined | TyObject, TyObject | TyBoolean, TyBoolean
  | TyNumber, TyNumber | TyString, TyString | TyFunction, TyFunction => true
  | _, _ => false
  end.

(** The outcome of evaluating an expression that may throw. *)
Inductive Outcome (E A : Type) : Type :=
| Thrown : E -> Outcome E A
| Returned : A -> Outcome E A.

Arguments Thrown {E A} _.
Arguments Returned {E A} _.

Inductive SyntaxError : Type := JsonSyntaxError.

(** ** Entities of the persistence layer *)

Inductive WalletType : Type := FIAT | SPOT | ECO | FUTURES.

Definition WalletType_eqb (a b : WalletType) : bool :=
  match a, b with
  | FIAT, FIAT | SPOT, SPOT | ECO, ECO | FUTURES, FUTURES => true
  | _, _ => false
  end.

Definition walletTypeName (t : WalletType) : string :=
  match t with
  | FIAT => "FIAT"
  | SPOT => "SPOT"
  | ECO => "ECO"
  | FUTURES => "FUTURES"
  end.

Record Wallet : Type := mkWallet {
  w_id : nat;
  w_userId : nat;
  w_currency : string;
  w_type : WalletType;
  w_balance : jsnum;
  w_address : JsValue;
  w_status : bool
}.

Inductive TransactionType : Type := OUTGOING_TRANSFER | INCOMING_TRANSFER.

Inductive TransferStatus : Type := PENDING | COMPLETED.

Record TransferTransaction : Type := mkTransaction {
  tx_id : nat;
  tx_userId : option nat;
  tx_walletId : nat;
  tx_type : TransactionType;
  tx_amount : jsnum;
  tx_fee : jsnum;
  tx_fromCurrency : string;
  tx_toCurrency : string;
  tx_fromWallet : nat;
  tx_toWallet : nat;
  tx_description : string;
  tx_status : TransferStatus
}.

Record AdminProfit : Type := mkAdminProfit {
  ap_userId : nat;
  ap_amount : jsnum;
  ap_currency : string;
  ap_fromType : WalletType;
  ap_toType : WalletType;
  ap_transactionId : nat
}.

(** One row of the private ledger: wallet, index, currency, chain and the
    signed delta. *)
Record LedgerEntry : Type := mkLedgerEntry {
  le_walletId : nat;
  le_index : nat;
  le_currency : string;
  le_chain : string;
  le_delta : jsnum
}.

Record Db : Type := mkDb {
  users : list nat;
  wallets : list Wallet;
  ledger : list LedgerEntry;
  transactions : list TransferTransaction;
  profits : list AdminProfit
}.

(** The store as an atomic scope sees it. *)
Record TxState : Type := mkTxState {
  committed : Db;
  working : Db
}.

(** The transaction handle [t] passed to the helpers. *)
Inductive TxHandle : Type := TxH.

Record CurrencyData : Type := mkCurrencyData { precision : nat }.

Record Detail : Type := mkDetail {
  d_chain : string;
  d_amount : jsnum
}.

(** ** Errors and the state-and-error monad *)

Record HttpError : Type := createError {
  statusCode : nat;
  message : string
}.

(** A [TypeError] raised by the runtime surfaces as an internal failure. *)
Definition typeError (msg : string) : HttpError := createError 500 msg.

Definition Result (A : Type) : Type := (HttpError + A)%type.

Definition M (S A : Type) : Type := S -> S * Result A.

Definition ret {S A : Type} (a : A) : M S A := fun s => (s, inr a).

Definition throw {S A : Type} (e : HttpError) : M S A := fun s => (s, inl e).

Definition bind {S A B : Type} (c : M S A) (k : A -> M S B) : M S B :=
  fun s =>
    match c s with
    | (s', inr a) => k a s'
    | (s', inl e) => (s', inl e)
    end.

Definition gets {S A : Type} (f : S -> A) : M S A := fun s => (s, inr (f s)).

Definition modify {S : Type} (f : S -> S) : M S unit := fun s => (f s, inr tt).

Declare Scope js_scope.
Delimit Scope js_scope with js.

Notation "x <- c ;; k" := (bind c (fun x => k))
  (at level 100, c at next level, right associativity) : js_scope.
Notation "' p <- c ;; k" := (bind c (fun x => let p := x in k))
  (at level 100, p pattern, c at next level, right associativity) : js_scope.
Notation "c ;; k" := (bind c (fun _ => k))
  (at level 100, right associativity) : js_scope.

Open Scope js_scope.

(** [sequelize.transaction(callback)]: commit when the callback returns,
    roll back when it throws. *)
Definition sequelize_transaction {A : Type}
    (callback : TxHandle -> M TxState A) : M Db A :=
  fun db =>
    match callback TxH (mkTxState db db) with
    | (s, inr a) => (working s, inr a)
    | (s, inl e) => (committed s, inl e)
    end.

(** A write: inside the atomic scope when it carries the handle, straight to
    the store otherwise. *)
Definition dbWrite (t : option TxHandle) (f : Db -> Db) : M TxState unit :=
  modify (fun s =>
    match t with
    | Some _ => mkTxState (committed s) (f (working s))
    | None => mkTxState (f (committed s)) (f (working s))
    end).

(** ** Table operations of the ORM *)

Definition fresh_id (ids : list nat) : nat := S (list_max ids).

Definition user_findByPk (id : nat) : M Db (option nat) :=
  gets (fun db => find (Nat.eqb id) (users db)).

Definition wallet_matches (userId : nat) (currency : string) (type : WalletType)
    (w : Wallet) : bool :=
  Nat.eqb (w_userId w) userId && String.eqb (w_currency w) currency
  && WalletType_eqb (w_type w) type.

Definition wallet_findOne (userId : nat) (currency : string) (type : WalletType)
    : M Db (option Wallet) :=
  gets (fun db => find (wallet_matches userId currency type) (wallets db)).

(** [models.wallet.create({ userId, currency, type, status: true })]: the
    columns not given take their defaults, a zero balance and no address. *)
Definition wallet_create (userId : nat) (currency : string) (type : WalletType)
    : M Db Wallet :=
  fun db =>
    let w := mkWallet (fresh_id (map w_id (wallets db))) userId currency type
                      jzero JsNull true in
    (mkDb (users db) (wallets db ++ [w]) (ledger db) (transactions db)
          (profits db), inr w).

Definition set_balance (b : jsnum) (w : Wallet) : Wallet :=
  mkWallet (w_id w) (w_userId w) (w_currency w) (w_type w) b (w_address w)
           (w_status w).

Definition set_address (a : JsValue) (w : Wallet) : Wallet :=
  mkWallet (w_id w) (w_userId w) (w_currency w) (w_type w) (w_balance w) a
           (w_status w).

Definition update_row (id : nat) (f : Wallet -> Wallet) (db : Db) : Db :=
  mkDb (users db)
       (map (fun w => if Nat.eqb (w_id w) id then f w else w) (wallets db))
       (ledger db) (transactions db) (profits db).

(** [wallet.update({ balance }, { transaction: t })] *)
Definition wallet_update_balance (wallet : Wallet) (b : jsnum)
    (t : option TxHandle) : M TxState unit :=
  dbWrite t (update_row (w_id wallet) (set_balance b)).

(** [wallet.update({ address }, { transaction: t })] *)
Definition wallet_update_address (wallet : Wallet) (a : JsValue)
    (t : option TxHandle) : M TxState unit :=
  dbWrite t (update_row (w_id wallet) (set_address a)).

Definition balance_of (id : nat) (db : Db) : option jsnum :=
  option_map w_balance (find (fun w => Nat.eqb (w_id w) id) (wallets db)).

Definition address_of (id : nat) (db : Db) : option JsValue :=
  option_map w_address (find (fun w => Nat.eqb (w_id w) id) (wallets db)).

(** ** Chain maps *)

Fixpoint chain_lookup (chain : string) (m : ChainMap) : option ChainInfo :=
  match m with
  | [] => None
  | (c, info) :: rest =>
      if String.eqb c chain then Some info else chain_lookup chain rest
  end.

(** The array index a key denotes, if it denotes one: a decimal numeral
    without a leading zero whose value is below [2^32 - 1].  An object
    enumerates such keys first, in ascending order, and its other keys after
    them, in the order of their creation. *)
Definition digitValue (a : ascii) : option N :=
  let n := N_of_ascii a in
  if ((48 <=? n) && (n <=? 57))%N then Some (n - 48)%N else None.

Fixpoint decimalValue (s : string) (acc : N) : option N :=
  match s with
  | EmptyString => Some acc
  | String a rest =>
      match digitValue a with
      | Some d => decimalValue rest (10 * acc + d)%N
      | None => None
      end
  end.

Definition arrayIndex (key : string) : option N :=
  match key with
  | EmptyString => None
  | String a rest =>
      if Ascii.eqb a "0"%char && negb (String.eqb rest EmptyString) then None
      else match decimalValue key 0 with
           | Some n => if (n <? 4294967295)%N then Some n else None
           | None => None
           end
  end.

(** [precedes key other]: a new key [key] is enumerated before the key
    [other] an object already holds. *)
Definition precedes (key other : string) : bool :=
  match arrayIndex key, arrayIndex other with
  | Some i, Some j => (i <? j)%N
  | Some _, None => true
  | None, _ => false
  end.

Fixpoint chain_replace (chain : string) (info : ChainInfo) (m : ChainMap) : ChainMap :=
  match m with
  | [] => []
  | (c, old) :: rest =>
      if String.eqb c chain then (c, info) :: rest
      else (c, old) :: chain_replace chain info rest
  end.

Fixpoint chain_insert (chain : string) (info : ChainInfo) (m : ChainMap) : ChainMap :=
  match m with
  | [] => [(chain, info)]
  | (c, old) :: rest =>
      if precedes chain c then (chain, info) :: (c, old) :: rest
      else (c, old) :: chain_insert chain info rest
  end.

(** [m[chain] = info]: a key the map holds keeps its place, a new key takes
    the place enumeration gives it. *)
Definition chain_set (chain : string) (info : ChainInfo) (m : ChainMap) : ChainMap :=
  match chain_lookup chain m with
  | Some _ => chain_replace chain info m
  | None => chain_insert chain info m
  end.

Definition with_balance (b : jsnum) (info : ChainInfo) : ChainInfo :=
  mkChainInfo (ci_address info) (ci_network info) b.

(** The entries a [for ... in] over the value visits with a chain record
    behind the key: those of an object; a primitive or [null] has none. *)
Definition entries_of (v : JsValue) : ChainMap :=
  match v with
  | JsObject m => m
  | _ => []
  end.

(** ** Helpers of [./utils], whose source is not part of the listing *)

Definition pow10 (p : nat) : Z := Z.pow 10 (Z.of_nat p).

(** Modelled from the spec: the rounding of the Balance Updater is missing;
    the spec says "round to N places, N from currency metadata".  Ties go
    up. *)
Definition roundTo (p : nat) (a : jsnum) : jsnum :=
  match a with
  | NaN => NaN
  | Num x =>
      Num (inject_Z (Qfloor (x * inject_Z (pow10 p) + (1 # 2)))
           / inject_Z (pow10 p))
  end.

(** Modelled from the spec: [calculateTransferFee] is missing; the spec says
    "fee = amount x (configured percentage / 100)", and
    [processInternalTransfer] computes [(parsedAmount * percentage) / 100]
    inline. *)
Definition calculateTransferFee (amount feePercentage : jsnum) : jsnum :=
  jdiv100 (jmul amount feePercentage).

(** Modelled from the spec: [calculateNewBalance] is missing; the Balance
    Updater "applies net balance deltas to wallet aggregate balances with
    currency-specific precision rounding".  The delta is applied to the
    decimal value of the balance and the result rounded once, to the
    precision. *)
Definition calculateNewBalance (balance delta : jsnum) (currencyData : CurrencyData)
    : jsnum :=
  roundTo (precision currencyData) (decimal_add balance delta).

(** Modelled from the spec: [updateWalletBalances] is missing; the spec says
    it "applies the net aggregate balance change to both wallets using
    currency-defined decimal precision": the first wallet loses the first
    amount, the second gains the second amount, each from the balance the
    wallet object holds, on the decimal values and rounded once. *)
Definition updateWalletBalances (fromWallet toWallet : Wallet)
    (parsedAmount targetReceiveAmount : jsnum) (prec : nat) (t : TxHandle)
    : M TxState unit :=
  let updatedFromBalance :=
    roundTo prec (decimal_sub (w_balance fromWallet) parsedAmount) in
  let updatedToBalance :=
    roundTo prec (decimal_add (w_balance toWallet) targetReceiveAmount) in
  wallet_update_balance fromWallet updatedFromBalance (Some t) ;;
  wallet_update_balance toWallet updatedToBalance (Some t).

(** Modelled from the spec: [updatePrivateLedger] is missing; the spec says
    each chain-level delta is "mirrored into a private ledger record
    (append-only audit trail keyed by wallet id + chain + currency + signed
    delta)".  The last argument is the optional transaction handle. *)
Definition updatePrivateLedger (walletId index : nat) (currency chain : string)
    (amount : jsnum) (t : option TxHandle) : M TxState unit :=
  dbWrite t (fun db =>
    mkDb (users db) (wallets db)
         (ledger db ++ [mkLedgerEntry walletId index currency chain amount])
         (transactions db) (profits db)).

(** Modelled from the spec: [createTransferTransaction] is missing; the spec
    lists the fields of a TransferTransaction row: owner, wallet id, amount,
    fee, source and destination currency, linked wallet ids, description and
    status.  The created row is returned with its id. *)
Definition createTransferTransaction (userId : option nat) (walletId : nat)
    (type : TransactionType) (amount fee : jsnum)
    (fromCurrency toCurrency : string) (fromWalletId toWalletId : nat)
    (description : string) (status : TransferStatus) (t : TxHandle)
    : M TxState TransferTransaction :=
  fun s =>
    let row := mkTransaction (fresh_id (map tx_id (transactions (working s))))
                 userId walletId type amount fee fromCurrency toCurrency
                 fromWalletId toWalletId description status in
    (mkTxState (committed s)
       (mkDb (users (working s)) (wallets (working s)) (ledger (working s))
             (transactions (working s) ++ [row]) (profits (working s))),
     inr row).

(** Modelled from the spec: [recordAdminProfit] is missing; the spec says it
    records "which user paid, the fee amount, currency, wallet types
    involved, and the linked outgoing transaction id". *)
Definition recordAdminProfit (userId : nat) (transferFeeAmount : jsnum)
    (fromCurrency : string) (fromType toType : WalletType)
    (transactionId : nat) (t : TxHandle) : M TxState unit :=
  dbWrite (Some t) (fun db =>
    mkDb (users db) (wallets db) (ledger db) (transactions db)
         (profits db ++ [mkAdminProfit userId transferFeeAmount fromCurrency
                                       fromType toType transactionId])).

(** [settings.get(key) || 0] *)
Definition orZero (v : option jsnum) : jsnum :=
  match v with
  | Some n => if num_truthy n then n else jzero
  | None => jzero
  end.

(** ** Requests and responses *)

Record TransferPair : Type := mkTransferPair {
  fromTransfer : TransferTransaction;
  toTransfer : TransferTransaction
}.

(** The request body; [amount] holds [parseFloat(body.amount)], which is
    [NaN] when the input does not start with a number. *)
Record TransferBody : Type := mkBody {
  fromType : WalletType;
  toType : WalletType;
  amount : jsnum;
  transferType : string;
  clientId : option nat;
  fromCurrency : string;
  toCurrency : string
}.

Record Handler : Type := mkHandler {
  user : option nat;
  body : TransferBody
}.

Record TransferResponse : Type := mkResponse {
  r_message : string;
  r_fromTransfer : TransferTransaction;
  r_toTransfer : TransferTransaction;
  r_fromType : WalletType;
  r_toType : WalletType;
  r_fromCurrency : string;
  r_toCurrency : string
}.

Record InternalTransferResult : Type := mkInternalResult {
  it_outgoingTransfer : TransferTransaction;
  it_incomingTransfer : TransferTransaction;
  it_balance : option jsnum;
  it_method : string;
  it_currency : string
}.

(** ** The blog category page

    The page of [src/pages/blog/category/index.tsx]: [getServerSideProps]
    turns the answer of [$serverFetch] into the props of the page and [Blog]
    renders them.  The rendered tree is kept as data: what the error page or
    the grid of category cards is handed. *)

Record Category : Type := mkCategory {
  slug : string;
  name : string;
  description : string;
  image : option string
}.

(** A thrown [Error] with its message. *)
Record JsError : Type := mkJsError { error_message : string }.

(** What [$serverFetch] resolves to: [data] is the array of categories or
    is missing, [error] is a text or is missing. *)
Record FetchResult : Type := mkFetchResult {
  fetch_data : option (list Category);
  fetch_error : option string
}.

(** The props of the page; a key that is not set is [None]. *)
Record Props : Type := mkProps {
  props_categories : option (list Category);
  props_error : option string
}.

(** Truthiness of a text that may be missing: the empty text is falsy. *)
Definition text_truthy (v : option string) : bool :=
  match v with
  | Some s => negb (String.eqb s EmptyString)
  | None => false
  end.

(** [v || fallback] on texts. *)
Definition text_or (v : option string) (fallback : string) : string :=
  match v with
  | Some s => if String.eqb s EmptyString then fallback else s
  | None => fallback
  end.

(** [getServerSideProps(context)], from the outcome of the call of
    [$serverFetch]; the [console.error] of the [catch] block is left out. *)
Definition getServerSideProps (fetched : Outcome JsError FetchResult) : Props :=
  match fetched with
  | Returned res =>
      if text_truthy (fetch_error res)
         || negb (match fetch_data res with Some _ => true | None => false end)
      then mkProps None (Some (text_or (fetch_error res) "Unable to fetch categories."))
      else mkProps (fetch_data res) None
  | Thrown e =>
      mkProps None (Some ("An unexpected error occurred: " ++ error_message e)%string)
  end.

(** One card of the grid: the key and the target of the link, the source
    and the alternative text of the image, the heading and the text. *)
Record CategoryCard : Type := mkCategoryCard {
  card_key : nat;
  card_href : string;
  card_src : string;
  card_alt : string;
  card_heading : string;
  card_text : string
}.

Inductive Page : Type :=
| ErrorPage (title description link linkTitle : string)
| Layout (title header : string) (cards : list CategoryCard).

(** [categories.map((category, index) => ...)] from index [index] on. *)
Fixpoint categoryCards (index : nat) (categories : list Category)
    : list CategoryCard :=
  match categories with
  | [] => []
  | category :: rest =>
      mkCategoryCard index ("/blog/category/" ++ slug category)
        (text_or (image category) "/img/placeholder.svg") (name category)
        (name category) (description category)
      :: categoryCards (S index) rest
  end.

(** The component [Blog], with the translation function [t] of
    [useTranslation]; [categories.map] on props without categories raises a
    [TypeError]. *)
Definition Blog (t : string -> string) (props : Props) : Outcome JsError Page :=
  if text_truthy (props_error props) then
    Returned (ErrorPage (t "Error") (t (text_or (props_error props) EmptyString))
                        "/blog" (t "Back to Blog"))
  else
    match props_categories props with
    | Some categories =>
        Returned (Layout (t "Blog") (t "Blog Categories") (categoryCards 0 categories))
    | None =>
        Thrown (mkJsError "Cannot read properties of undefined (reading 'map')")
    end.

(** ** The native deposit monitor

    One run of the closure [verifyDeposits] of
    [EVMDeposits.watchNativeDeposits].  The timers that schedule the runs
    are not represented. *)

(** A transaction as [fetchEcosystemTransactions] lists it; [etx_timestamp]
    and [etx_status] hold [Number(tx.timestamp)] and [Number(tx.status)]. *)
Record EvmTransaction : Type := mkEvmTransaction {
  etx_to : option string;
  etx_timestamp : jsnum;
  etx_status : jsnum;
  etx_hash : string
}.

(** The variables the closure captures, and what has been handed to
    [storeAndBroadcastTransaction] so far. *)
Record MonitorState (D : Type) : Type := mkMonitorState {
  depositFound : bool;
  startTime : Z;
  broadcast : list (D * string)
}.

Arguments mkMonitorState {D} _ _ _.
Arguments depositFound {D} _.
Arguments startTime {D} _.
Arguments broadcast {D} _.

(** The condition of the loop of [verifyDeposits]. *)
Definition isDeposit (toLowerCase : string -> string) (address : string)
    (since : Z) (tx : EvmTransaction) : bool :=
  match etx_to tx with
  | Some to =>
      negb (String.eqb to EmptyString)
      && String.eqb (toLowerCase to) (toLowerCase address)
      && jgt (etx_timestamp tx) (Num (inject_Z since))
      && jeqb (etx_status tx) (Num 1)
  | None => false
  end.

(** The [for (const tx of transactions)] loop: [now] is what
    [Math.floor(Date.now() / 1000)] gives after a deposit was handled;
    [createTransactionDetails] and [storeAndBroadcastTransaction] may throw,
    which the [catch] block swallows. *)
Fixpoint verifyLoop {D : Type} (toLowerCase : string -> string)
    (createTransactionDetails : EvmTransaction -> Outcome JsError D)
    (storeAndBroadcastTransaction : D -> string -> Outcome JsError unit)
    (address : string) (now : Z) (st : MonitorState D)
    (transactions : list EvmTransaction) : MonitorState D :=
  match transactions with
  | [] => st
  | tx :: rest =>
      if isDeposit toLowerCase address (startTime st) tx then
        match createTransactionDetails tx with
        | Returned txDetails =>
            match storeAndBroadcastTransaction txDetails (etx_hash tx) with
            | Returned _ =>
                mkMonitorState true now (broadcast st ++ [(txDetails, etx_hash tx)])
            | Thrown _ => mkMonitorState true now (broadcast st)
            end
        | Thrown _ => mkMonitorState true now (broadcast st)
        end
      else
        verifyLoop toLowerCase createTransactionDetails storeAndBroadcastTransaction
                   address now st rest
  end.

(** [verifyDeposits()], from the outcome of [fetchEcosystemTransactions];
    when the fetch throws, the run is rejected with its error. *)
Definition verifyDeposits {D : Type} (toLowerCase : string -> string)
    (createTransactionDetails : EvmTransaction -> Outcome JsError D)
    (storeAndBroadcastTransaction : D -> string -> Outcome JsError unit)
    (address : string) (now : Z) (st : MonitorState D)
    (fetched : Outcome JsError (list EvmTransaction))
    : Outcome JsError (MonitorState D) :=
  if depositFound st then Returned st
  else
    match fetched with
    | Thrown e => Thrown e
    | Returned transactions =>
        Returned (verifyLoop toLowerCase createTransactionDetails
                    storeAndBroadcastTransaction address now st transactions)
    end.

(** ** A sample environment

    Concrete collaborators and a small store, used to run the handler. *)

(** A fragment of [JSON.parse], enough for the address texts of the sample
    store. *)
Definition sample_JSON_parse (s : string) : Outcome SyntaxError JsValue :=
  if String.eqb s "{}" then Returned (JsObject [])
  else if String.eqb s "null" then Returned JsNull
  else if String.eqb s "5" then Returned (JsNumber (Num 5))
  else Thrown JsonSyntaxError.

(** A stand-in for [JSON.stringify]: it lists the keys of an object. *)
Definition sample_JSON_stringify (v : JsValue) : string :=
  match v with
  | JsObject m => "{" ++ String.concat "," (map fst m) ++ "}"
  | _ => "null"
  end.

(** The members every object inherits from [Object.prototype]; numbers,
    strings, booleans and functions inherit them as well. *)
Definition objectPrototypeNames : list string :=
  ["constructor"; "hasOwnProperty"; "isPrototypeOf"; "propertyIsEnumerable";
   "toLocaleString"; "toString"; "valueOf"; "__proto__"; "__defineGetter__";
   "__defineSetter__"; "__lookupGetter__"; "__lookupSetter__"].

Definition sample_inheritedMember (ty : JsTypeof) (name : string) : bool :=
  match ty with
  | TyUndefined => false
  | _ => existsb (String.eqb name) objectPrototypeNames
  end.

Definition sample_getWalletByUserIdAndCurrency (userId : nat) (currency : string)
    (db : Db) : option Wallet :=
  find (wallet_matches userId currency ECO) (wallets db).

Definition sample_getCurrencyData (type : WalletType) (currency : string)
    : option CurrencyData :=
  Some (mkCurrencyData 2).

Fixpoint insert_by_balance (e : string * ChainInfo) (l : list (string * ChainInfo))
    : list (string * ChainInfo) :=
  match l with
  | [] => [e]
  | x :: rest =>
      if jle (ci_balance (snd x)) (ci_balance (snd e)) then e :: l
      else x :: insert_by_balance e rest
  end.

(** Largest balance first. *)
Definition sample_getSortedChainBalances (v : JsValue) : list (string * ChainInfo) :=
  fold_right insert_by_balance [] (entries_of v).

(** Transfers into a FUTURES wallet are settled by the external process. *)
Definition sample_requiresPrivateLedgerUpdate (transferType : string)
    (fromType toType : WalletType) : bool :=
  WalletType_eqb toType FUTURES.

Definition chainA : string := "chainA".
Definition chainB : string := "chainB".

Definition sample_addresses : JsValue :=
  JsObject [(chainA, mkChainInfo (Some "0xa") (Some "mainnet") (Num 30));
            (chainB, mkChainInfo (Some "0xb") (Some "mainnet") (Num 80))].

(** User 1 owns a FIAT, a SPOT, an ECO and a FUTURES wallet in USDT; user 2
    owns an ECO wallet. *)
Definition sample_db : Db :=
  mkDb [1; 2]%nat
       [mkWallet 1 1 "USDT" FIAT (Num 100) JsNull true;
        mkWallet 2 1 "USDT" SPOT (Num 10) JsNull true;
        mkWallet 3 1 "USDT" ECO (Num 110) sample_addresses true;
        mkWallet 4 2 "USDT" ECO (Num 0) (JsObject []) true;
        mkWallet 5 1 "USDT" FUTURES (Num 7) JsNull true]
       [] [] [].




(** A fee of one percent. *)
Definition sample_fee : option jsnum := Some (Num 1).

Definition sample_request (from to : WalletType) (amt : jsnum)
    (kind : string) (client : option nat) : Handler :=
  mkHandler (Some 1%nat) (mkBody from to amt kind client "USDT" "USDT").

Section TransferEngine.

(** [JSON.parse]: the value a text denotes, or a [SyntaxError]. *)
Variable JSON_parse : string -> Outcome SyntaxError JsValue.

(** [JSON.stringify] *)
Variable JSON_stringify : JsValue -> string.

(** [inheritedMember ty name]: whether the values of type [ty], [null]
    apart, inherit under [name] an object or a function from their
    prototype, as every object inherits [toString] and [hasOwnProperty]. *)
Variable inheritedMember : JsTypeof -> string -> bool.

(** The ECO-specific wallet lookup of [@b/utils/eco/wallet]: what it
    finds for a user and a currency in a given store. *)
Variable getWalletByUserIdAndCurrency : nat -> string -> Db -> option Wallet.

(** Currency metadata lookup. *)
Variable getCurrencyData : WalletType -> string -> option CurrencyData.

(** The chain entries of a source address map in the order the client
    transfer consumes them. *)
Variable getSortedChainBalances : JsValue -> list (string * ChainInfo).

(** The settlement policy. *)
Variable requiresPrivateLedgerUpdate : string -> WalletType -> WalletType -> bool.

(** The entry [walletTransferFeePercentage] of the settings cache. *)
Variable walletTransferFeePercentage : option jsnum.

Definition emptyObject : JsValue := JsObject [].

(** [parseAddresses(address)], with [try]/[catch] written out: the only
    expression of the body that can throw is [JSON.parse(address)]. *)
Definition parseAddresses (address : JsValue) : Outcome SyntaxError JsValue :=
  if negb (truthy address) then Returned emptyObject
  else if typeof_eqb (typeof address) TyString then
    match address with
    | JsString s =>
        match JSON_parse s with
        | Returned v => Returned v
        | Thrown _ => Returned emptyObject
        end
    | _ => Returned emptyObject
    end
  else if typeof_eqb (typeof address) TyObject then Returned address
  else Returned emptyObject.

Definition lift_outcome {S A : Type} (o : Outcome SyntaxError A) : M S A :=
  match o with
  | Returned a => ret a
  | Thrown _ => throw (typeError "SyntaxError")
  end.

(** The address value after its entries have been updated in place. *)
Definition with_entries (v : JsValue) (m : ChainMap) : JsValue :=
  match v with
  | JsObject _ => JsObject m
  | _ => v
  end.

(** *** Per-chain ledger: deduction *)

(** The [for (const chain in addresses)] loop of [deductFromEcoWallet]:
    it returns the entries after the loop, the deduction details and the
    amount still to find. *)
Fixpoint deductLoop (walletId : nat) (currency : string) (entries : ChainMap)
    (remainingAmount : jsnum) : M TxState (ChainMap * list Detail * jsnum) :=
  match entries with
  | [] => ret ([], [], remainingAmount)
  | (chain, info) :: rest =>
      if jgt (ci_balance info) jzero then
        let transferableAmount := jmin (ci_balance info) remainingAmount in
        let info' := with_balance (jsub (ci_balance info) transferableAmount) info in
        updatePrivateLedger walletId 0 currency chain (jneg transferableAmount) None ;;
        let remaining' := jsub remainingAmount transferableAmount in
        if jle remaining' jzero then
          ret ((chain, info') :: rest, [mkDetail chain transferableAmount], remaining')
        else
          ' (rest', details, r) <- deductLoop walletId currency rest remaining' ;;
          ret ((chain, info') :: rest', mkDetail chain transferableAmount :: details, r)
      else
        ' (rest', details, r) <- deductLoop walletId currency rest remainingAmount ;;
        ret ((chain, info) :: rest', details, r)
  end.

(** The loop calls [addresses.hasOwnProperty(chain)] on every key: when the
    map holds a chain of that name, the call of the first round finds a
    chain record, which is no function, and raises a [TypeError]. *)
Definition shadowsHasOwnProperty (addresses : JsValue) : bool :=
  match chain_lookup "hasOwnProperty" (entries_of addresses) with
  | Some _ => true
  | None => false
  end.

Definition deductFromEcoWallet (wallet : Wallet) (amount : jsnum)
    (currency : string) (t : TxHandle) : M TxState (list Detail) :=
  addresses <- lift_outcome (parseAddresses (w_address wallet)) ;;
  ' (entries', deductionDetails, remainingAmount) <-
      (if shadowsHasOwnProperty addresses
       then throw (typeError "addresses.hasOwnProperty is not a function")
       else deductLoop (w_id wallet) currency (entries_of addresses) amount) ;;
  if jgt remainingAmount jzero then
    throw (createError 400 "Insufficient chain balance to complete the transfer")
  else
    wallet_update_address wallet
      (JsString (JSON_stringify (with_entries addresses entries'))) (Some t) ;;
    ret deductionDetails.

(** *** Per-chain ledger: credit *)

Definition chain_add_balance (chain : string) (amount : jsnum) (m : ChainMap)
    : ChainMap :=
  match chain_lookup chain m with
  | Some info => chain_set chain (with_balance (jadd (ci_balance info) amount) info) m
  | None => m
  end.

(** A credit to a chain of an object.  A chain the object holds gains the
    amount.  For a chain it does not hold, [m[chain]] is falsy and the
    record [init] is created and credited, unless the name resolves to a
    member of the prototype: then nothing is created and the sum is written
    to that member, outside the map. *)
Definition creditObject (m : ChainMap) (chain : string) (init : ChainInfo)
    (amount : jsnum) : ChainMap :=
  match chain_lookup chain m with
  | Some _ => chain_add_balance chain amount m
  | None =>
      if inheritedMember TyObject chain then m
      else chain_add_balance chain amount (chain_set chain init m)
  end.

(** [if (!addresses[chain]) addresses[chain] = init;
     addresses[chain].balance += amount] of [addToEcoWallet].  Reading a
    property of [null] raises a [TypeError], and so does, in module code,
    the creation of a property on a primitive; a primitive is left as it is
    when the name resolves to a member of its prototype.  A function takes
    the property, which is no part of a chain map. *)
Definition creditChain {S : Type} (addresses : JsValue) (chain : string)
    (init : ChainInfo) (amount : jsnum) : M S JsValue :=
  match addresses with
  | JsObject m => ret (JsObject (creditObject m chain init amount))
  | JsFunction => ret addresses
  | JsUndefined | JsNull =>
      throw (typeError "Cannot access a property of a value that is not an object")
  | JsBool _ | JsNumber _ | JsString _ =>
      if inheritedMember (typeof addresses) chain then ret addresses
      else throw (typeError "Cannot access a property of a value that is not an object")
  end.

(** [toAddresses[chain] = toAddresses[chain] || init;
     toAddresses[chain].balance += amount] of
    [handleEcoClientBalanceTransfer]: the assignment is made in every case
    and raises a [TypeError] on a primitive.  On an object, a name that
    resolves to a member of the prototype becomes an own key that holds this
    member, which is no chain record: the chain records stay as they are. *)
Definition assignChain {S : Type} (toAddresses : JsValue) (chain : string)
    (init : ChainInfo) (amount : jsnum) : M S JsValue :=
  match toAddresses with
  | JsObject m => ret (JsObject (creditObject m chain init amount))
  | JsFunction => ret toAddresses
  | _ => throw (typeError "Cannot access a property of a value that is not an object")
  end.

Fixpoint addLoop (walletId : nat) (currency : string)
    (deductionDetails : list Detail) (addresses : JsValue) : M TxState JsValue :=
  match deductionDetails with
  | [] => ret addresses
  | detail :: rest =>
      addresses' <- creditChain addresses (d_chain detail)
                      (mkChainInfo None None jzero) (d_amount detail) ;;
      updatePrivateLedger walletId 0 currency (d_chain detail) (d_amount detail) None ;;
      addLoop walletId currency rest addresses'
  end.

Definition addToEcoWallet (wallet : Wallet) (deductionDetails : list Detail)
    (currency : string) (t : TxHandle) : M TxState unit :=
  addresses <- lift_outcome (parseAddresses (w_address wallet)) ;;
  addresses' <- addLoop (w_id wallet) currency deductionDetails addresses ;;
  wallet_update_address wallet (JsString (JSON_stringify addresses')) (Some t).

(** *** The MUTATE step *)

(** The loop of [handleEcoClientBalanceTransfer] over the sorted entries:
    it returns the chain records after the loop, the destination map and
    the amount still to find. *)
Fixpoint ecoClientLoop (fromWalletId toWalletId : nat) (fromCurrency : string)
    (t : TxHandle) (entries : list (string * ChainInfo)) (toAddresses : JsValue)
    (remainingAmount : jsnum)
    : M TxState (list (string * ChainInfo) * JsValue * jsnum) :=
  match entries with
  | [] => ret ([], toAddresses, remainingAmount)
  | (chain, chainInfo) :: rest =>
      if jle remainingAmount jzero then ret (entries, toAddresses, remainingAmount)
      else
        let transferableAmount := jmin (ci_balance chainInfo) remainingAmount in
        let chainInfo' :=
          with_balance (jsub (ci_balance chainInfo) transferableAmount) chainInfo in
        toAddresses' <- assignChain toAddresses chain
                          (mkChainInfo None None jzero) transferableAmount ;;
        updatePrivateLedger fromWalletId 0 fromCurrency chain
                            (jneg transferableAmount) (Some t) ;;
        updatePrivateLedger toWalletId 0 fromCurrency chain
                            transferableAmount (Some t) ;;
        ' (rest', toAddresses'', r) <-
            ecoClientLoop fromWalletId toWalletId fromCurrency t rest toAddresses'
                          (jsub remainingAmount transferableAmount) ;;
        ret ((chain, chainInfo') :: rest', toAddresses'', r)
  end.

Definition handleEcoClientBalanceTransfer (fromWallet toWallet : Wallet)
    (parsedAmount : jsnum) (fromCurrency : string) (currencyData : CurrencyData)
    (t : TxHandle) : M TxState unit :=
  fromAddresses <- lift_outcome (parseAddresses (w_address fromWallet)) ;;
  toAddresses <- lift_outcome (parseAddresses (w_address toWallet)) ;;
  ' (_, _, remainingAmount) <-
      ecoClientLoop (w_id fromWallet) (w_id toWallet) fromCurrency t
                    (getSortedChainBalances fromAddresses) toAddresses parsedAmount ;;
  if jgt remainingAmount jzero then
    throw (createError 400 "Insufficient chain balance across all addresses.")
  else
    updateWalletBalances fromWallet toWallet parsedAmount parsedAmount
                         (precision currencyData) t.

Definition handleNonClientTransfer (fromWallet toWallet : Wallet)
    (parsedAmount : jsnum) (fromCurrency : string) (targetReceiveAmount : jsnum)
    (currencyData : CurrencyData) (t : TxHandle) : M TxState unit :=
  (if WalletType_eqb (w_type fromWallet) ECO && WalletType_eqb (w_type toWallet) ECO
   then
     deductionDetails <- deductFromEcoWallet fromWallet parsedAmount fromCurrency t ;;
     addToEcoWallet toWallet deductionDetails fromCurrency t
   else ret tt) ;;
  updateWalletBalances fromWallet toWallet parsedAmount targetReceiveAmount
                       (precision currencyData) t.

Definition isClient (transferType : string) : bool :=
  String.eqb transferType "client".

Definition handleCompleteTransfer (fromWallet toWallet : Wallet)
    (parsedAmount targetReceiveAmount : jsnum) (transferType : string)
    (fromType : WalletType) (fromCurrency : string) (currencyData : CurrencyData)
    (t : TxHandle) : M TxState unit :=
  if WalletType_eqb fromType ECO && isClient transferType then
    handleEcoClientBalanceTransfer fromWallet toWallet parsedAmount fromCurrency
                                   currencyData t
  else
    handleNonClientTransfer fromWallet toWallet parsedAmount fromCurrency
                            targetReceiveAmount currencyData t.

Definition handlePendingTransfer (fromWallet toWallet : Wallet)
    (totalDeducted targetReceiveAmount : jsnum) (transferStatus : TransferStatus)
    (currencyData : CurrencyData) (t : TxHandle) : M TxState unit :=
  let newFromBalance :=
    calculateNewBalance (w_balance fromWallet) (jneg totalDeducted) currencyData in
  wallet_update_balance fromWallet newFromBalance (Some t) ;;
  match transferStatus with
  | COMPLETED =>
      let newToBalance :=
        calculateNewBalance (w_balance toWallet) targetReceiveAmount currencyData in
      wallet_update_balance toWallet newToBalance (Some t)
  | PENDING => ret tt
  end.

(** *** The orchestrator *)

Definition transferFee (parsedAmount : jsnum) : jsnum :=
  calculateTransferFee parsedAmount (orZero walletTransferFeePercentage).

Definition transferStatusOf (transferType : string) (fromType toType : WalletType)
    : TransferStatus :=
  if requiresPrivateLedgerUpdate transferType fromType toType
  then PENDING else COMPLETED.

(** The callback [performTransaction] hands to [sequelize.transaction]. *)
Definition performTransaction_body (transferType : string)
    (fromWallet toWallet : Wallet) (parsedAmount : jsnum)
    (fromCurrency toCurrency : string) (userId : nat) (clientId : option nat)
    (fromType toType : WalletType) (currencyData : CurrencyData)
    (t : TxHandle) : M TxState TransferPair :=
  let transferFeeAmount := transferFee parsedAmount in
  let totalDeducted := parsedAmount in
  let targetReceiveAmount := jsub parsedAmount transferFeeAmount in
  let requiresLedgerUpdate := requiresPrivateLedgerUpdate transferType fromType toType in
  let transferStatus := if requiresLedgerUpdate then PENDING else COMPLETED in
  (if negb requiresLedgerUpdate then
     handleCompleteTransfer fromWallet toWallet parsedAmount targetReceiveAmount
                            transferType fromType fromCurrency currencyData t
   else
     handlePendingTransfer fromWallet toWallet totalDeducted targetReceiveAmount
                           transferStatus currencyData t) ;;
  fromTransfer <- createTransferTransaction (Some userId) (w_id fromWallet)
                    OUTGOING_TRANSFER parsedAmount transferFeeAmount
                    fromCurrency toCurrency (w_id fromWallet) (w_id toWallet)
                    ("Transfer to " ++ walletTypeName toType ++ " wallet")
                    transferStatus t ;;
  toTransfer <- createTransferTransaction
                  (if isClient transferType then clientId else Some userId)
                  (w_id toWallet) INCOMING_TRANSFER targetReceiveAmount jzero
                  fromCurrency toCurrency (w_id fromWallet) (w_id toWallet)
                  ("Transfer from " ++ walletTypeName fromType ++ " wallet")
                  transferStatus t ;;
  (if jgt transferFeeAmount jzero then
     recordAdminProfit userId transferFeeAmount fromCurrency fromType toType
                       (tx_id fromTransfer) t
   else ret tt) ;;
  ret (mkTransferPair fromTransfer toTransfer).

Definition performTransaction (transferType : string)
    (fromWallet toWallet : Wallet) (parsedAmount : jsnum)
    (fromCurrency toCurrency : string) (userId : nat) (clientId : option nat)
    (fromType toType : WalletType) (currencyData : CurrencyData)
    : M Db TransferPair :=
  let totalDeducted := parsedAmount in
  if jlt (w_balance fromWallet) totalDeducted then
    throw (createError 400 "Insufficient balance to cover transfer and fees.")
  else
    sequelize_transaction
      (performTransaction_body transferType fromWallet toWallet parsedAmount
         fromCurrency toCurrency userId clientId fromType toType currencyData).

(** *** Wallet resolution and route validation *)

Definition handleClientTransfer (clientId : option nat) (currency : string)
    (fromType : WalletType) : M Db (Wallet * nat) :=
  match clientId with
  | None => throw (createError 400 "Client ID is required")
  | Some clientId =>
      toUser <- user_findByPk clientId ;;
      match toUser with
      | None => throw (createError 404 "Target user not found")
      | Some toUser =>
          toWallet <-
            (if WalletType_eqb fromType ECO then
               gets (getWalletByUserIdAndCurrency clientId currency)
             else
               found <- wallet_findOne clientId currency fromType ;;
               match found with
               | Some w => ret (Some w)
               | None =>
                   w <- wallet_create clientId currency fromType ;;
                   ret (Some w)
               end) ;;
          match toWallet with
          | None => throw (createError 404 "Target wallet not found")
          | Some toWallet => ret (toWallet, toUser)
          end
      end
  end.

Definition validTransfers (fromType : WalletType) : option (list WalletType) :=
  match fromType with
  | FIAT => Some [SPOT; ECO]
  | SPOT => Some [FIAT; ECO]
  | ECO => Some [FIAT; SPOT; FUTURES]
  | FUTURES => Some [ECO]
  end.

Definition includes (l : list WalletType) (x : WalletType) : bool :=
  existsb (WalletType_eqb x) l.

Definition handleWalletTransfer (userId : nat) (fromType toType : WalletType)
    (toCurrency : string) : M Db Wallet :=
  if WalletType_eqb fromType toType then
    throw (createError 400 "Cannot transfer to the same wallet type")
  else
    match validTransfers fromType with
    | None => throw (createError 400 "Invalid wallet type transfer")
    | Some targets =>
        if negb (includes targets toType) then
          throw (createError 400 "Invalid wallet type transfer")
        else
          found <- wallet_findOne userId toCurrency toType ;;
          match found with
          | Some toWallet => ret toWallet
          | None => wallet_create userId toCurrency toType
          end
    end.

(** *** The request handler *)

(** Resolution of the destination wallet and, for a client transfer, of
    the receiving user. *)
Definition resolveDestination (userId : nat) (b : TransferBody)
    : M Db (Wallet * option nat) :=
  if isClient (transferType b) then
    ' (toWallet, toUser) <-
        handleClientTransfer (clientId b) (fromCurrency b) (fromType b) ;;
    ret (toWallet, Some toUser)
  else
    toWallet <- handleWalletTransfer userId (fromType b) (toType b) (toCurrency b) ;;
    ret (toWallet, None).

(** The default export, operation [createTransfer].  The e-mails sent
    after a client transfer leave the store alone and are left out. *)
Definition createTransfer (data : Handler) : M Db TransferResponse :=
  match user data with
  | None => throw (createError 401 "Unauthorized")
  | Some userId =>
      let b := body data in
      if String.eqb (toCurrency b) "Select a currency" then
        throw (createError 400 "Please select a target currency")
      else
        userPk <- user_findByPk userId ;;
        match userPk with
        | None => throw (createError 404 "User not found")
        | Some _ =>
            fromWallet <- wallet_findOne userId (fromCurrency b) (fromType b) ;;
            match fromWallet with
            | None => throw (createError 404 "Wallet not found")
            | Some fromWallet =>
                ' (toWallet, toUser) <- resolveDestination userId b ;;
                let parsedAmount := amount b in
                if jlt (w_balance fromWallet) parsedAmount then
                  throw (createError 400 "Insufficient balance")
                else
                  match getCurrencyData (fromType b) (fromCurrency b) with
                  | None => throw (createError 400 "Invalid wallet type")
                  | Some currencyData =>
                      transaction <-
                        performTransaction (transferType b) fromWallet toWallet
                          parsedAmount (fromCurrency b) (toCurrency b) userId
                          toUser (fromType b) (toType b) currencyData ;;
                      ret (mkResponse "Transfer initiated successfully"
                             (fromTransfer transaction) (toTransfer transaction)
                             (fromType b) (toType b) (fromCurrency b)
                             (toCurrency b))
                  end
            end
        end
  end.

(** *** [processInternalTransfer] *)

Definition string_of_nat (n : nat) : string :=
  NilEmpty.string_of_uint (Nat.to_uint n).

Definition processInternalTransfer_body (fromUserId toUserId : nat)
    (currency : string) (fromWallet toWallet : Wallet)
    (parsedAmount transferFeeAmount targetReceiveAmount : jsnum)
    (t : TxHandle) : M TxState TransferPair :=
  prec <-
    (if WalletType_eqb (w_type fromWallet) ECO && WalletType_eqb (w_type toWallet) ECO
     then
       deductionDetails <- deductFromEcoWallet fromWallet parsedAmount currency t ;;
       addToEcoWallet toWallet deductionDetails currency t ;;
       match getCurrencyData (w_type fromWallet) (w_currency fromWallet) with
       | Some currencyData => ret (precision currencyData)
       | None => throw (typeError "Cannot read properties of null")
       end
     else ret 8%nat) ;;
  updateWalletBalances fromWallet toWallet parsedAmount targetReceiveAmount prec t ;;
  outgoingTransfer <- createTransferTransaction (Some fromUserId) (w_id fromWallet)
                        OUTGOING_TRANSFER parsedAmount transferFeeAmount
                        currency currency (w_id fromWallet) (w_id toWallet)
                        ("Internal transfer to user " ++ string_of_nat toUserId)
                        COMPLETED t ;;
  incomingTransfer <- createTransferTransaction (Some toUserId) (w_id toWallet)
                        INCOMING_TRANSFER targetReceiveAmount jzero
                        currency currency (w_id fromWallet) (w_id toWallet)
                        ("Internal transfer from user " ++ string_of_nat fromUserId)
                        COMPLETED t ;;
  (if jgt transferFeeAmount jzero then
     recordAdminProfit fromUserId transferFeeAmount currency ECO ECO
                       (tx_id outgoingTransfer) t
   else ret tt) ;;
  ret (mkTransferPair outgoingTransfer incomingTransfer).

Definition processInternalTransfer (fromUserId toUserId : nat)
    (currency chain : string) (amount : jsnum) : M Db InternalTransferResult :=
  fromWallet <- wallet_findOne fromUserId currency ECO ;;
  match fromWallet with
  | None => throw (createError 404 "Sender wallet not found")
  | Some fromWallet =>
      found <- wallet_findOne toUserId currency ECO ;;
      toWallet <- match found with
                  | Some w => ret w
                  | None => wallet_create toUserId currency ECO
                  end ;;
      let parsedAmount := amount in
      if jlt (w_balance fromWallet) parsedAmount then
        throw (createError 400 "Insufficient balance.")
      else
        let transferFeeAmount :=
          jdiv100 (jmul parsedAmount (orZero walletTransferFeePercentage)) in
        let targetReceiveAmount := jsub parsedAmount transferFeeAmount in
        transaction <-
          sequelize_transaction
            (processInternalTransfer_body fromUserId toUserId currency fromWallet
               toWallet parsedAmount transferFeeAmount targetReceiveAmount) ;;
        userWallet <- wallet_findOne fromUserId currency ECO ;;
        ret (mkInternalResult (fromTransfer transaction) (toTransfer transaction)
               (option_map w_balance userWallet) chain currency)
  end.

(** The route table as the specification words it: FIAT and SPOT, FIAT
    and ECO, SPOT and ECO in both directions, ECO to FUTURES and FUTURES to
    ECO. *)
Definition spec_route_table (fromType toType : WalletType) : bool :=
  match fromType, toType with
  | FIAT, SPOT | SPOT, FIAT => true
  | FIAT, ECO | ECO, FIAT => true
  | SPOT, ECO | ECO, SPOT => true
  | ECO, FUTURES => true
  | FUTURES, ECO => true
  | _, _ => false
  end.

(** ** Vocabulary of the properties *)

(** [keeps f c]: running [c] leaves the observation [f] of the state as it
    was, whether [c] returns or throws. *)
Definition keeps {S A X : Type} (f : S -> X) (c : M S A) : Prop :=
  forall s s' r, c s = (s', r) -> f s' = f s.

Definition routeError (fromType toType : WalletType) : HttpError :=
  if WalletType_eqb fromType toType
  then createError 400 "Cannot transfer to the same wallet type"
  else createError 400 "Invalid wallet type transfer".

(** The error a wallet-type request with a pair outside the table ends
    with: the first check of the handler that fails. *)
Definition rejection (data : Handler) (db : Db) : HttpError :=
  match user data with
  | None => createError 401 "Unauthorized"
  | Some userId =>
      let b := body data in
      if String.eqb (toCurrency b) "Select a currency" then
        createError 400 "Please select a target currency"
      else
        match find (Nat.eqb userId) (users db) with
        | None => createError 404 "User not found"
        | Some _ =>
            match find (wallet_matches userId (fromCurrency b) (fromType b))
                       (wallets db) with
            | None => createError 404 "Wallet not found"
            | Some _ => routeError (fromType b) (toType b)
            end
        end
  end.

(** The transaction records and the profit records of the working copy. *)
Definition records (s : TxState) : list TransferTransaction * list AdminProfit :=
  (transactions (working s), profits (working s)).

Definition outgoingLeg (txs : list TransferTransaction) (userId : nat)
    (fromWallet toWallet : Wallet) (parsedAmount fee : jsnum)
    (fromCurrency toCurrency description : string) (status : TransferStatus)
    : TransferTransaction :=
  mkTransaction (fresh_id (map tx_id txs)) (Some userId) (w_id fromWallet)
    OUTGOING_TRANSFER parsedAmount fee fromCurrency toCurrency
    (w_id fromWallet) (w_id toWallet) description status.

Definition incomingLeg (txs : list TransferTransaction) (owner : option nat)
    (fromWallet toWallet : Wallet) (received : jsnum)
    (fromCurrency toCurrency description : string) (status : TransferStatus)
    : TransferTransaction :=
  mkTransaction (fresh_id (map tx_id txs)) owner (w_id toWallet)
    INCOMING_TRANSFER received jzero fromCurrency toCurrency
    (w_id fromWallet) (w_id toWallet) description status.

Definition profitRows (userId : nat) (fee : jsnum) (currency : string)
    (fromType toType : WalletType) (transactionId : nat) : list AdminProfit :=
  if jgt fee jzero
  then [mkAdminProfit userId fee currency fromType toType transactionId]
  else [].

(** The RECORD_TRANSACTIONS and RECORD_PROFIT steps, which
    [performTransaction] and [processInternalTransfer] both end with. *)
Definition recordLegs (payer : nat) (receiver : option nat)
    (fromWallet toWallet : Wallet) (gross fee received : jsnum)
    (fromCurrency toCurrency descriptionOut descriptionIn : string)
    (status : TransferStatus) (fromType toType : WalletType) (t : TxHandle)
    : M TxState TransferPair :=
  fromTransfer <- createTransferTransaction (Some payer) (w_id fromWallet)
                    OUTGOING_TRANSFER gross fee fromCurrency toCurrency
                    (w_id fromWallet) (w_id toWallet) descriptionOut status t ;;
  toTransfer <- createTransferTransaction receiver (w_id toWallet)
                  INCOMING_TRANSFER received jzero fromCurrency toCurrency
                  (w_id fromWallet) (w_id toWallet) descriptionIn status t ;;
  (if jgt fee jzero then
     recordAdminProfit payer fee fromCurrency fromType toType (tx_id fromTransfer) t
   else ret tt) ;;
  ret (mkTransferPair fromTransfer toTransfer).

(** The MUTATE step of [performTransaction]. *)
Definition mutateStep (transferType : string) (fromWallet toWallet : Wallet)
    (parsedAmount : jsnum) (fromCurrency : string) (fromType toType : WalletType)
    (currencyData : CurrencyData) (t : TxHandle) : M TxState unit :=
  if negb (requiresPrivateLedgerUpdate transferType fromType toType) then
    handleCompleteTransfer fromWallet toWallet parsedAmount
      (jsub parsedAmount (transferFee parsedAmount)) transferType fromType
      fromCurrency currencyData t
  else
    handlePendingTransfer fromWallet toWallet parsedAmount
      (jsub parsedAmount (transferFee parsedAmount))
      (transferStatusOf transferType fromType toType) currencyData t.

(** What a successful run of the handler went through. *)
Inductive Accepted (data : Handler) (db db' : Db) (r : TransferResponse) : Prop :=
| mkAccepted (userId : nat) (fromWallet toWallet : Wallet) (toUser : option nat)
    (db1 : Db) (currencyData : CurrencyData) (pair : TransferPair) :
    user data = Some userId ->
    String.eqb (toCurrency (body data)) "Select a currency" = false ->
    find (Nat.eqb userId) (users db) <> None ->
    find (wallet_matches userId (fromCurrency (body data)) (fromType (body data)))
         (wallets db) = Some fromWallet ->
    resolveDestination userId (body data) db = (db1, inr (toWallet, toUser)) ->
    jlt (w_balance fromWallet) (amount (body data)) = false ->
    getCurrencyData (fromType (body data)) (fromCurrency (body data))
    = Some currencyData ->
    performTransaction (transferType (body data)) fromWallet toWallet
      (amount (body data)) (fromCurrency (body data)) (toCurrency (body data))
      userId toUser (fromType (body data)) (toType (body data)) currencyData db1
    = (db', inr pair) ->
    r = mkResponse "Transfer initiated successfully" (fromTransfer pair)
          (toTransfer pair) (fromType (body data)) (toType (body data))
          (fromCurrency (body data)) (toCurrency (body data)) ->
    Accepted data db db' r.

(** Wallet resolution reads the store and at most appends one wallet
    with a zero balance. *)
Definition resolved (db db1 : Db) : Prop :=
  users db1 = users db /\ ledger db1 = ledger db /\
  transactions db1 = transactions db /\ profits db1 = profits db /\
  (wallets db1 = wallets db \/
   exists w, wallets db1 = wallets db ++ [w] /\ w_balance w = jzero /\
             w_id w = fresh_id (map w_id (wallets db))).

(** The mutation steps of [processInternalTransfer] before the records. *)
Definition internalEcoStep (fromWallet toWallet : Wallet) (parsedAmount : jsnum)
    (currency : string) (t : TxHandle) : M TxState nat :=
  if WalletType_eqb (w_type fromWallet) ECO && WalletType_eqb (w_type toWallet) ECO
  then
    deductionDetails <- deductFromEcoWallet fromWallet parsedAmount currency t ;;
    addToEcoWallet toWallet deductionDetails currency t ;;
    match getCurrencyData (w_type fromWallet) (w_currency fromWallet) with
    | Some currencyData => ret (precision currencyData)
    | None => throw (typeError "Cannot read properties of null")
    end
  else ret 8%nat.

(** What a successful run of [processInternalTransfer] went through. *)
Inductive InternalAccepted (fromUserId toUserId : nat) (currency : string)
    (amount : jsnum) (db db' : Db) (r : InternalTransferResult) : Prop :=
| mkInternalAccepted (fromWallet toWallet : Wallet) (db1 : Db) (s' : TxState)
    (pair : TransferPair) :
    find (wallet_matches fromUserId currency ECO) (wallets db) = Some fromWallet ->
    resolved db db1 ->
    jlt (w_balance fromWallet) amount = false ->
    processInternalTransfer_body fromUserId toUserId currency fromWallet toWallet
      amount (transferFee amount) (jsub amount (transferFee amount)) TxH
      (mkTxState db1 db1) = (s', inr pair) ->
    db' = working s' ->
    it_outgoingTransfer r = fromTransfer pair ->
    it_incomingTransfer r = toTransfer pair ->
    InternalAccepted fromUserId toUserId currency amount db db' r.

(** The MUTATE step of [performTransaction] with the amount to credit made
    a parameter: the step reads the fee through this amount only. *)
Definition mutateWith (received : jsnum) (transferType : string)
    (fromWallet toWallet : Wallet) (parsedAmount : jsnum) (fromCurrency : string)
    (fromType toType : WalletType) (currencyData : CurrencyData) (t : TxHandle)
    : M TxState unit :=
  if negb (requiresPrivateLedgerUpdate transferType fromType toType) then
    handleCompleteTransfer fromWallet toWallet parsedAmount received transferType
      fromType fromCurrency currencyData t
  else
    handlePendingTransfer fromWallet toWallet parsedAmount received
      (transferStatusOf transferType fromType toType) currencyData t.

(** What the acceptance of a request rests on: the checks of the handler
    and a MUTATE step that returns.  The fee setting is not among them. *)
Definition Admissible (data : Handler) (db : Db) : Prop :=
  exists userId u fromWallet toWallet toUser db1 currencyData received s1,
    user data = Some userId /\
    String.eqb (toCurrency (body data)) "Select a currency" = false /\
    find (Nat.eqb userId) (users db) = Some u /\
    find (wallet_matches userId (fromCurrency (body data)) (fromType (body data)))
         (wallets db) = Some fromWallet /\
    resolveDestination userId (body data) db = (db1, inr (toWallet, toUser)) /\
    jlt (w_balance fromWallet) (amount (body data)) = false /\
    getCurrencyData (fromType (body data)) (fromCurrency (body data))
    = Some currencyData /\
    mutateWith received (transferType (body data)) fromWallet toWallet
      (amount (body data)) (fromCurrency (body data)) (fromType (body data))
      (toType (body data)) currencyData TxH (mkTxState db1 db1) = (s1, inr tt).

(** The same for [processInternalTransfer]: the two wallets, the balance
    guard and the chain-level step. *)
Definition InternalAdmissible (fromUserId toUserId : nat) (currency : string)
    (amount : jsnum) (db : Db) : Prop :=
  exists fromWallet toWallet db1 s1 prec,
    find (wallet_matches fromUserId currency ECO) (wallets db) = Some fromWallet /\
    match find (wallet_matches toUserId currency ECO) (wallets db) with
    | Some w => ret w
    | None => wallet_create toUserId currency ECO
    end db = (db1, inr toWallet) /\
    jlt (w_balance fromWallet) amount = false /\
    internalEcoStep fromWallet toWallet amount currency TxH (mkTxState db1 db1)
    = (s1, inr prec).

Definition has_id (id : nat) (w : Wallet) : bool := Nat.eqb (w_id w) id.

(** The id and the aggregate balance of every wallet row. *)
Definition balances (db : Db) : list (nat * jsnum) :=
  map (fun w => (w_id w, w_balance w)) (wallets db).

Definition working_balances (s : TxState) : list (nat * jsnum) :=
  balances (working s).

(** The balances after [updateWalletBalances]. *)
Definition credited (fromWallet toWallet : Wallet) (debit credit : jsnum)
    (prec : nat) (bs : list (nat * jsnum)) : list (nat * jsnum) :=
  map (fun p => if Nat.eqb (fst p) (w_id toWallet)
                then (fst p, roundTo prec (decimal_add (w_balance toWallet) credit))
                else p)
      (map (fun p => if Nat.eqb (fst p) (w_id fromWallet)
                     then (fst p, roundTo prec (decimal_sub (w_balance fromWallet) debit))
                     else p)
           bs).

Definition lookup (id : nat) (bs : list (nat * jsnum)) : option jsnum :=
  option_map snd (find (fun p => Nat.eqb (fst p) id) bs).

(** [x] has at most [p] decimal places. *)
Definition decimal_places (p : nat) (x : Q) : Prop :=
  exists z : Z, x == inject_Z z / inject_Z (pow10 p).

(** Between the stores [before] and [after], the source loses [gross] and
    the destination gains [net], each result rounded to [prec] places; the
    figures are exact whenever the results have at most [prec] decimal
    places; no other wallet balance moves. *)
Definition BalancesMoved (before after : Db) (source destination : nat)
    (gross net : jsnum) (prec : nat) : Prop :=
  exists srcBefore dstBefore,
    balance_of source before = Some srcBefore /\
    balance_of destination before = Some dstBefore /\
    balance_of source after = Some (roundTo prec (decimal_sub srcBefore gross)) /\
    balance_of destination after = Some (roundTo prec (decimal_add dstBefore net)) /\
    (forall id, id <> source -> id <> destination ->
                balance_of id after = balance_of id before) /\
    (forall sb a, srcBefore = Num sb -> gross = Num a ->
                  decimal_places prec (sb - a) ->
                  exists sa, balance_of source after = Some (Num sa) /\ sb - sa == a) /\
    (forall d n, dstBefore = Num d -> net = Num n ->
                 decimal_places prec (d + n) ->
                 exists da, balance_of destination after = Some (Num da) /\
                            da - d == n).




(** What is still to find after a list of details, in the arithmetic of the
    loops: [remainingAmount -= transferableAmount], detail after detail. *)
Definition remainingAfter (requested : jsnum) (details : list Detail) : jsnum :=
  fold_left (fun r d => jsub r (d_amount d)) details requested.

(** Every detail is what its chain could give: the minimum of the balance
    of a chain of the map and of what was still to find after the details
    before it. *)
Definition Contributions (entries : ChainMap) (requested : jsnum)
    (details : list Detail) : Prop :=
  forall before d after,
    details = before ++ d :: after ->
    exists info,
      In (d_chain d, info) entries /\
      d_amount d = jmin (ci_balance info) (remainingAfter requested before).

(** An entry after the loop: the same chain, and either the same record or
    the record with its balance lowered, by [balance -= x] for an [x] that
    is at most the balance, to a number that is not negative. *)
Definition Deducted (old new : string * ChainInfo) : Prop :=
  fst new = fst old /\
  (snd new = snd old \/
   exists x, jle (Num x) (ci_balance (snd old)) = true /\
             snd new = with_balance (jsub (ci_balance (snd old)) (Num x)) (snd old) /\
             jle jzero (ci_balance (snd new)) = true).

Definition debitEntry (walletId : nat) (currency : string) (d : Detail) : LedgerEntry :=
  mkLedgerEntry walletId 0 currency (d_chain d) (jneg (d_amount d)).

Definition creditEntry (walletId : nat) (currency : string) (d : Detail) : LedgerEntry :=
  mkLedgerEntry walletId 0 currency (d_chain d) (d_amount d).

Definition appendLedger (rows : list LedgerEntry) (db : Db) : Db :=
  mkDb (users db) (wallets db) (ledger db ++ rows) (transactions db) (profits db).

Definition transferEntries (fromWalletId toWalletId : nat) (currency : string)
    (details : list Detail) : list LedgerEntry :=
  flat_map (fun d => [debitEntry fromWalletId currency d;
                      creditEntry toWalletId currency d]) details.


(** [raises P c]: every error [c] throws satisfies [P]. *)
Definition raises {S A : Type} (P : HttpError -> Prop) (c : M S A) : Prop :=
  forall s s' e, c s = (s', inl e) -> P e.

(** The errors that reject a request because of its amount. *)
Definition amountError (e : HttpError) : bool :=
  String.eqb (message e) "Insufficient balance"
  || String.eqb (message e) "Insufficient balance to cover transfer and fees."
  || String.eqb (message e) "Insufficient chain balance across all addresses."
  || String.eqb (message e) "Insufficient chain balance to complete the transfer"
  || String.eqb (message e) "Insufficient balance.".

Definition notAmountError (e : HttpError) : Prop := amountError e = false.

(** Everything in a store but its private ledger. *)
Definition core (db : Db)
    : list nat * list Wallet * list TransferTransaction * list AdminProfit :=
  (users db, wallets db, transactions db, profits db).

(** The errors the request handler can end with: those it raises with
    [createError] and the [TypeError] of a credit to a destination address
    that is not an object. *)
Definition handlerErrors : list HttpError :=
  [createError 401 "Unauthorized";
   createError 400 "Please select a target currency";
   createError 404 "User not found";
   createError 404 "Wallet not found";
   createError 400 "Client ID is required";
   createError 404 "Target user not found";
   createError 404 "Target wallet not found";
   createError 400 "Cannot transfer to the same wallet type";
   createError 400 "Invalid wallet type transfer";
   createError 400 "Insufficient balance";
   createError 400 "Invalid wallet type";
   createError 400 "Insufficient chain balance across all addresses.";
   typeError "Cannot access a property of a value that is not an object"].

(** The errors [processInternalTransfer] can end with. *)
Definition internalErrors : list HttpError :=
  [createError 404 "Sender wallet not found";
   createError 400 "Insufficient balance.";
   createError 400 "Insufficient chain balance to complete the transfer";
   typeError "Cannot access a property of a value that is not an object";
   typeError "Cannot read properties of null";
   typeError "addresses.hasOwnProperty is not a function"].

(** The path the MUTATE step of a request takes: settlement left to the
    external process, the client transfer out of an ECO wallet, or a
    transfer whose two wallets are not both ECO wallets. *)
Definition handlerPath (transferType : string) (fromType toType : WalletType)
    (fromWallet toWallet : Wallet) : Prop :=
  requiresPrivateLedgerUpdate transferType fromType toType = true \/
  WalletType_eqb fromType ECO && isClient transferType = true \/
  WalletType_eqb (w_type fromWallet) ECO && WalletType_eqb (w_type toWallet) ECO = false.

(** The wallet rows with their aggregate balance blanked: the id, owner,
    currency, type, address map and status of every row. *)
Definition withoutBalance (db : Db) : list Wallet :=
  map (set_balance jzero) (wallets db).

(** [steps R c]: whether [c] returns or throws, the state it ends in is
    related by [R] to the state it started from. *)
Definition steps {S A : Type} (R : S -> S -> Prop) (c : M S A) : Prop :=
  forall s s' r, c s = (s', r) -> R s s'.

(** The private ledger of the committed store has only gained rows. *)
Definition ledgerGrew (s s' : TxState) : Prop :=
  exists rows, ledger (committed s') = ledger (committed s) ++ rows.

(** The private ledger of the working copy has gained pairs of rows, a
    debit on one wallet and the mirrored credit on the other. *)
Definition ledgerPaired (fromWalletId toWalletId : nat) (currency : string)
    (s s' : TxState) : Prop :=
  exists details,
    ledger (working s')
    = ledger (working s) ++ transferEntries fromWalletId toWalletId currency details.


(** The map after one credit of [addToEcoWallet]. *)
Definition creditOne (m : ChainMap) (d : Detail) : ChainMap :=
  creditObject m (d_chain d) (mkChainInfo None None jzero) (d_amount d).

Definition creditAll (details : list Detail) (m : ChainMap) : ChainMap :=
  fold_left creditOne details m.

(** A balance after the amounts that a list of details holds for a chain
    have been added to it, one after the other. *)
Definition chainCredits (chain : string) (details : list Detail) (b : jsnum) : jsnum :=
  fold_left (fun acc d => if String.eqb (d_chain d) chain
                          then jadd acc (d_amount d) else acc) details b.





(** The columns [findOne] selects a wallet by, with the id of the row. *)
Definition wallet_key (w : Wallet) : nat * nat * string * WalletType :=
  (w_id w, w_userId w, w_currency w, w_type w).

Definition wallet_keys (db : Db) : list (nat * nat * string * WalletType) :=
  map wallet_key (wallets db).

(** * Properties *)

(** ** Running monadic code *)

Lemma bind_inr {S A B : Type} (c : M S A) (k : A -> M S B) s s' b :
  bind c k s = (s', inr b) ->
  exists s1 a, c s = (s1, inr a) /\ k a s1 = (s', inr b).
Proof.
  unfold bind. destruct (c s) as [s1 [e | a]]; intros H.
  - discriminate.
  - exists s1, a. split; [reflexivity | exact H].
Qed.

Lemma bind_inl {S A B : Type} (c : M S A) (k : A -> M S B) s s' e :
  bind c k s = (s', inl e) ->
  c s = (s', inl e) \/ exists s1 a, c s = (s1, inr a) /\ k a s1 = (s', inl e).
Proof.
  unfold bind. destruct (c s) as [s1 [e1 | a]]; intros H.
  - left. inversion H. reflexivity.
  - right. exists s1, a. split; [reflexivity | exact H].
Qed.

Lemma bind_run {S A B : Type} (c : M S A) (k : A -> M S B) s s1 a :
  c s = (s1, inr a) -> bind c k s = k a s1.
Proof. intros H. unfold bind. rewrite H. reflexivity. Qed.

Lemma bind_fail {S A B : Type} (c : M S A) (k : A -> M S B) s s1 e :
  c s = (s1, inl e) -> bind c k s = (s1, inl e).
Proof. intros H. unfold bind. rewrite H. reflexivity. Qed.

Lemma keeps_ret {S A X : Type} (f : S -> X) (a : A) : keeps f (ret a).
Proof. intros s s' r H. inversion H. reflexivity. Qed.

Lemma keeps_throw {S A X : Type} (f : S -> X) e : keeps f (@throw S A e).
Proof. intros s s' r H. inversion H. reflexivity. Qed.

Lemma keeps_gets {S A X : Type} (f : S -> X) (g : S -> A) : keeps f (gets g).
Proof. intros s s' r H. inversion H. reflexivity. Qed.

Lemma keeps_bind {S A B X : Type} (f : S -> X) (c : M S A) (k : A -> M S B) :
  keeps f c -> (forall a, keeps f (k a)) -> keeps f (bind c k).
Proof.
  intros Hc Hk s s' r H. unfold bind in H.
  destruct (c s) as [s1 [e | a]] eqn:E.
  - inversion H; subst. eapply Hc; eauto.
  - transitivity (f s1); [eapply Hk; eauto | eapply Hc; eauto].
Qed.

Lemma keeps_lift_outcome {S A X : Type} (f : S -> X) (o : Outcome SyntaxError A) :
  keeps f (@lift_outcome S A o).
Proof. destruct o; [apply keeps_throw | apply keeps_ret]. Qed.

Lemma keeps_dbWrite_working {X : Type} (g : Db -> X) t upd :
  (forall db, g (upd db) = g db) ->
  keeps (fun s => g (working s)) (dbWrite t upd).
Proof.
  intros Hg s s' r H. unfold dbWrite, modify in H. inversion H; subst.
  destruct t; simpl; apply Hg.
Qed.

Lemma keeps_dbWrite_committed {X : Type} (g : Db -> X) t upd :
  (forall db, g (upd db) = g db) ->
  keeps (fun s => g (committed s)) (dbWrite t upd).
Proof.
  intros Hg s s' r H. unfold dbWrite, modify in H. inversion H; subst.
  destruct t; simpl; [reflexivity | apply Hg].
Qed.

Lemma keeps_dbWrite_scoped {X : Type} (g : Db -> X) h upd :
  keeps (fun s => g (committed s)) (dbWrite (Some h) upd).
Proof.
  intros s s' r H. unfold dbWrite, modify in H. inversion H; subst. reflexivity.
Qed.

(** ** [parseAddresses] *)

Lemma parseAddresses_returns address :
  exists v, parseAddresses address = Returned v.
Proof.
  unfold parseAddresses.
  destruct (negb (truthy address)); [eexists; reflexivity |].
  destruct address; simpl; try (eexists; reflexivity).
  destruct (JSON_parse s); eexists; reflexivity.
Qed.

Lemma lift_parseAddresses {S : Type} address (s : S) :
  exists v, parseAddresses address = Returned v /\
            lift_outcome (parseAddresses address) s = (s, inr v).
Proof.
  destruct (parseAddresses_returns address) as [v Hv].
  exists v. split; [exact Hv |]. rewrite Hv. reflexivity.
Qed.

(** [JSON.parse("")] throws: the empty text is not JSON. *)
Hypothesis JSON_parse_empty : JSON_parse "" = Thrown JsonSyntaxError.

(** C10, amended.  [parseAddresses] never throws.  A falsy input ([null],
    [undefined], ...) and an input that is neither a string nor an object
    give the empty map; a string that [JSON.parse] rejects gives the empty
    map; a string that [JSON.parse] accepts gives the parsed value, whatever
    it is; an object is returned as it is.  The result is an object whenever
    the input is not a string; for a string it is what the text denotes,
    which need not be an object. *)
Theorem parseAddresses_total (address : JsValue) :
  (exists v, parseAddresses address = Returned v) /\
  (address = JsNull \/ address = JsUndefined ->
   parseAddresses address = Returned emptyObject) /\
  (typeof address <> TyString -> typeof address <> TyObject ->
   parseAddresses address = Returned emptyObject) /\
  (forall s e, address = JsString s -> JSON_parse s = Thrown e ->
   parseAddresses address = Returned emptyObject) /\
  (forall s v, address = JsString s -> JSON_parse s = Returned v ->
   parseAddresses address = Returned v) /\
  (forall m, address = JsObject m -> parseAddresses address = Returned address) /\
  (forall v, typeof address <> TyString -> parseAddresses address = Returned v ->
   exists m, v = JsObject m).
Proof.
  split; [apply parseAddresses_returns |].
  split; [intros [-> | ->]; reflexivity |].
  split.
  { intros Hs Ho. unfold parseAddresses.
    destruct address; simpl in *; try reflexivity; try congruence.
    - destruct b; reflexivity.
    - destruct (num_truthy j); reflexivity. }
  split.
  { intros s e -> He. unfold parseAddresses. simpl.
    destruct (String.eqb s ""); simpl; [reflexivity |]. rewrite He. reflexivity. }
  split.
  { intros s v -> Hv. unfold parseAddresses. simpl.
    destruct (String.eqb_spec s "") as [-> | Hne]; simpl.
    - rewrite JSON_parse_empty in Hv. discriminate.
    - rewrite Hv. reflexivity. }
  split.
  { intros m ->. reflexivity. }
  intros v Hs. unfold parseAddresses.
  destruct address; simpl in *; try congruence;
    try (intros H; inversion H; subst; eexists; reflexivity).
  - destruct b; simpl; intros H; inversion H; eexists; reflexivity.
  - destruct (num_truthy j); simpl; intros H; inversion H; eexists; reflexivity.
Qed.

(** ** Wallet resolution and routes *)

Lemma WalletType_eqb_eq a b : WalletType_eqb a b = true <-> a = b.
Proof. destruct a, b; simpl; split; intros H; congruence. Qed.

Lemma WalletType_eqb_neq a b : WalletType_eqb a b = false <-> a <> b.
Proof. destruct a, b; simpl; split; intros H; congruence. Qed.

Lemma wallet_matches_true userId currency type w :
  wallet_matches userId currency type w = true ->
  w_userId w = userId /\ w_currency w = currency /\ w_type w = type.
Proof.
  unfold wallet_matches. intros H.
  apply andb_prop in H as [H Ht]. apply andb_prop in H as [Hu Hc].
  apply Nat.eqb_eq in Hu. apply String.eqb_eq in Hc.
  apply WalletType_eqb_eq in Ht. auto.
Qed.

Lemma wallet_findOne_some userId currency type db w :
  find (wallet_matches userId currency type) (wallets db) = Some w ->
  In w (wallets db) /\ w_userId w = userId /\ w_currency w = currency /\
  w_type w = type.
Proof.
  intros H. apply find_some in H as [Hin Hm].
  split; [exact Hin | apply wallet_matches_true; exact Hm].
Qed.

Lemma handleWalletTransfer_rejects userId fromType toType toCurrency db :
  spec_route_table fromType toType = false ->
  handleWalletTransfer userId fromType toType toCurrency db
  = (db, inl (routeError fromType toType)).
Proof. destruct fromType, toType; simpl; intros H; try discriminate; reflexivity. Qed.

Lemma handleWalletTransfer_accepts userId fromType toType toCurrency db :
  spec_route_table fromType toType = true ->
  exists db' toWallet,
    handleWalletTransfer userId fromType toType toCurrency db = (db', inr toWallet) /\
    w_userId toWallet = userId /\ w_currency toWallet = toCurrency /\
    w_type toWallet = toType.
Proof.
  intros H.
  assert (E : handleWalletTransfer userId fromType toType toCurrency db
              = bind (wallet_findOne userId toCurrency toType)
                     (fun found => match found with
                                   | Some toWallet => ret toWallet
                                   | None => wallet_create userId toCurrency toType
                                   end) db).
  { destruct fromType, toType; simpl in H; try discriminate; reflexivity. }
  rewrite E. unfold bind, wallet_findOne, gets.
  destruct (find (wallet_matches userId toCurrency toType) (wallets db)) as [w |] eqn:F.
  - exists db, w. split; [reflexivity |].
    apply wallet_findOne_some in F. tauto.
  - eexists; eexists. split; [reflexivity |]. simpl. auto.
Qed.

Lemma route_table_irreflexive t : spec_route_table t t = false.
Proof. destruct t; reflexivity. Qed.

Lemma createTransfer_rejects_route data db :
  isClient (transferType (body data)) = false ->
  spec_route_table (fromType (body data)) (toType (body data)) = false ->
  createTransfer data db = (db, inl (rejection data db)).
Proof.
  intros Hc Hr. destruct data as [u b]. simpl in *.
  unfold createTransfer, rejection. simpl.
  destruct u as [userId |]; [| reflexivity].
  destruct (String.eqb (toCurrency b) "Select a currency"); [reflexivity |].
  unfold bind at 1. unfold user_findByPk, gets.
  destruct (find (Nat.eqb userId) (users db)); [| reflexivity].
  unfold bind at 1. unfold wallet_findOne, gets.
  destruct (find (wallet_matches userId (fromCurrency b) (fromType b)) (wallets db));
    [| reflexivity].
  unfold bind at 1. unfold resolveDestination. rewrite Hc.
  unfold bind at 1. rewrite handleWalletTransfer_rejects by exact Hr.
  reflexivity.
Qed.

(** C4, amended.  For every request that is not a client transfer: a
    request that is accepted has its wallet-type pair in the route table
    (FIAT and SPOT, FIAT and ECO, SPOT and ECO both ways, ECO to FUTURES,
    FUTURES to ECO); a pair outside the table, a same-type pair included,
    makes the request fail with the store untouched, and the error is a 400
    validation error once the caller and the source wallet have been found;
    route validation itself accepts every pair of the table. *)
Theorem wallet_transfer_route_table (data : Handler) (db : Db) :
  isClient (transferType (body data)) = false ->
  (forall db' r, createTransfer data db = (db', inr r) ->
     spec_route_table (fromType (body data)) (toType (body data)) = true) /\
  (spec_route_table (fromType (body data)) (toType (body data)) = false ->
     createTransfer data db = (db, inl (rejection data db)) /\
     (forall userId u w,
        user data = Some userId ->
        String.eqb (toCurrency (body data)) "Select a currency" = false ->
        find (Nat.eqb userId) (users db) = Some u ->
        find (wallet_matches userId (fromCurrency (body data)) (fromType (body data)))
             (wallets db) = Some w ->
        rejection data db = routeError (fromType (body data)) (toType (body data)) /\
        statusCode (rejection data db) = 400%nat)) /\
  (fromType (body data) = toType (body data) ->
     createTransfer data db = (db, inl (rejection data db))) /\
  (forall userId,
     spec_route_table (fromType (body data)) (toType (body data)) = true ->
     exists db1 toWallet,
       handleWalletTransfer userId (fromType (body data)) (toType (body data))
                            (toCurrency (body data)) db = (db1, inr toWallet)).
Proof.
  intros Hc. repeat split.
  - intros db' r H.
    destruct (spec_route_table (fromType (body data)) (toType (body data))) eqn:E;
      [reflexivity |].
    rewrite (createTransfer_rejects_route data db Hc E) in H. discriminate.
  - apply createTransfer_rejects_route; assumption.
  - unfold rejection. rewrite H0, H1, H2, H3. reflexivity.
  - unfold rejection. rewrite H0, H1, H2, H3.
    unfold routeError. destruct (WalletType_eqb _ _); reflexivity.
  - intros E. apply createTransfer_rejects_route; [exact Hc |].
    rewrite E. apply route_table_irreflexive.
  - intros userId E.
    destruct (handleWalletTransfer_accepts userId _ _ (toCurrency (body data)) db E)
      as (db1 & w & H & _).
    exists db1, w. exact H.
Qed.



(** ** What the MUTATE step leaves alone *)

Ltac keeps_step :=
  match goal with
  | |- keeps _ (bind _ _) => apply keeps_bind; [| intros]
  | |- keeps _ (ret _) => apply keeps_ret
  | |- keeps _ (throw _) => apply keeps_throw
  | |- keeps _ (gets _) => apply keeps_gets
  | |- keeps _ (lift_outcome _) => apply keeps_lift_outcome
  | |- keeps _ (if ?b then _ else _) => destruct b
  | |- keeps _ (match ?x with _ => _ end) => destruct x
  end.

Section Frame.

Context {X : Type} (f : TxState -> X).

Lemma creditChain_keeps addresses chain init amount :
  keeps f (@creditChain TxState addresses chain init amount).
Proof. unfold creditChain. repeat keeps_step. Qed.

Lemma assignChain_keeps toAddresses chain init amount :
  keeps f (@assignChain TxState toAddresses chain init amount).
Proof. unfold assignChain. repeat keeps_step. Qed.

(** Writes to the private ledger that carry the transaction handle. *)
Hypothesis f_scoped_ledger :
  forall walletId index currency chain amount t,
    keeps f (updatePrivateLedger walletId index currency chain amount (Some t)).

Lemma ecoClientLoop_keeps fromId toId currency t entries toAddresses remainingAmount :
  keeps f (ecoClientLoop fromId toId currency t entries toAddresses remainingAmount).
Proof.
  revert toAddresses remainingAmount.
  induction entries as [| [chain info] rest IH]; intros toAddresses remainingAmount;
    cbn [ecoClientLoop].
  - apply keeps_ret.
  - destruct (jle remainingAmount jzero); [apply keeps_ret |].
    apply keeps_bind; [apply assignChain_keeps | intros a'].
    apply keeps_bind; [apply f_scoped_ledger | intros _].
    apply keeps_bind; [apply f_scoped_ledger | intros _].
    apply keeps_bind; [apply IH | intros [[? ?] ?]; apply keeps_ret].
Qed.

Hypothesis f_balance :
  forall wallet b t, keeps f (wallet_update_balance wallet b (Some t)).

Lemma updateWalletBalances_keeps fromWallet toWallet a r prec t :
  keeps f (updateWalletBalances fromWallet toWallet a r prec t).
Proof.
  unfold updateWalletBalances.
  apply keeps_bind; [apply f_balance | intros _; apply f_balance].
Qed.

Lemma handlePendingTransfer_keeps fromWallet toWallet d r status currencyData t :
  keeps f (handlePendingTransfer fromWallet toWallet d r status currencyData t).
Proof.
  unfold handlePendingTransfer.
  apply keeps_bind; [apply f_balance | intros _].
  destruct status; [apply keeps_ret | apply f_balance].
Qed.

Lemma handleEcoClientBalanceTransfer_keeps fromWallet toWallet a fromCurrency
    currencyData t :
  keeps f (handleEcoClientBalanceTransfer fromWallet toWallet a fromCurrency
                                          currencyData t).
Proof.
  unfold handleEcoClientBalanceTransfer.
  apply keeps_bind; [apply keeps_lift_outcome | intros fromAddresses].
  apply keeps_bind; [apply keeps_lift_outcome | intros toAddresses].
  apply keeps_bind; [apply ecoClientLoop_keeps | intros [[? ?] ?]].
  destruct (jgt _ jzero); [apply keeps_throw | apply updateWalletBalances_keeps].
Qed.

(** Writes to the private ledger that do not carry the handle. *)
Hypothesis f_unscoped_ledger :
  forall walletId index currency chain amount,
    keeps f (updatePrivateLedger walletId index currency chain amount None).

Lemma deductLoop_keeps walletId currency entries remainingAmount :
  keeps f (deductLoop walletId currency entries remainingAmount).
Proof.
  revert remainingAmount.
  induction entries as [| [chain info] rest IH]; intros remainingAmount;
    cbn [deductLoop].
  - apply keeps_ret.
  - destruct (jgt (ci_balance info) jzero).
    + apply keeps_bind; [apply f_unscoped_ledger | intros _].
      destruct (jle _ jzero); [apply keeps_ret |].
      apply keeps_bind; [apply IH | intros [[? ?] ?]; apply keeps_ret].
    + apply keeps_bind; [apply IH | intros [[? ?] ?]; apply keeps_ret].
Qed.

Lemma addLoop_keeps walletId currency details addresses :
  keeps f (addLoop walletId currency details addresses).
Proof.
  revert addresses.
  induction details as [| d rest IH]; intros addresses; cbn [addLoop].
  - apply keeps_ret.
  - apply keeps_bind; [apply creditChain_keeps | intros a'].
    apply keeps_bind; [apply f_unscoped_ledger | intros _; apply IH].
Qed.

Hypothesis f_address :
  forall wallet a t, keeps f (wallet_update_address wallet a (Some t)).

Lemma deductFromEcoWallet_keeps wallet amount currency t :
  keeps f (deductFromEcoWallet wallet amount currency t).
Proof.
  unfold deductFromEcoWallet.
  apply keeps_bind; [apply keeps_lift_outcome | intros addresses].
  apply keeps_bind;
    [destruct (shadowsHasOwnProperty addresses);
       [apply keeps_throw | apply deductLoop_keeps]
    | intros [[? ?] ?]].
  destruct (jgt _ jzero); [apply keeps_throw |].
  apply keeps_bind; [apply f_address | intros _; apply keeps_ret].
Qed.

Lemma addToEcoWallet_keeps wallet details currency t :
  keeps f (addToEcoWallet wallet details currency t).
Proof.
  unfold addToEcoWallet.
  apply keeps_bind; [apply keeps_lift_outcome | intros addresses].
  apply keeps_bind; [apply addLoop_keeps | intros a'; apply f_address].
Qed.

Lemma handleNonClientTransfer_keeps fromWallet toWallet a fromCurrency r
    currencyData t :
  keeps f (handleNonClientTransfer fromWallet toWallet a fromCurrency r
                                   currencyData t).
Proof.
  unfold handleNonClientTransfer.
  apply keeps_bind; [| intros _; apply updateWalletBalances_keeps].
  destruct (_ && _); [| apply keeps_ret].
  apply keeps_bind; [apply deductFromEcoWallet_keeps | intros ds].
  apply addToEcoWallet_keeps.
Qed.

Lemma handleCompleteTransfer_keeps fromWallet toWallet a r transferType fromType
    fromCurrency currencyData t :
  keeps f (handleCompleteTransfer fromWallet toWallet a r transferType fromType
                                  fromCurrency currencyData t).
Proof.
  unfold handleCompleteTransfer.
  destruct (WalletType_eqb fromType ECO && isClient transferType).
  - apply handleEcoClientBalanceTransfer_keeps.
  - apply handleNonClientTransfer_keeps.
Qed.

End Frame.

Lemma records_ledger walletId index currency chain amount t :
  keeps records (updatePrivateLedger walletId index currency chain amount t).
Proof.
  apply (keeps_dbWrite_working (fun db => (transactions db, profits db))).
  reflexivity.
Qed.

Lemma records_address wallet a t : keeps records (wallet_update_address wallet a t).
Proof.
  apply (keeps_dbWrite_working (fun db => (transactions db, profits db))).
  reflexivity.
Qed.

Lemma records_balance wallet b t : keeps records (wallet_update_balance wallet b t).
Proof.
  apply (keeps_dbWrite_working (fun db => (transactions db, profits db))).
  reflexivity.
Qed.

(** ** The two legs and the profit record *)

Lemma recordLegs_total payer receiver fromWallet toWallet gross fee received
    fromCurrency toCurrency dOut dIn status fromType toType t s :
  exists s' pair,
    recordLegs payer receiver fromWallet toWallet gross fee received fromCurrency
      toCurrency dOut dIn status fromType toType t s = (s', inr pair).
Proof.
  unfold recordLegs, bind, createTransferTransaction.
  destruct (jgt fee jzero); eexists; eexists; reflexivity.
Qed.

Lemma recordLegs_spec payer receiver fromWallet toWallet gross fee received
    fromCurrency toCurrency dOut dIn status fromType toType t s s' pair :
  recordLegs payer receiver fromWallet toWallet gross fee received fromCurrency
    toCurrency dOut dIn status fromType toType t s = (s', inr pair) ->
  fromTransfer pair
  = outgoingLeg (transactions (working s)) payer fromWallet toWallet gross fee
      fromCurrency toCurrency dOut status /\
  toTransfer pair
  = incomingLeg (transactions (working s) ++ [fromTransfer pair]) receiver
      fromWallet toWallet received fromCurrency toCurrency dIn status /\
  working s'
  = mkDb (users (working s)) (wallets (working s)) (ledger (working s))
      (transactions (working s) ++ [fromTransfer pair; toTransfer pair])
      (profits (working s)
       ++ profitRows payer fee fromCurrency fromType toType (tx_id (fromTransfer pair))) /\
  committed s' = committed s.
Proof.
  unfold recordLegs. intros H.
  apply bind_inr in H as (s2 & ft & Hf & H).
  unfold createTransferTransaction in Hf. inversion Hf; subst s2 ft. clear Hf.
  apply bind_inr in H as (s3 & tt' & Ht & H).
  unfold createTransferTransaction in Ht.
  cbn [working committed transactions users wallets ledger profits] in Ht.
  inversion Ht; subst s3 tt'. clear Ht.
  apply bind_inr in H as (s4 & [] & Hp & H).
  inversion H; subst s4 pair. clear H.
  unfold outgoingLeg, incomingLeg, profitRows.
  cbn [fromTransfer toTransfer tx_id].
  split; [reflexivity | split; [reflexivity |]].
  destruct (jgt fee jzero).
  - unfold recordAdminProfit, dbWrite, modify in Hp. inversion Hp; subst s'.
    cbn [working committed transactions users wallets ledger profits].
    rewrite <- app_assoc. split; reflexivity.
  - inversion Hp; subst s'.
    cbn [working committed transactions users wallets ledger profits].
    rewrite <- app_assoc, app_nil_r. split; reflexivity.
Qed.

Lemma performTransaction_body_eq transferType fromWallet toWallet parsedAmount
    fromCurrency toCurrency userId clientId fromType toType currencyData t :
  performTransaction_body transferType fromWallet toWallet parsedAmount fromCurrency
    toCurrency userId clientId fromType toType currencyData t
  = (mutateStep transferType fromWallet toWallet parsedAmount fromCurrency fromType
       toType currencyData t ;;
     recordLegs userId (if isClient transferType then clientId else Some userId)
       fromWallet toWallet parsedAmount (transferFee parsedAmount)
       (jsub parsedAmount (transferFee parsedAmount)) fromCurrency toCurrency
       ("Transfer to " ++ walletTypeName toType ++ " wallet")
       ("Transfer from " ++ walletTypeName fromType ++ " wallet")
       (transferStatusOf transferType fromType toType) fromType toType t).
Proof. reflexivity. Qed.

Lemma mutateStep_records transferType fromWallet toWallet parsedAmount fromCurrency
    fromType toType currencyData t :
  keeps records (mutateStep transferType fromWallet toWallet parsedAmount
                   fromCurrency fromType toType currencyData t).
Proof.
  unfold mutateStep. destruct (negb _).
  - apply handleCompleteTransfer_keeps;
      auto using records_ledger, records_address, records_balance.
  - apply handlePendingTransfer_keeps; auto using records_balance.
Qed.

Lemma performTransaction_body_records transferType fromWallet toWallet parsedAmount
    fromCurrency toCurrency userId clientId fromType toType currencyData t s s' pair :
  performTransaction_body transferType fromWallet toWallet parsedAmount fromCurrency
    toCurrency userId clientId fromType toType currencyData t s = (s', inr pair) ->
  let fee := transferFee parsedAmount in
  let status := transferStatusOf transferType fromType toType in
  fromTransfer pair
  = outgoingLeg (transactions (working s)) userId fromWallet toWallet parsedAmount fee
      fromCurrency toCurrency ("Transfer to " ++ walletTypeName toType ++ " wallet")
      status /\
  toTransfer pair
  = incomingLeg (transactions (working s) ++ [fromTransfer pair])
      (if isClient transferType then clientId else Some userId)
      fromWallet toWallet (jsub parsedAmount fee) fromCurrency toCurrency
      ("Transfer from " ++ walletTypeName fromType ++ " wallet") status /\
  transactions (working s')
  = transactions (working s) ++ [fromTransfer pair; toTransfer pair] /\
  profits (working s')
  = profits (working s)
    ++ profitRows userId fee fromCurrency fromType toType (tx_id (fromTransfer pair)).
Proof.
  rewrite performTransaction_body_eq. intros H.
  apply bind_inr in H as (s1 & [] & Hm & H).
  apply mutateStep_records in Hm. unfold records in Hm. inversion Hm as [[Rt Rp]].
  apply recordLegs_spec in H as (Hf & Ht & Hw & _).
  cbv zeta. rewrite Hw. cbn [transactions profits].
  rewrite Rt, Rp in *. auto.
Qed.

(** ** Inversion of the handler *)

Lemma sequelize_transaction_inr {A : Type} (callback : TxHandle -> M TxState A)
    db db' a :
  sequelize_transaction callback db = (db', inr a) ->
  exists s', callback TxH (mkTxState db db) = (s', inr a) /\ db' = working s'.
Proof.
  unfold sequelize_transaction.
  destruct (callback TxH (mkTxState db db)) as [s' [e | a']]; intros H;
    inversion H; subst. eauto.
Qed.

Lemma sequelize_transaction_inl {A : Type} (callback : TxHandle -> M TxState A)
    db db' e :
  sequelize_transaction callback db = (db', inl e) ->
  exists s', callback TxH (mkTxState db db) = (s', @inl _ A e) /\ db' = committed s'.
Proof.
  unfold sequelize_transaction.
  destruct (callback TxH (mkTxState db db)) as [s' [e' | a']]; intros H;
    inversion H; subst. eauto.
Qed.

Lemma performTransaction_inr transferType fromWallet toWallet parsedAmount fromCurrency
    toCurrency userId clientId fromType toType currencyData db db' pair :
  performTransaction transferType fromWallet toWallet parsedAmount fromCurrency
    toCurrency userId clientId fromType toType currencyData db = (db', inr pair) ->
  jlt (w_balance fromWallet) parsedAmount = false /\
  exists s',
    performTransaction_body transferType fromWallet toWallet parsedAmount fromCurrency
      toCurrency userId clientId fromType toType currencyData TxH (mkTxState db db)
    = (s', inr pair) /\ db' = working s'.
Proof.
  unfold performTransaction.
  destruct (jlt (w_balance fromWallet) parsedAmount); [discriminate |].
  intros H. split; [reflexivity |]. apply sequelize_transaction_inr in H. exact H.
Qed.

Lemma createTransfer_inr data db db' r :
  createTransfer data db = (db', inr r) -> Accepted data db db' r.
Proof.
  destruct data as [u b]. unfold createTransfer. cbn [user body].
  destruct u as [userId |]; [| discriminate].
  destruct (String.eqb (toCurrency b) "Select a currency") eqn:P; [discriminate |].
  intros H.
  apply bind_inr in H as (d1 & userPk & Hu & H).
  unfold user_findByPk, gets in Hu. inversion Hu; subst d1 userPk. clear Hu.
  destruct (find (Nat.eqb userId) (users db)) eqn:U; [| discriminate].
  apply bind_inr in H as (d2 & fw & Hw & H).
  unfold wallet_findOne, gets in Hw. inversion Hw; subst d2 fw. clear Hw.
  destruct (find (wallet_matches userId (fromCurrency b) (fromType b)) (wallets db))
    as [fromWallet |] eqn:F; [| discriminate].
  apply bind_inr in H as (db1 & [toWallet toUser] & Hr & H).
  destruct (jlt (w_balance fromWallet) (amount b)) eqn:G; [discriminate |].
  destruct (getCurrencyData (fromType b) (fromCurrency b)) as [cd |] eqn:C;
    [| discriminate].
  apply bind_inr in H as (db2 & pair & Hp & H).
  inversion H; subst db2 r. clear H.
  econstructor; cbn [user body]; eauto. congruence.
Qed.

Lemma resolved_refl db : resolved db db.
Proof. unfold resolved. auto 6. Qed.

Lemma wallet_create_resolved userId currency type db db1 r :
  wallet_create userId currency type db = (db1, r) -> resolved db db1.
Proof.
  unfold wallet_create. intros H. inversion H; subst. unfold resolved. simpl.
  repeat split. right. eexists. split; [reflexivity |]. auto.
Qed.

Lemma find_or_create_resolved userId currency type db db1 (r : Result Wallet) :
  bind (wallet_findOne userId currency type)
       (fun found => match found with
                     | Some w => ret w
                     | None => wallet_create userId currency type
                     end) db = (db1, r) ->
  resolved db db1.
Proof.
  unfold bind, wallet_findOne, gets.
  destruct (find _ _).
  - intros H. inversion H; subst. apply resolved_refl.
  - apply wallet_create_resolved.
Qed.

Lemma handleWalletTransfer_resolved userId fromType toType toCurrency db db1 r :
  handleWalletTransfer userId fromType toType toCurrency db = (db1, r) ->
  resolved db db1.
Proof.
  unfold handleWalletTransfer.
  destruct (WalletType_eqb fromType toType).
  { intros H; inversion H; subst; apply resolved_refl. }
  destruct (validTransfers fromType).
  2: { intros H; inversion H; subst; apply resolved_refl. }
  destruct (negb _).
  { intros H; inversion H; subst; apply resolved_refl. }
  apply find_or_create_resolved.
Qed.

Lemma handleClientTransfer_resolved cid currency fromType db db1 r :
  handleClientTransfer cid currency fromType db = (db1, r) -> resolved db db1.
Proof.
  unfold handleClientTransfer.
  destruct cid as [clientId |].
  2: { intros H; inversion H; subst; apply resolved_refl. }
  unfold bind at 1. unfold user_findByPk, gets.
  destruct (find (Nat.eqb clientId) (users db)).
  2: { intros H; inversion H; subst; apply resolved_refl. }
  destruct (WalletType_eqb fromType ECO).
  - unfold bind, gets.
    destruct (getWalletByUserIdAndCurrency clientId currency db);
      intros H; inversion H; subst; apply resolved_refl.
  - unfold bind, wallet_findOne, gets.
    destruct (find (wallet_matches clientId currency fromType) (wallets db)).
    + intros H; inversion H; subst; apply resolved_refl.
    + simpl. intros H. inversion H; subst.
      eapply wallet_create_resolved. reflexivity.
Qed.

Lemma resolveDestination_resolved userId b db db1 r :
  resolveDestination userId b db = (db1, r) -> resolved db db1.
Proof.
  unfold resolveDestination. destruct (isClient (transferType b)).
  - unfold bind.
    destruct (handleClientTransfer (clientId b) (fromCurrency b) (fromType b) db)
      as [d [e | [w u]]] eqn:E; intros H; inversion H; subst;
      eapply handleClientTransfer_resolved; eauto.
  - unfold bind.
    destruct (handleWalletTransfer userId (fromType b) (toType b) (toCurrency b) db)
      as [d [e | w]] eqn:E; intros H; inversion H; subst;
      eapply handleWalletTransfer_resolved; eauto.
Qed.

Lemma processInternalTransfer_body_eq fromUserId toUserId currency fromWallet toWallet
    parsedAmount fee received t :
  processInternalTransfer_body fromUserId toUserId currency fromWallet toWallet
    parsedAmount fee received t
  = (prec <- internalEcoStep fromWallet toWallet parsedAmount currency t ;;
     updateWalletBalances fromWallet toWallet parsedAmount received prec t ;;
     recordLegs fromUserId (Some toUserId) fromWallet toWallet parsedAmount fee
       received currency currency
       ("Internal transfer to user " ++ string_of_nat toUserId)
       ("Internal transfer from user " ++ string_of_nat fromUserId)
       COMPLETED ECO ECO t).
Proof. reflexivity. Qed.

Lemma internalEcoStep_records fromWallet toWallet parsedAmount currency t :
  keeps records (internalEcoStep fromWallet toWallet parsedAmount currency t).
Proof.
  unfold internalEcoStep. destruct (_ && _); [| apply keeps_ret].
  apply keeps_bind;
    [apply deductFromEcoWallet_keeps; auto using records_ledger, records_address |].
  intros ds. apply keeps_bind;
    [apply addToEcoWallet_keeps; auto using records_ledger, records_address |].
  intros _. destruct (getCurrencyData _ _); [apply keeps_ret | apply keeps_throw].
Qed.

Lemma processInternalTransfer_body_records fromUserId toUserId currency fromWallet
    toWallet parsedAmount fee received t s s' pair :
  processInternalTransfer_body fromUserId toUserId currency fromWallet toWallet
    parsedAmount fee received t s = (s', inr pair) ->
  fromTransfer pair
  = outgoingLeg (transactions (working s)) fromUserId fromWallet toWallet parsedAmount
      fee currency currency ("Internal transfer to user " ++ string_of_nat toUserId)
      COMPLETED /\
  toTransfer pair
  = incomingLeg (transactions (working s) ++ [fromTransfer pair]) (Some toUserId)
      fromWallet toWallet received currency currency
      ("Internal transfer from user " ++ string_of_nat fromUserId) COMPLETED /\
  transactions (working s')
  = transactions (working s) ++ [fromTransfer pair; toTransfer pair] /\
  profits (working s')
  = profits (working s)
    ++ profitRows fromUserId fee currency ECO ECO (tx_id (fromTransfer pair)).
Proof.
  rewrite processInternalTransfer_body_eq. intros H.
  apply bind_inr in H as (s1 & prec & H1 & H).
  apply bind_inr in H as (s2 & [] & H2 & H).
  apply internalEcoStep_records in H1.
  apply (updateWalletBalances_keeps records (fun w b h => records_balance w b (Some h))) in H2.
  rewrite H1 in H2. unfold records in H2. inversion H2 as [[Rt Rp]].
  apply recordLegs_spec in H as (Hf & Ht & Hw & _).
  rewrite Hw. cbn [transactions profits]. rewrite Rt, Rp in *. auto.
Qed.

Lemma processInternalTransfer_inr fromUserId toUserId currency chain amount db db' r :
  processInternalTransfer fromUserId toUserId currency chain amount db = (db', inr r) ->
  InternalAccepted fromUserId toUserId currency amount db db' r.
Proof.
  unfold processInternalTransfer. intros H.
  apply bind_inr in H as (d1 & fw & Hw & H).
  unfold wallet_findOne, gets in Hw. inversion Hw; subst d1 fw. clear Hw.
  destruct (find (wallet_matches fromUserId currency ECO) (wallets db))
    as [fromWallet |] eqn:F; [| discriminate].
  apply bind_inr in H as (d1 & found & Hw & H).
  unfold wallet_findOne, gets in Hw. inversion Hw; subst d1 found. clear Hw.
  apply bind_inr in H as (db1 & toWallet & Hc & H).
  assert (R : resolved db db1).
  { destruct (find (wallet_matches toUserId currency ECO) (wallets db)).
    - inversion Hc; subst. apply resolved_refl.
    - eapply wallet_create_resolved; eauto. }
  destruct (jlt (w_balance fromWallet) amount) eqn:G; [discriminate |].
  apply bind_inr in H as (db2 & pair & Hp & H).
  apply sequelize_transaction_inr in Hp as (s' & Hb & ->).
  apply bind_inr in H as (db3 & uw & Hu & H).
  unfold wallet_findOne, gets in Hu. inversion Hu; subst db3 uw. clear Hu.
  inversion H; subst db' r. clear H.
  econstructor; eauto.
Qed.

Lemma createTransfer_legs data db db' r :
  createTransfer data db = (db', inr r) ->
  transactions db' = transactions db ++ [r_fromTransfer r; r_toTransfer r] /\
  tx_amount (r_fromTransfer r) = amount (body data) /\
  tx_amount (r_toTransfer r)
  = jsub (amount (body data)) (transferFee (amount (body data))).
Proof.
  intros H.
  apply createTransfer_inr in H
    as [userId fromWallet toWallet toUser db1 cd pair _ _ _ _ Hr _ _ Hp ->].
  apply resolveDestination_resolved in Hr as (_ & _ & Rt & _).
  apply performTransaction_inr in Hp as (_ & s' & Hb & ->).
  apply performTransaction_body_records in Hb as (Hf & Ht & Hx & _).
  cbn [r_fromTransfer r_toTransfer working] in *.
  rewrite Hx, Rt, Ht, Hf. unfold incomingLeg, outgoingLeg. simpl.
  repeat split.
Qed.

(** C5.  A transfer that succeeds appends exactly two transaction records:
    an OUTGOING_TRANSFER leg whose amount is the gross amount and whose fee
    is the computed fee, then an INCOMING_TRANSFER leg whose amount is the
    amount minus the fee and whose fee is 0; both name the same source and
    destination wallet and both carry the resolved transfer status.  This
    holds for the handler and for [processInternalTransfer], whose status
    is COMPLETED. *)
Theorem transfer_records_two_legs :
  (forall data db db' r,
     createTransfer data db = (db', inr r) ->
     let b := body data in
     let fee := transferFee (amount b) in
     let status := transferStatusOf (transferType b) (fromType b) (toType b) in
     let out := r_fromTransfer r in
     let inc := r_toTransfer r in
     transactions db' = transactions db ++ [out; inc] /\
     tx_type out = OUTGOING_TRANSFER /\ tx_amount out = amount b /\ tx_fee out = fee /\
     tx_type inc = INCOMING_TRANSFER /\ tx_amount inc = jsub (amount b) fee /\
     tx_fee inc = jzero /\
     tx_fromWallet inc = tx_fromWallet out /\ tx_toWallet inc = tx_toWallet out /\
     tx_walletId out = tx_fromWallet out /\ tx_walletId inc = tx_toWallet out /\
     tx_status out = status /\ tx_status inc = status) /\
  (forall fromUserId toUserId currency chain amount db db' r,
     processInternalTransfer fromUserId toUserId currency chain amount db
     = (db', inr r) ->
     let fee := transferFee amount in
     let out := it_outgoingTransfer r in
     let inc := it_incomingTransfer r in
     transactions db' = transactions db ++ [out; inc] /\
     tx_type out = OUTGOING_TRANSFER /\ tx_amount out = amount /\ tx_fee out = fee /\
     tx_type inc = INCOMING_TRANSFER /\ tx_amount inc = jsub amount fee /\
     tx_fee inc = jzero /\
     tx_fromWallet inc = tx_fromWallet out /\ tx_toWallet inc = tx_toWallet out /\
     tx_walletId out = tx_fromWallet out /\ tx_walletId inc = tx_toWallet out /\
     tx_status out = COMPLETED /\ tx_status inc = COMPLETED).
Proof.
  split.
  - intros data db db' r H.
    apply createTransfer_inr in H
      as [userId fromWallet toWallet toUser db1 cd pair _ _ _ _ Hr _ _ Hp ->].
    apply resolveDestination_resolved in Hr as (_ & _ & Rt & _).
    apply performTransaction_inr in Hp as (_ & s' & Hb & ->).
    apply performTransaction_body_records in Hb as (Hf & Ht & Hx & _).
    cbv zeta. cbn [r_fromTransfer r_toTransfer working] in *.
    rewrite Hx, Rt, Ht, Hf. unfold incomingLeg, outgoingLeg. simpl.
    repeat split.
  - intros fromUserId toUserId currency chain amount db db' r H.
    apply processInternalTransfer_inr in H
      as [fromWallet toWallet db1 s' pair _ (_ & _ & Rt & _) _ Hb -> Ho Hi].
    apply processInternalTransfer_body_records in Hb as (Hf & Ht & Hx & _).
    cbv zeta. cbn [working] in *.
    rewrite Hx, Rt, Ho, Hi, Ht, Hf. unfold incomingLeg, outgoingLeg. simpl.
    repeat split.
Qed.

(** ** Profit records and the fee *)

Lemma createTransfer_profits data db db' r :
  createTransfer data db = (db', inr r) ->
  let b := body data in
  let fee := transferFee (amount b) in
  (jgt fee jzero = true ->
   exists payer,
     user data = Some payer /\
     profits db' = profits db
       ++ [mkAdminProfit payer fee (fromCurrency b) (fromType b) (toType b)
                         (tx_id (r_fromTransfer r))]) /\
  (jgt fee jzero = false -> profits db' = profits db) /\
  (List.length (profits db') = S (List.length (profits db)) <-> jgt fee jzero = true).
Proof.
  intros H.
  apply createTransfer_inr in H
    as [userId fromWallet toWallet toUser db1 cd pair Hu _ _ _ Hr _ _ Hp ->].
  apply resolveDestination_resolved in Hr as (_ & _ & _ & Rp & _).
  apply performTransaction_inr in Hp as (_ & s' & Hb & ->).
  apply performTransaction_body_records in Hb as (_ & _ & _ & Hx).
  cbv zeta. cbn [r_fromTransfer working] in *. rewrite Hx, Rp.
  unfold profitRows.
  destruct (jgt (transferFee (amount (body data))) jzero).
  + split; [intros _; exists userId; auto |].
    split; [discriminate |].
    rewrite length_app. simpl. split; [reflexivity | lia].
  + rewrite app_nil_r. split; [discriminate |]. split; [reflexivity |].
    split; [lia | discriminate].
Qed.

Lemma processInternalTransfer_profits fromUserId toUserId currency chain amount db db'
    r :
  processInternalTransfer fromUserId toUserId currency chain amount db = (db', inr r) ->
  let fee := transferFee amount in
  (jgt fee jzero = true ->
   profits db' = profits db
     ++ [mkAdminProfit fromUserId fee currency ECO ECO
                       (tx_id (it_outgoingTransfer r))]) /\
  (jgt fee jzero = false -> profits db' = profits db) /\
  (List.length (profits db') = S (List.length (profits db)) <-> jgt fee jzero = true).
Proof.
  intros H.
  apply processInternalTransfer_inr in H
    as [fromWallet toWallet db1 s' pair _ (_ & _ & _ & Rp & _) _ Hb -> Ho Hi].
  apply processInternalTransfer_body_records in Hb as (_ & _ & _ & Hx).
  cbv zeta. cbn [working] in *. rewrite Hx, Rp, Ho.
  unfold profitRows.
  destruct (jgt (transferFee amount) jzero).
  + split; [reflexivity |]. split; [discriminate |].
    rewrite length_app. simpl. split; [reflexivity | lia].
  + rewrite app_nil_r. split; [discriminate |]. split; [reflexivity |].
    split; [lia | discriminate].
Qed.

(** The balance updates never throw, whatever they are asked to credit. *)
Lemma updateWalletBalances_returns fromWallet toWallet a received prec t s :
  exists s', updateWalletBalances fromWallet toWallet a received prec t s = (s', inr tt).
Proof.
  unfold updateWalletBalances, bind, wallet_update_balance, dbWrite, modify.
  eexists. reflexivity.
Qed.

Lemma handlePendingTransfer_returns fromWallet toWallet d received status currencyData
    t s :
  exists s', handlePendingTransfer fromWallet toWallet d received status currencyData t s
             = (s', inr tt).
Proof.
  unfold handlePendingTransfer, bind, wallet_update_balance, dbWrite, modify.
  destruct status; eexists; reflexivity.
Qed.

Lemma handleCompleteTransfer_received fromWallet toWallet a r1 r2 transferType fromType
    fromCurrency currencyData t s s1 :
  handleCompleteTransfer fromWallet toWallet a r1 transferType fromType fromCurrency
    currencyData t s = (s1, inr tt) ->
  exists s2,
    handleCompleteTransfer fromWallet toWallet a r2 transferType fromType fromCurrency
      currencyData t s = (s2, inr tt).
Proof.
  unfold handleCompleteTransfer.
  destruct (WalletType_eqb fromType ECO && isClient transferType); [eauto |].
  unfold handleNonClientTransfer. intros H.
  apply bind_inr in H as (s0 & [] & Hm & _).
  rewrite (bind_run _ _ _ _ _ Hm). apply updateWalletBalances_returns.
Qed.

Lemma mutateWith_received r1 r2 transferType fromWallet toWallet a fromCurrency
    fromType toType currencyData t s s1 :
  mutateWith r1 transferType fromWallet toWallet a fromCurrency fromType toType
    currencyData t s = (s1, inr tt) ->
  exists s2,
    mutateWith r2 transferType fromWallet toWallet a fromCurrency fromType toType
      currencyData t s = (s2, inr tt).
Proof.
  unfold mutateWith. destruct (negb _).
  - apply handleCompleteTransfer_received.
  - intros _. apply handlePendingTransfer_returns.
Qed.

(** The handler accepts a request exactly when the request is admissible. *)
Lemma createTransfer_accepts_iff data db :
  (exists db' r, createTransfer data db = (db', inr r)) <-> Admissible data db.
Proof.
  split.
  - intros (db' & r & H).
    apply createTransfer_inr in H
      as [userId fromWallet toWallet toUser db1 cd pair Hu Hs Hf Hw Hr Hg Hc Hp _].
    apply performTransaction_inr in Hp as (_ & s' & Hb & _).
    rewrite performTransaction_body_eq in Hb.
    apply bind_inr in Hb as (s1 & [] & Hm & _).
    destruct (find (Nat.eqb userId) (users db)) as [u |] eqn:U; [| contradiction].
    exists userId, u, fromWallet, toWallet, toUser, db1, cd.
    exists (jsub (amount (body data)) (transferFee (amount (body data)))), s1.
    repeat (split; [assumption |]). exact Hm.
  - intros (userId & u & fromWallet & toWallet & toUser & db1 & cd & received & s1
            & Hu & Hs & Hf & Hw & Hr & Hg & Hc & Hm).
    apply (mutateWith_received _
             (jsub (amount (body data)) (transferFee (amount (body data)))))
      in Hm as (s2 & Hm).
    destruct (recordLegs_total userId
                (if isClient (transferType (body data)) then toUser else Some userId)
                fromWallet toWallet (amount (body data))
                (transferFee (amount (body data)))
                (jsub (amount (body data)) (transferFee (amount (body data))))
                (fromCurrency (body data)) (toCurrency (body data))
                ("Transfer to " ++ walletTypeName (toType (body data)) ++ " wallet")
                ("Transfer from " ++ walletTypeName (fromType (body data)) ++ " wallet")
                (transferStatusOf (transferType (body data)) (fromType (body data))
                                  (toType (body data)))
                (fromType (body data)) (toType (body data)) TxH s2)
      as (s3 & pair & Hl).
    exists (working s3). eexists.
    unfold createTransfer. rewrite Hu, Hs.
    unfold bind at 1. unfold user_findByPk, gets. rewrite Hf.
    unfold bind at 1. unfold wallet_findOne, gets. rewrite Hw.
    rewrite (bind_run _ _ _ _ _ Hr). rewrite Hg, Hc.
    unfold bind at 1. unfold performTransaction. rewrite Hg.
    unfold sequelize_transaction. rewrite performTransaction_body_eq.
    change (mutateStep (transferType (body data)) fromWallet toWallet
              (amount (body data)) (fromCurrency (body data)) (fromType (body data))
              (toType (body data)) cd TxH)
      with (mutateWith (jsub (amount (body data)) (transferFee (amount (body data))))
              (transferType (body data)) fromWallet toWallet
              (amount (body data)) (fromCurrency (body data)) (fromType (body data))
              (toType (body data)) cd TxH).
    rewrite (bind_run _ _ _ _ _ Hm). rewrite Hl. reflexivity.
Qed.

(** [processInternalTransfer] accepts exactly the admissible transfers. *)
Lemma processInternalTransfer_accepts_iff fromUserId toUserId currency chain amount db :
  (exists db' r,
     processInternalTransfer fromUserId toUserId currency chain amount db
     = (db', inr r)) <->
  InternalAdmissible fromUserId toUserId currency amount db.
Proof.
  split.
  - intros (db' & r & H). unfold processInternalTransfer in H.
    apply bind_inr in H as (d1 & fw & Hw & H).
    unfold wallet_findOne, gets in Hw. inversion Hw; subst d1 fw. clear Hw.
    destruct (find (wallet_matches fromUserId currency ECO) (wallets db))
      as [fromWallet |] eqn:F; [| discriminate].
    apply bind_inr in H as (d1 & found & Hw & H).
    unfold wallet_findOne, gets in Hw. inversion Hw; subst d1 found. clear Hw.
    apply bind_inr in H as (db1 & toWallet & Hc & H).
    destruct (jlt (w_balance fromWallet) amount) eqn:G; [discriminate |].
    apply bind_inr in H as (db2 & pair & Hp & _).
    apply sequelize_transaction_inr in Hp as (s' & Hb & _).
    rewrite processInternalTransfer_body_eq in Hb.
    apply bind_inr in Hb as (s1 & prec & He & _).
    exists fromWallet, toWallet, db1, s1, prec. auto.
  - intros (fromWallet & toWallet & db1 & s1 & prec & F & Hc & G & He).
    destruct (updateWalletBalances_returns fromWallet toWallet amount
                (jsub amount (transferFee amount)) prec TxH s1) as (s2 & Hu).
    destruct (recordLegs_total fromUserId (Some toUserId) fromWallet toWallet amount
                (transferFee amount) (jsub amount (transferFee amount)) currency currency
                ("Internal transfer to user " ++ string_of_nat toUserId)
                ("Internal transfer from user " ++ string_of_nat fromUserId)
                COMPLETED ECO ECO TxH s2) as (s3 & pair & Hl).
    exists (working s3). eexists.
    unfold processInternalTransfer.
    unfold bind at 1. unfold wallet_findOne at 1, gets. rewrite F.
    unfold bind at 1. unfold wallet_findOne at 1, gets.
    rewrite (bind_run _ _ _ _ _ Hc). rewrite G.
    unfold bind at 1. unfold sequelize_transaction.
    unfold transferFee, calculateTransferFee in Hu, Hl.
    rewrite processInternalTransfer_body_eq.
    rewrite (bind_run _ _ _ _ _ He). rewrite (bind_run _ _ _ _ _ Hu). rewrite Hl.
    unfold bind, wallet_findOne, gets. reflexivity.
Qed.

(** ** Aggregate balances *)

Lemma find_map_id (g : Wallet -> Wallet) id l :
  (forall w, w_id (g w) = w_id w) ->
  find (has_id id) (map g l) = option_map g (find (has_id id) l).
Proof.
  intros Hg. induction l as [| w l IH]; simpl; [reflexivity |].
  unfold has_id at 1 3. rewrite Hg.
  destruct (Nat.eqb (w_id w) id); [reflexivity | exact IH].
Qed.

Lemma balance_of_update_row id id' f db :
  (forall w, w_id (f w) = w_id w) ->
  balance_of id (update_row id' f db)
  = option_map (fun w => w_balance (if Nat.eqb (w_id w) id' then f w else w))
               (find (has_id id) (wallets db)).
Proof.
  intros Hf. unfold balance_of, update_row. cbn [wallets].
  fold (has_id id). rewrite find_map_id.
  - destruct (find (has_id id) (wallets db)); reflexivity.
  - intros w. destruct (Nat.eqb (w_id w) id'); [apply Hf | reflexivity].
Qed.

Lemma find_has_id id l w : find (has_id id) l = Some w -> w_id w = id.
Proof. intros H. apply find_some in H as [_ H]. apply Nat.eqb_eq. exact H. Qed.

Lemma balance_of_set_other id id' b db :
  id <> id' ->
  balance_of id (update_row id' (set_balance b) db) = balance_of id db.
Proof.
  intros Hne. rewrite balance_of_update_row by reflexivity.
  unfold balance_of. fold (has_id id).
  destruct (find (has_id id) (wallets db)) as [w |] eqn:F; [| reflexivity].
  apply find_has_id in F. simpl.
  destruct (Nat.eqb_spec (w_id w) id') as [E | E]; [| reflexivity].
  exfalso. apply Hne. rewrite <- F. exact E.
Qed.

Lemma balance_of_set_same id b db :
  balance_of id db <> None ->
  balance_of id (update_row id (set_balance b) db) = Some b.
Proof.
  intros Hex. rewrite balance_of_update_row by reflexivity.
  unfold balance_of in Hex. fold (has_id id) in Hex.
  destruct (find (has_id id) (wallets db)) as [w |] eqn:F;
    [| exfalso; apply Hex; reflexivity].
  apply find_has_id in F. simpl. rewrite F, Nat.eqb_refl. reflexivity.
Qed.

Lemma balance_of_set_address id id' a db :
  balance_of id (update_row id' (set_address a) db) = balance_of id db.
Proof.
  rewrite balance_of_update_row by reflexivity.
  unfold balance_of. fold (has_id id).
  destruct (find (has_id id) (wallets db)) as [w |]; [| reflexivity].
  simpl. destruct (Nat.eqb (w_id w) id'); reflexivity.
Qed.

Lemma balance_of_wallets id db db' :
  wallets db' = wallets db -> balance_of id db' = balance_of id db.
Proof. unfold balance_of. intros ->. reflexivity. Qed.

Lemma find_app_some {A : Type} (f : A -> bool) l l' x :
  find f l = Some x -> find f (l ++ l') = Some x.
Proof.
  induction l as [| a l IH]; simpl; [discriminate |].
  destruct (f a); [auto | exact IH].
Qed.

(** A wallet that exists keeps its balance through wallet resolution. *)
Lemma resolved_balance db db1 id b :
  resolved db db1 -> balance_of id db = Some b -> balance_of id db1 = Some b.
Proof.
  intros (_ & _ & _ & _ & [Hw | (w & Hw & _)]) H; unfold balance_of in *; rewrite Hw.
  - exact H.
  - fold (has_id id) in *.
    destruct (find (has_id id) (wallets db)) as [w0 |] eqn:F; [| discriminate].
    rewrite (find_app_some (has_id id) (wallets db) [w] w0 F). exact H.
Qed.

(** ** PENDING transfers *)

Lemma transferStatusOf_pending transferType fromType toType :
  transferStatusOf transferType fromType toType = PENDING <->
  requiresPrivateLedgerUpdate transferType fromType toType = true.
Proof.
  unfold transferStatusOf.
  destruct (requiresPrivateLedgerUpdate transferType fromType toType);
    split; congruence.
Qed.

Lemma pending_body transferType fromWallet toWallet parsedAmount fromCurrency toCurrency
    userId clientId fromType toType currencyData t s s' pair :
  transferStatusOf transferType fromType toType = PENDING ->
  performTransaction_body transferType fromWallet toWallet parsedAmount fromCurrency
    toCurrency userId clientId fromType toType currencyData t s = (s', inr pair) ->
  wallets (working s')
  = wallets (update_row (w_id fromWallet)
               (set_balance (calculateNewBalance (w_balance fromWallet)
                               (jneg parsedAmount) currencyData))
               (working s)) /\
  ledger (working s') = ledger (working s).
Proof.
  intros Hs. rewrite performTransaction_body_eq. intros H.
  apply bind_inr in H as (s1 & [] & Hm & H).
  apply recordLegs_spec in H as (_ & _ & Hw & _). rewrite Hw. cbn [wallets ledger].
  unfold mutateStep in Hm. rewrite Hs in Hm.
  apply transferStatusOf_pending in Hs. rewrite Hs in Hm. cbn [negb] in Hm.
  unfold handlePendingTransfer in Hm.
  apply bind_inr in Hm as (s2 & [] & Hb & Hm).
  inversion Hm; subst s2. clear Hm.
  unfold wallet_update_balance, dbWrite, modify in Hb. inversion Hb; subst s1.
  split; reflexivity.
Qed.

(** C6.  When the resolved status of a transfer is PENDING, the transfer
    changes one thing in the wallet table: the aggregate balance of the
    source wallet, which becomes the old balance minus the gross amount at
    the currency precision.  Every other wallet, the destination included,
    keeps its balance, and no address map and no ledger row changes. *)
Theorem pending_transfer_debits_source_only (data : Handler) (db db' : Db)
    (r : TransferResponse) :
  createTransfer data db = (db', inr r) ->
  transferStatusOf (transferType (body data)) (fromType (body data))
                   (toType (body data)) = PENDING ->
  let source := tx_fromWallet (r_fromTransfer r) in
  let destination := tx_toWallet (r_fromTransfer r) in
  exists (fromWallet : Wallet) (currencyData : CurrencyData) (db1 : Db),
    In fromWallet (wallets db) /\ w_id fromWallet = source /\
    getCurrencyData (fromType (body data)) (fromCurrency (body data))
    = Some currencyData /\
    resolved db db1 /\
    wallets db'
    = map (fun w => if Nat.eqb (w_id w) source
                    then set_balance
                           (calculateNewBalance (w_balance fromWallet)
                              (jneg (amount (body data))) currencyData) w
                    else w)
          (wallets db1) /\
    ledger db' = ledger db /\
    balance_of source db'
    = Some (calculateNewBalance (w_balance fromWallet) (jneg (amount (body data)))
                                currencyData) /\
    (forall id, id <> source -> balance_of id db' = balance_of id db1) /\
    (forall id b, id <> source -> balance_of id db = Some b ->
                  balance_of id db' = Some b) /\
    (destination <> source ->
     balance_of destination db' = balance_of destination db1).
Proof.
  intros H Hs.
  apply createTransfer_inr in H
    as [userId fromWallet toWallet toUser db1 cd pair _ _ _ Hf Hr _ Hc Hp ->].
  apply resolveDestination_resolved in Hr.
  apply performTransaction_inr in Hp as (_ & s' & Hb & ->).
  pose proof Hb as Hb'.
  apply performTransaction_body_records in Hb' as (Hout & _).
  apply pending_body in Hb as (Hw & Hl); [| exact Hs].
  cbn [working] in *. cbv zeta. cbn [r_fromTransfer].
  rewrite Hout. unfold outgoingLeg. cbn [tx_fromWallet tx_toWallet].
  apply wallet_findOne_some in Hf as (Hin & _).
  assert (Hfw : forall id, id <> w_id fromWallet ->
                           balance_of id (working s') = balance_of id db1).
  { intros id Hne.
    rewrite (balance_of_wallets id _ _ Hw). apply balance_of_set_other. exact Hne. }
  exists fromWallet, cd, db1.
  split; [exact Hin |]. split; [reflexivity |]. split; [exact Hc |].
  split; [exact Hr |]. split; [exact Hw |].
  split; [destruct Hr as (_ & Hl1 & _); congruence |].
  split.
  { rewrite (balance_of_wallets _ _ _ Hw). apply balance_of_set_same.
    assert (Hex : exists b, balance_of (w_id fromWallet) db = Some b).
    { unfold balance_of. fold (has_id (w_id fromWallet)).
      destruct (find (has_id (w_id fromWallet)) (wallets db)) as [w |] eqn:F.
      - eexists; reflexivity.
      - exfalso. apply (find_none _ _ F) in Hin. unfold has_id in Hin.
        rewrite Nat.eqb_refl in Hin. discriminate. }
    destruct Hex as [b Hb]. rewrite (resolved_balance db db1 _ b Hr Hb).
    discriminate. }
  split; [exact Hfw |].
  split.
  { intros id b Hne Hb. rewrite Hfw by exact Hne.
    eapply resolved_balance; eauto. }
  intros Hne. apply Hfw. exact Hne.
Qed.

(** ** COMPLETED transfers *)

Lemma balance_of_balances id db :
  balance_of id db
  = option_map snd (find (fun p => Nat.eqb (fst p) id) (balances db)).
Proof.
  unfold balance_of, balances.
  induction (wallets db) as [| w l IH]; simpl; [reflexivity |].
  destruct (Nat.eqb (w_id w) id); [reflexivity | exact IH].
Qed.

Lemma balances_set_balance id b db :
  balances (update_row id (set_balance b) db)
  = map (fun p => if Nat.eqb (fst p) id then (fst p, b) else p) (balances db).
Proof.
  unfold balances, update_row. cbn [wallets]. rewrite !map_map.
  apply map_ext. intros w. simpl. destruct (Nat.eqb (w_id w) id); reflexivity.
Qed.

Lemma balances_set_address id a db :
  balances (update_row id (set_address a) db) = balances db.
Proof.
  unfold balances, update_row. cbn [wallets]. rewrite map_map.
  apply map_ext. intros w. destruct (Nat.eqb (w_id w) id); reflexivity.
Qed.

Lemma working_balances_ledger walletId index currency chain amount t :
  keeps working_balances (updatePrivateLedger walletId index currency chain amount t).
Proof. apply (keeps_dbWrite_working balances). reflexivity. Qed.

Lemma working_balances_address wallet a t :
  keeps working_balances (wallet_update_address wallet a t).
Proof. apply (keeps_dbWrite_working balances). intros db. apply balances_set_address. Qed.

Lemma updateWalletBalances_balances fromWallet toWallet debit credit prec t s s' r :
  updateWalletBalances fromWallet toWallet debit credit prec t s = (s', r) ->
  working_balances s'
  = credited fromWallet toWallet debit credit prec (working_balances s).
Proof.
  unfold updateWalletBalances, wallet_update_balance, dbWrite, modify, bind.
  intros H. inversion H; subst. unfold working_balances, credited. cbn [working].
  rewrite !balances_set_balance. reflexivity.
Qed.

Lemma recordLegs_balances payer receiver fromWallet toWallet gross fee received
    fromCurrency toCurrency dOut dIn status fromType toType t s s' pair :
  recordLegs payer receiver fromWallet toWallet gross fee received fromCurrency
    toCurrency dOut dIn status fromType toType t s = (s', inr pair) ->
  working_balances s' = working_balances s.
Proof.
  intros H. apply recordLegs_spec in H as (_ & _ & Hw & _).
  unfold working_balances. rewrite Hw. reflexivity.
Qed.

Lemma lookup_map (g : nat * jsnum -> nat * jsnum) id bs :
  (forall p, fst (g p) = fst p) ->
  lookup id (map g bs)
  = option_map (fun p => snd (g p)) (find (fun p => Nat.eqb (fst p) id) bs).
Proof.
  intros Hg. unfold lookup.
  induction bs as [| p bs IH]; simpl; [reflexivity |].
  rewrite Hg. destruct (Nat.eqb (fst p) id); [reflexivity | exact IH].
Qed.

Lemma lookup_some id bs b :
  lookup id bs = Some b ->
  exists p, find (fun p => Nat.eqb (fst p) id) bs = Some p /\ fst p = id /\ snd p = b.
Proof.
  unfold lookup. destruct (find _ bs) as [p |] eqn:F; simpl; [| discriminate].
  intros H. inversion H; subst. exists p. split; [reflexivity |].
  apply find_some in F as [_ F]. apply Nat.eqb_eq in F. auto.
Qed.

Lemma credited_eq fromWallet toWallet debit credit prec bs :
  credited fromWallet toWallet debit credit prec bs
  = map (fun p =>
           if Nat.eqb (fst p) (w_id toWallet)
           then (fst p, roundTo prec (decimal_add (w_balance toWallet) credit))
           else if Nat.eqb (fst p) (w_id fromWallet)
                then (fst p, roundTo prec (decimal_sub (w_balance fromWallet) debit))
                else p) bs.
Proof.
  unfold credited. rewrite map_map. apply map_ext. intros p.
  destruct (Nat.eqb (fst p) (w_id fromWallet)); reflexivity.
Qed.

Lemma credited_source fromWallet toWallet debit credit prec bs b0 :
  w_id toWallet <> w_id fromWallet ->
  lookup (w_id fromWallet) bs = Some b0 ->
  lookup (w_id fromWallet) (credited fromWallet toWallet debit credit prec bs)
  = Some (roundTo prec (decimal_sub (w_balance fromWallet) debit)).
Proof.
  intros Hne Hl. rewrite credited_eq, lookup_map.
  - apply lookup_some in Hl as (p & F & Hp & _). rewrite F. simpl. rewrite Hp.
    destruct (Nat.eqb_spec (w_id fromWallet) (w_id toWallet)); [congruence |].
    rewrite Nat.eqb_refl. reflexivity.
  - intros p. destruct (Nat.eqb _ _); [reflexivity |].
    destruct (Nat.eqb _ _); reflexivity.
Qed.

Lemma credited_destination fromWallet toWallet debit credit prec bs b0 :
  lookup (w_id toWallet) bs = Some b0 ->
  lookup (w_id toWallet) (credited fromWallet toWallet debit credit prec bs)
  = Some (roundTo prec (decimal_add (w_balance toWallet) credit)).
Proof.
  intros Hl. rewrite credited_eq, lookup_map.
  - apply lookup_some in Hl as (p & F & Hp & _). rewrite F. simpl. rewrite Hp.
    rewrite Nat.eqb_refl. reflexivity.
  - intros p. destruct (Nat.eqb _ _); [reflexivity |].
    destruct (Nat.eqb _ _); reflexivity.
Qed.

Lemma credited_other fromWallet toWallet debit credit prec bs id :
  id <> w_id fromWallet -> id <> w_id toWallet ->
  lookup id (credited fromWallet toWallet debit credit prec bs) = lookup id bs.
Proof.
  intros Hf Ht. rewrite credited_eq, lookup_map.
  - unfold lookup. destruct (find _ bs) as [p |] eqn:F; [| reflexivity].
    apply find_some in F as [_ F]. apply Nat.eqb_eq in F. simpl. rewrite F.
    destruct (Nat.eqb_spec id (w_id toWallet)); [congruence |].
    destruct (Nat.eqb_spec id (w_id fromWallet)); [congruence | reflexivity].
  - intros p. destruct (Nat.eqb _ _); [reflexivity |].
    destruct (Nat.eqb _ _); reflexivity.
Qed.

Lemma ecoPart_balances fromWallet toWallet parsedAmount fromCurrency t :
  keeps working_balances
    (if WalletType_eqb (w_type fromWallet) ECO && WalletType_eqb (w_type toWallet) ECO
     then
       deductionDetails <- deductFromEcoWallet fromWallet parsedAmount fromCurrency t ;;
       addToEcoWallet toWallet deductionDetails fromCurrency t
     else ret tt).
Proof.
  destruct (_ && _); [| apply keeps_ret].
  apply keeps_bind.
  - apply deductFromEcoWallet_keeps;
      auto using working_balances_ledger, working_balances_address.
  - intros ds. apply addToEcoWallet_keeps;
      auto using working_balances_ledger, working_balances_address.
Qed.

Lemma complete_body_balances transferType fromWallet toWallet parsedAmount
    fromCurrency toCurrency userId clientId fromType toType currencyData t s s' pair :
  transferStatusOf transferType fromType toType = COMPLETED ->
  WalletType_eqb fromType ECO && isClient transferType = false ->
  performTransaction_body transferType fromWallet toWallet parsedAmount fromCurrency
    toCurrency userId clientId fromType toType currencyData t s = (s', inr pair) ->
  working_balances s'
  = credited fromWallet toWallet parsedAmount
      (jsub parsedAmount (transferFee parsedAmount)) (precision currencyData)
      (working_balances s).
Proof.
  intros Hs Hk. rewrite performTransaction_body_eq. intros H.
  apply bind_inr in H as (s1 & [] & Hm & H).
  apply recordLegs_balances in H. rewrite H. clear H.
  unfold mutateStep in Hm.
  assert (Hp : requiresPrivateLedgerUpdate transferType fromType toType = false).
  { unfold transferStatusOf in Hs.
    destruct (requiresPrivateLedgerUpdate transferType fromType toType);
      [discriminate | reflexivity]. }
  rewrite Hp in Hm. cbn [negb] in Hm.
  unfold handleCompleteTransfer in Hm. rewrite Hk in Hm.
  unfold handleNonClientTransfer in Hm.
  apply bind_inr in Hm as (s2 & [] & He & Hm).
  apply updateWalletBalances_balances in Hm. rewrite Hm. f_equal.
  eapply ecoPart_balances. exact He.
Qed.

(** ** Rounding *)

Lemma pow10_pos p : (0 < pow10 p)%Z.
Proof. unfold pow10. apply Z.pow_pos_nonneg; lia. Qed.

Lemma Qfloor_half z : Qfloor (inject_Z z + (1 # 2)) = z.
Proof.
  unfold Qfloor, Qplus, inject_Z. simpl.
  replace (z * 2 + 1)%Z with (1 + z * 2)%Z by lia.
  rewrite Z.div_add by lia. reflexivity.
Qed.

Lemma roundTo_exact p x :
  decimal_places p x -> exists y, roundTo p (Num x) = Num y /\ y == x.
Proof.
  intros [z Hz]. unfold roundTo. eexists. split; [reflexivity |].
  assert (Hp : ~ inject_Z (pow10 p) == 0).
  { pose proof (pow10_pos p). unfold Qeq, inject_Z. simpl. lia. }
  assert (E : x * inject_Z (pow10 p) + (1 # 2) == inject_Z z + (1 # 2)).
  { rewrite Hz. field. exact Hp. }
  rewrite (Qfloor_comp _ _ E), Qfloor_half. symmetry. exact Hz.
Qed.

Lemma orZero_num v : exists f, orZero v = Num f.
Proof.
  unfold orZero. destruct v as [[| x] |]; simpl; try (eexists; reflexivity).
  destruct (negb (Qeq_bool x 0)); eexists; reflexivity.
Qed.

(** ** Unique wallet ids *)

Lemma fresh_id_notin ids : ~ In (fresh_id ids) ids.
Proof.
  intros H. unfold fresh_id in H.
  assert (F : Forall (fun k => (k <= list_max ids)%nat) ids)
    by (apply list_max_le; apply Nat.le_refl).
  rewrite Forall_forall in F. apply F in H. lia.
Qed.

Lemma resolved_NoDup db db1 :
  resolved db db1 -> NoDup (map w_id (wallets db)) -> NoDup (map w_id (wallets db1)).
Proof.
  intros (_ & _ & _ & _ & [Hw | (w & Hw & _ & Hid)]) Hn; rewrite Hw; [exact Hn |].
  rewrite map_app. simpl.
  apply NoDup_app; [exact Hn | repeat constructor; intros [] | ].
  intros x Hx [<- | []]. rewrite Hid in Hx. apply (fresh_id_notin _ Hx).
Qed.

Lemma NoDup_lookup l w :
  NoDup (map w_id l) -> In w l ->
  lookup (w_id w) (map (fun w => (w_id w, w_balance w)) l) = Some (w_balance w).
Proof.
  unfold lookup. induction l as [| a l IH]; simpl; [intros _ [] |].
  intros Hn [-> | Hin].
  - rewrite Nat.eqb_refl. reflexivity.
  - inversion Hn as [| ? ? Hna Hn']; subst.
    destruct (Nat.eqb_spec (w_id a) (w_id w)) as [E | _].
    + exfalso. apply Hna. rewrite E. apply in_map. exact Hin.
    + apply IH; assumption.
Qed.

Lemma resolved_In db db1 w : resolved db db1 -> In w (wallets db) -> In w (wallets db1).
Proof.
  intros (_ & _ & _ & _ & [Hw | (w' & Hw & _)]) Hin; rewrite Hw;
    [exact Hin | apply in_or_app; left; exact Hin].
Qed.

Lemma find_or_create_In userId currency type db db1 w :
  bind (wallet_findOne userId currency type)
       (fun found => match found with
                     | Some w => ret w
                     | None => wallet_create userId currency type
                     end) db = (db1, inr w) ->
  In w (wallets db1).
Proof.
  unfold bind, wallet_findOne, gets.
  destruct (find _ _) as [w0 |] eqn:F.
  - intros H. inversion H; subst. apply find_some in F. tauto.
  - unfold wallet_create. intros H. inversion H; subst. simpl.
    apply in_or_app. right. left. reflexivity.
Qed.

Lemma resolveDestination_In userId b db db1 toWallet toUser :
  WalletType_eqb (fromType b) ECO && isClient (transferType b) = false ->
  resolveDestination userId b db = (db1, inr (toWallet, toUser)) ->
  In toWallet (wallets db1).
Proof.
  intros Hk. unfold resolveDestination.
  destruct (isClient (transferType b)) eqn:Hc.
  - rewrite andb_true_r in Hk.
    unfold handleClientTransfer, bind, user_findByPk, wallet_findOne, gets,
      wallet_create.
    destruct (clientId b) as [cid |]; [| discriminate].
    destruct (find (Nat.eqb cid) (users db)); [| discriminate].
    rewrite Hk.
    destruct (find (wallet_matches cid (fromCurrency b) (fromType b)) (wallets db))
      as [w0 |] eqn:F; cbn [ret]; intros H; inversion H; subst.
    + apply find_some in F. tauto.
    + cbn [wallets]. apply in_or_app. right. left. reflexivity.
  - intros H. apply bind_inr in H as (d & w & H & Hr). inversion Hr; subst. clear Hr.
    unfold handleWalletTransfer in H.
    destruct (WalletType_eqb (fromType b) (toType b)); [discriminate |].
    destruct (validTransfers (fromType b)); [| discriminate].
    destruct (negb _); [discriminate |].
    eapply find_or_create_In. exact H.
Qed.

(** ** Source debited, destination credited *)

Lemma balances_moved before after fromWallet toWallet gross net prec :
  NoDup (map w_id (wallets before)) ->
  In fromWallet (wallets before) -> In toWallet (wallets before) ->
  w_id toWallet <> w_id fromWallet ->
  balances after = credited fromWallet toWallet gross net prec (balances before) ->
  BalancesMoved before after (w_id fromWallet) (w_id toWallet) gross net prec.
Proof.
  intros Hn Hf Ht Hne Hb.
  pose proof (NoDup_lookup _ _ Hn Hf) as Lf.
  pose proof (NoDup_lookup _ _ Hn Ht) as Lt.
  fold (balances before) in Lf, Lt.
  assert (Bf : balance_of (w_id fromWallet) before = Some (w_balance fromWallet)).
  { rewrite balance_of_balances. exact Lf. }
  assert (Bt : balance_of (w_id toWallet) before = Some (w_balance toWallet)).
  { rewrite balance_of_balances. exact Lt. }
  assert (Af : balance_of (w_id fromWallet) after
               = Some (roundTo prec (decimal_sub (w_balance fromWallet) gross))).
  { rewrite balance_of_balances, Hb. eapply credited_source; eauto. }
  assert (At : balance_of (w_id toWallet) after
               = Some (roundTo prec (decimal_add (w_balance toWallet) net))).
  { rewrite balance_of_balances, Hb. eapply credited_destination; eauto. }
  exists (w_balance fromWallet), (w_balance toWallet).
  repeat (split; [assumption |]).
  split.
  { intros id H1 H2. rewrite !balance_of_balances, Hb.
    apply credited_other; assumption. }
  split.
  - intros sb a Hs Ha Hd. rewrite Af, Hs, Ha. cbn [decimal_sub].
    destruct (roundTo_exact _ _ Hd) as (y & -> & Hy).
    exists y. split; [reflexivity |]. rewrite Hy. ring.
  - intros d n Hs Hnn Hd. rewrite At, Hs, Hnn. cbn [decimal_add].
    destruct (roundTo_exact _ _ Hd) as (y & -> & Hy).
    exists y. split; [reflexivity |]. rewrite Hy. ring.
Qed.

Lemma internalEcoStep_balances fromWallet toWallet parsedAmount currency t :
  keeps working_balances (internalEcoStep fromWallet toWallet parsedAmount currency t).
Proof.
  unfold internalEcoStep. destruct (_ && _); [| apply keeps_ret].
  apply keeps_bind.
  { apply deductFromEcoWallet_keeps;
      auto using working_balances_ledger, working_balances_address. }
  intros ds. apply keeps_bind.
  { apply addToEcoWallet_keeps;
      auto using working_balances_ledger, working_balances_address. }
  intros _. destruct (getCurrencyData _ _); [apply keeps_ret | apply keeps_throw].
Qed.

(** C1, amended.  A transfer that succeeds with status COMPLETED between
    two distinct wallets, other than a client transfer from an ECO wallet,
    sets the source balance to the old balance minus the gross amount and
    the destination balance to the old balance plus amount minus fee, each
    rounded to the precision of the currency; the source loses exactly the
    amount and the destination gains exactly amount minus fee whenever
    these results have no more decimal places than the precision; no other
    balance moves.  The same holds for [processInternalTransfer], with the
    precision the currency has as an ECO currency. *)
Theorem completed_transfer_balances :
  (forall data db db' r,
     createTransfer data db = (db', inr r) ->
     transferStatusOf (transferType (body data)) (fromType (body data))
                      (toType (body data)) = COMPLETED ->
     WalletType_eqb (fromType (body data)) ECO && isClient (transferType (body data))
     = false ->
     NoDup (map w_id (wallets db)) ->
     tx_toWallet (r_fromTransfer r) <> tx_fromWallet (r_fromTransfer r) ->
     exists currencyData db1,
       getCurrencyData (fromType (body data)) (fromCurrency (body data))
       = Some currencyData /\
       resolved db db1 /\
       BalancesMoved db1 db' (tx_fromWallet (r_fromTransfer r))
         (tx_toWallet (r_fromTransfer r)) (amount (body data))
         (jsub (amount (body data)) (transferFee (amount (body data))))
         (precision currencyData)) /\
  (forall fromUserId toUserId currency chain amount db db' r,
     processInternalTransfer fromUserId toUserId currency chain amount db
     = (db', inr r) ->
     NoDup (map w_id (wallets db)) ->
     tx_toWallet (it_outgoingTransfer r) <> tx_fromWallet (it_outgoingTransfer r) ->
     exists currencyData db1,
       getCurrencyData ECO currency = Some currencyData /\
       resolved db db1 /\
       BalancesMoved db1 db' (tx_fromWallet (it_outgoingTransfer r))
         (tx_toWallet (it_outgoingTransfer r)) amount
         (jsub amount (transferFee amount)) (precision currencyData)).
Proof.
  split.
  - intros data db db' r H Hs Hk Hn Hne.
    apply createTransfer_inr in H
      as [userId fromWallet toWallet toUser db1 cd pair _ _ _ Hf Hr _ Hc Hp ->].
    pose proof (resolveDestination_In _ _ _ _ _ _ Hk Hr) as Hin.
    apply resolveDestination_resolved in Hr.
    apply performTransaction_inr in Hp as (_ & s' & Hb & ->).
    pose proof Hb as Hb'.
    apply performTransaction_body_records in Hb' as (Hout & _).
    apply complete_body_balances in Hb; [| assumption | assumption].
    cbn [r_fromTransfer] in *. rewrite Hout in *. unfold outgoingLeg in *.
    cbn [tx_fromWallet tx_toWallet] in *.
    exists cd, db1. split; [exact Hc |]. split; [exact Hr |].
    apply balances_moved.
    + apply (resolved_NoDup _ _ Hr Hn).
    + apply (resolved_In _ _ _ Hr). apply wallet_findOne_some in Hf. tauto.
    + exact Hin.
    + exact Hne.
    + exact Hb.
  - intros fromUserId toUserId currency chain amount db db' r H Hn Hne.
    unfold processInternalTransfer in H.
    apply bind_inr in H as (d1 & fw & Hw & H).
    unfold wallet_findOne, gets in Hw. inversion Hw; subst d1 fw. clear Hw.
    destruct (find (wallet_matches fromUserId currency ECO) (wallets db))
      as [fromWallet |] eqn:F; [| discriminate].
    apply bind_inr in H as (d1 & found & Hw & H).
    unfold wallet_findOne, gets in Hw. inversion Hw; subst d1 found. clear Hw.
    apply bind_inr in H as (db1 & toWallet & Hc & H).
    assert (Hin : In toWallet (wallets db1)).
    { apply find_or_create_In with (userId := toUserId) (currency := currency)
                                   (type := ECO) (db := db).
      unfold bind, wallet_findOne, gets. exact Hc. }
    assert (Tt : w_type toWallet = ECO).
    { destruct (find (wallet_matches toUserId currency ECO) (wallets db)) eqn:F2.
      - inversion Hc; subst. apply wallet_findOne_some in F2. tauto.
      - unfold wallet_create in Hc. inversion Hc; subst. reflexivity. }
    assert (R : resolved db db1).
    { destruct (find (wallet_matches toUserId currency ECO) (wallets db)).
      - inversion Hc; subst. apply resolved_refl.
      - eapply wallet_create_resolved; eauto. }
    destruct (jlt (w_balance fromWallet) amount) eqn:G; [discriminate |].
    apply bind_inr in H as (db2 & pair & Hp & H).
    apply sequelize_transaction_inr in Hp as (s' & Hb & ->).
    apply bind_inr in H as (db3 & uw & Hu & H).
    unfold wallet_findOne, gets in Hu. inversion Hu; subst db3 uw. clear Hu.
    inversion H; subst db' r. clear H. cbn [it_outgoingTransfer] in *.
    pose proof Hb as Hb'.
    apply processInternalTransfer_body_records in Hb' as (Hout & _).
    rewrite Hout in *. unfold outgoingLeg in *.
    cbn [tx_fromWallet tx_toWallet] in *.
    rewrite processInternalTransfer_body_eq in Hb.
    apply bind_inr in Hb as (s1 & prec & H1 & Hb).
    apply bind_inr in Hb as (s2 & [] & H2 & Hb).
    assert (P : exists currencyData,
              getCurrencyData ECO currency = Some currencyData /\
              prec = precision currencyData).
    { pose proof (wallet_findOne_some _ _ _ _ _ F) as (_ & _ & Fc & Ft).
      revert H1. unfold internalEcoStep. rewrite Ft, Tt, Fc.
      cbn [WalletType_eqb andb]. intros H1.
      apply bind_inr in H1 as (sd & ds & _ & H1).
      apply bind_inr in H1 as (sa & [] & _ & H1).
      destruct (getCurrencyData ECO currency) as [cd |]; [| discriminate].
      inversion H1; subst. exists cd. split; reflexivity. }
    destruct P as (cd & Hcd & ->).
    apply internalEcoStep_balances in H1.
    apply updateWalletBalances_balances in H2.
    apply recordLegs_balances in Hb.
    exists cd, db1. split; [exact Hcd |]. split; [exact R |].
    apply balances_moved.
    + apply (resolved_NoDup _ _ R Hn).
    + apply (resolved_In _ _ _ R). apply wallet_findOne_some in F. tauto.
    + exact Hin.
    + exact Hne.
    + unfold working_balances in *. cbn [working] in *.
      rewrite Hb, H2, H1. reflexivity.
Qed.

(** ** The per-chain deduction *)

Lemma Qle_bool_false x y : Qle_bool x y = false -> y < x.
Proof.
  intros H. apply Qnot_le_lt. intros Hle. apply Qle_bool_iff in Hle. congruence.
Qed.

Lemma Qlt_bool_true x y : Qlt_bool x y = true -> x < y.
Proof.
  unfold Qlt_bool. intros H. apply negb_true_iff in H. apply Qle_bool_false. exact H.
Qed.

Lemma Qlt_bool_false x y : Qlt_bool x y = false -> y <= x.
Proof.
  unfold Qlt_bool. intros H. apply negb_false_iff in H. apply Qle_bool_iff. exact H.
Qed.

(** Rounding to a double keeps the sign. *)
Lemma pow2_pos k : 0 < pow2 k.
Proof.
  unfold pow2. destruct (0 <=? k)%Z eqn:E.
  - apply Z.leb_le in E. pose proof (Z.pow_pos_nonneg 2 k ltac:(lia) E) as Hp.
    unfold Qlt. simpl. lia.
  - apply Z.leb_gt in E. apply Qinv_lt_0_compat.
    pose proof (Z.pow_pos_nonneg 2 (- k) ltac:(lia) ltac:(lia)) as Hp.
    unfold Qlt. simpl. lia.
Qed.

Lemma roundHalfEven_nonneg x : 0 <= x -> (0 <= roundHalfEven x)%Z.
Proof.
  intros Hx. pose proof (Qfloor_resp_le _ _ Hx) as Hf.
  change (Qfloor 0) with 0%Z in Hf. unfold roundHalfEven.
  destruct (Qcompare _ _); [destruct (Z.even _) | |]; lia.
Qed.

Lemma roundMagnitude_nonneg x : 0 <= x -> 0 <= roundMagnitude x.
Proof.
  intros Hx. unfold roundMagnitude.
  set (e := Z.max (floorLog2 x - 52) (-1074)).
  pose proof (pow2_pos e) as Hp.
  apply Qmult_le_0_compat; [| apply Qlt_le_weak; exact Hp].
  assert (Hq : 0 <= x / pow2 e).
  { apply Qle_shift_div_l; [exact Hp |]. rewrite Qmult_0_l. exact Hx. }
  apply roundHalfEven_nonneg in Hq. unfold Qle. simpl. lia.
Qed.

Lemma rnd_nonneg x : 0 <= x -> 0 <= rnd x.
Proof.
  intros Hx. unfold rnd. destruct (Qcompare x 0) eqn:E.
  - apply Qle_refl.
  - apply Qlt_alt in E. exfalso. apply (Qlt_not_le _ _ E). exact Hx.
  - rewrite Qred_correct. apply roundMagnitude_nonneg. exact Hx.
Qed.

Lemma rnd_zero x : x == 0 -> rnd x = 0.
Proof. intros Hx. apply Qeq_alt in Hx. unfold rnd. rewrite Hx. reflexivity. Qed.

Lemma jmin_num b r :
  exists x, jmin (Num b) (Num r) = Num x /\ x <= r /\ x <= b /\ (0 <= r -> 0 < b -> 0 <= x).
Proof.
  unfold jmin. destruct (Qle_bool b r) eqn:E.
  - apply Qle_bool_iff in E. exists b. repeat split; intros; lra.
  - apply Qle_bool_false in E. exists r. repeat split; intros; lra.
Qed.

Lemma Deducted_refl l : Forall2 Deducted l l.
Proof. induction l; constructor; [split; auto | assumption]. Qed.

Lemma Deducted_take chain info b x :
  ci_balance info = Num b -> x <= b ->
  Deducted (chain, info) (chain, with_balance (Num (rnd (b - x))) info).
Proof.
  intros B Hx. split; [reflexivity |]. right. exists x. cbn [snd].
  rewrite B. cbn [jle jsub jzero with_balance ci_balance].
  split; [apply Qle_bool_iff; exact Hx |]. split; [reflexivity |].
  apply Qle_bool_iff. apply rnd_nonneg. lra.
Qed.

Lemma appendLedger_nil db : appendLedger [] db = db.
Proof. destruct db. unfold appendLedger. simpl. rewrite app_nil_r. reflexivity. Qed.

Lemma appendLedger_app rows rows' db :
  appendLedger rows' (appendLedger rows db) = appendLedger (rows ++ rows') db.
Proof. unfold appendLedger. simpl. rewrite app_assoc. reflexivity. Qed.

Lemma Contributions_nil entries requested : Contributions entries requested [].
Proof. intros [| d0 before] d after H; discriminate. Qed.

Lemma Contributions_skip e entries requested details :
  Contributions entries requested details ->
  Contributions (e :: entries) requested details.
Proof.
  intros H before d after E. destruct (H before d after E) as (info & Hin & Hr).
  exists info. split; [right; exact Hin | exact Hr].
Qed.

Lemma Contributions_take chain info entries requested x details :
  jmin (ci_balance info) requested = x ->
  Contributions entries (jsub requested x) details ->
  Contributions ((chain, info) :: entries) requested (mkDetail chain x :: details).
Proof.
  intros Hx H before d after E. destruct before as [| d0 before].
  - inversion E; subst. exists info.
    split; [left; reflexivity | reflexivity].
  - inversion E; subst.
    destruct (H before d after eq_refl) as (info' & Hin & Hd).
    exists info'. split; [right; exact Hin | exact Hd].
Qed.

Lemma deductLoop_spec walletId currency entries :
  forall r s s' entries' details remaining,
    0 <= r ->
    deductLoop walletId currency entries (Num r) s
    = (s', inr (entries', details, remaining)) ->
    exists r',
      remaining = Num r' /\ 0 <= r' /\
      Forall (fun d => is_num (d_amount d)) details /\
      remainingAfter (Num r) details = remaining /\
      Contributions entries (Num r) details /\
      Forall2 Deducted entries entries' /\
      working s' = appendLedger (map (debitEntry walletId currency) details) (working s) /\
      committed s'
      = appendLedger (map (debitEntry walletId currency) details) (committed s).
Proof.
  induction entries as [| [chain info] rest IH]; intros r s s' entries' details remaining
    Hr H; cbn [deductLoop] in H.
  - inversion H; subst. exists r. simpl. rewrite !appendLedger_nil.
    repeat split; auto using Contributions_nil; constructor.
  - destruct (jgt (ci_balance info) jzero) eqn:G.
    + destruct (ci_balance info) as [| b] eqn:B; [discriminate |].
      apply Qlt_bool_true in G.
      destruct (jmin_num b r) as (x & Hx & Hxr & Hxb & Hx0).
      rewrite Hx in H. cbn [jsub jneg] in H.
      apply bind_inr in H as (s1 & [] & Hl & H).
      unfold updatePrivateLedger, dbWrite, modify in Hl. inversion Hl; subst s1.
      clear Hl. cbn [jle jzero] in H.
      assert (Hr' : 0 <= rnd (r - x)) by (apply rnd_nonneg; lra).
      destruct (Qle_bool (rnd (r - x)) 0) eqn:E.
      * inversion H; subst. clear H. exists (rnd (r - x)).
        split; [reflexivity |]. split; [exact Hr' |].
        split; [repeat constructor |].
        split; [reflexivity |].
        split.
        { apply Contributions_take; [rewrite B; exact Hx | apply Contributions_nil]. }
        split.
        { constructor; [| apply Deducted_refl]. apply Deducted_take; assumption. }
        split; reflexivity.
      * apply bind_inr in H as (s2 & [[rest' ds] rem'] & Hrec & H).
        inversion H; subst. clear H.
        apply IH in Hrec as (r' & -> & Hr'' & Hnum & Hrem & Hc & Hd & Hw & Hcm);
          [| exact Hr'].
        exists r'. split; [reflexivity |]. split; [exact Hr'' |].
        split; [constructor; [exact I | exact Hnum] |].
        split; [exact Hrem |].
        split; [apply Contributions_take; [rewrite B; exact Hx | exact Hc] |].
        split.
        { constructor; [| exact Hd]. apply Deducted_take; assumption. }
        rewrite Hw, Hcm. cbn [working committed].
        split; unfold appendLedger; simpl; rewrite <- app_assoc; reflexivity.
    + apply bind_inr in H as (s2 & [[rest' ds] rem'] & Hrec & H).
      inversion H; subst. clear H.
      apply IH in Hrec as (r' & -> & Hr' & Hnum & Hrem & Hc & Hd & Hw & Hcm);
        [| exact Hr].
      exists r'. repeat (split; [assumption || reflexivity |]).
      split; [apply Contributions_skip; exact Hc |].
      split; [constructor; [split; auto | exact Hd] |].
      split; assumption.
Qed.

Lemma creditChain_inr {S : Type} addresses chain init amount (s s' : S) v :
  creditChain addresses chain init amount s = (s', inr v) -> s' = s.
Proof.
  unfold creditChain.
  destruct addresses; try destruct (inheritedMember _ _);
    intros H; inversion H; reflexivity.
Qed.

Lemma assignChain_inr {S : Type} toAddresses chain init amount (s s' : S) v :
  assignChain toAddresses chain init amount s = (s', inr v) -> s' = s.
Proof.
  unfold assignChain. destruct toAddresses; intros H; inversion H; reflexivity.
Qed.


Lemma jgt_zero_false r : 0 <= r -> jgt (Num r) jzero = false -> r == 0.
Proof.
  intros Hr H. unfold jgt, jlt, jzero in H. apply Qlt_bool_false in H. lra.
Qed.

Lemma deductFromEcoWallet_inr wallet amount currency t s s' details :
  deductFromEcoWallet wallet amount currency t s = (s', inr details) ->
  exists addresses s1 entries' remaining,
    parseAddresses (w_address wallet) = Returned addresses /\
    shadowsHasOwnProperty addresses = false /\
    deductLoop (w_id wallet) currency (entries_of addresses) amount s
    = (s1, inr (entries', details, remaining)) /\
    jgt remaining jzero = false /\
    s' = mkTxState (committed s1)
           (update_row (w_id wallet)
              (set_address (JsString (JSON_stringify (with_entries addresses entries'))))
              (working s1)).
Proof.
  intros H. unfold deductFromEcoWallet in H.
  apply bind_inr in H as (s0 & addresses & Hp & H).
  destruct (lift_parseAddresses (w_address wallet) s) as (v & Hv & Hl).
  rewrite Hl in Hp. inversion Hp; subst s0 addresses. clear Hp Hl.
  apply bind_inr in H as (s1 & [[entries' ds] rem] & Hloop & H).
  destruct (shadowsHasOwnProperty v) eqn:Hs; [discriminate |].
  destruct (jgt rem jzero) eqn:G; [discriminate |].
  apply bind_inr in H as (s2 & [] & Hu & H).
  inversion H; subst s2 ds. clear H.
  unfold wallet_update_address, dbWrite, modify in Hu. inversion Hu; subst s'.
  exists v, s1, entries', rem. repeat split; assumption.
Qed.


Lemma deductLoop_returns walletId currency entries :
  forall remainingAmount s,
    exists s' result, deductLoop walletId currency entries remainingAmount s
                      = (s', inr result).
Proof.
  induction entries as [| [chain info] rest IH]; intros remainingAmount s;
    cbn [deductLoop].
  - eexists; eexists; reflexivity.
  - destruct (jgt (ci_balance info) jzero).
    + unfold bind at 1. unfold updatePrivateLedger, dbWrite, modify.
      destruct (jle _ jzero); [eexists; eexists; reflexivity |].
      unfold bind.
      match goal with
      | |- context [deductLoop walletId currency rest ?r0 ?s0] =>
          destruct (IH r0 s0) as (s1 & [[e' ds] rem] & E)
      end.
      rewrite E. eexists; eexists; reflexivity.
    + unfold bind. destruct (IH remainingAmount s) as (s1 & [[e' ds] rem] & E).
      rewrite E. eexists; eexists; reflexivity.
Qed.

(** ** Where errors come from *)

Lemma raises_ret {S A : Type} P (a : A) : raises P (@ret S A a).
Proof. intros s s' e H. discriminate. Qed.

Lemma raises_gets {S A : Type} P (g : S -> A) : raises P (gets g).
Proof. intros s s' e H. discriminate. Qed.

Lemma raises_throw {S A : Type} (P : HttpError -> Prop) e :
  P e -> raises P (@throw S A e).
Proof. intros Hp s s' e' H. inversion H; subst. exact Hp. Qed.

Lemma raises_bind {S A B : Type} P (c : M S A) (k : A -> M S B) :
  raises P c -> (forall a, raises P (k a)) -> raises P (bind c k).
Proof.
  intros Hc Hk s s' e H. apply bind_inl in H as [H | (s1 & a & _ & H)].
  - eapply Hc; eauto.
  - eapply Hk; eauto.
Qed.

Lemma raises_bind_post {S A B : Type} P (Q : A -> Prop) (c : M S A) (k : A -> M S B) :
  raises P c -> (forall s s' a, c s = (s', inr a) -> Q a) ->
  (forall a, Q a -> raises P (k a)) -> raises P (bind c k).
Proof.
  intros Hc Hq Hk s s' e H. apply bind_inl in H as [H | (s1 & a & Ha & H)].
  - eapply Hc; eauto.
  - eapply Hk; eauto.
Qed.

Lemma raises_lift_outcome {S A : Type} (o : Outcome SyntaxError A) :
  raises notAmountError (@lift_outcome S A o).
Proof.
  destruct o; [apply raises_throw; reflexivity | apply raises_ret].
Qed.

Lemma raises_dbWrite P t upd : raises P (dbWrite t upd).
Proof. intros s s' e H. discriminate. Qed.

Lemma raises_creditChain {S : Type} addresses chain init amount :
  raises notAmountError (@creditChain S addresses chain init amount).
Proof.
  unfold creditChain.
  destruct addresses; try destruct (inheritedMember _ _);
    try (apply raises_throw; reflexivity); apply raises_ret.
Qed.

Lemma raises_assignChain {S : Type} toAddresses chain init amount :
  raises notAmountError (@assignChain S toAddresses chain init amount).
Proof.
  unfold assignChain.
  destruct toAddresses; try (apply raises_throw; reflexivity); apply raises_ret.
Qed.

Lemma deductLoop_NaN walletId currency entries :
  forall s s' r, deductLoop walletId currency entries NaN s = (s', r) ->
                 exists entries' details, r = inr (entries', details, NaN).
Proof.
  induction entries as [| [chain info] rest IH]; intros s s' r H;
    cbn [deductLoop] in H.
  - inversion H; subst. eauto.
  - destruct (jgt (ci_balance info) jzero).
    + replace (jmin (ci_balance info) NaN) with NaN in H
        by (destruct (ci_balance info); reflexivity).
      replace (jsub NaN NaN) with NaN in H by reflexivity.
      cbn [jle] in H. unfold bind at 1 in H.
      unfold updatePrivateLedger, dbWrite, modify in H. unfold bind in H.
      match type of H with
      | context [deductLoop walletId currency rest NaN ?s0] =>
          destruct (deductLoop walletId currency rest NaN s0) as [s1 r1] eqn:E
      end.
      apply IH in E as (e' & ds & ->). inversion H; subst. eauto.
    + unfold bind in H.
      destruct (deductLoop walletId currency rest NaN s) as [s1 r1] eqn:E.
      apply IH in E as (e' & ds & ->). inversion H; subst. eauto.
Qed.

Lemma ecoClientLoop_NaN fromId toId currency t entries :
  forall toAddresses s s' entries' toAddresses' remaining,
    ecoClientLoop fromId toId currency t entries toAddresses NaN s
    = (s', inr (entries', toAddresses', remaining)) ->
    remaining = NaN.
Proof.
  induction entries as [| [chain info] rest IH];
    intros toAddresses s s' entries' toAddresses' remaining H;
    cbn [ecoClientLoop] in H.
  - inversion H; subst. reflexivity.
  - cbn [jle] in H.
    replace (jmin (ci_balance info) NaN) with NaN in H
      by (destruct (ci_balance info); reflexivity).
    replace (jsub NaN NaN) with NaN in H by reflexivity.
    apply bind_inr in H as (s1 & a1 & _ & H).
    apply bind_inr in H as (s2 & [] & _ & H).
    apply bind_inr in H as (s3 & [] & _ & H).
    apply bind_inr in H as (s4 & [[rest' a2] rem] & Hrec & H).
    inversion H; subst. eapply IH. exact Hrec.
Qed.

Lemma raises_ecoClientLoop fromId toId currency t entries :
  forall toAddresses remaining,
    raises notAmountError
      (ecoClientLoop fromId toId currency t entries toAddresses remaining).
Proof.
  induction entries as [| [chain info] rest IH]; intros toAddresses remaining;
    cbn [ecoClientLoop].
  - apply raises_ret.
  - destruct (jle remaining jzero); [apply raises_ret |].
    apply raises_bind; [apply raises_assignChain | intros a1].
    apply raises_bind; [apply raises_dbWrite | intros _].
    apply raises_bind; [apply raises_dbWrite | intros _].
    apply raises_bind; [apply IH | intros [[? ?] ?]; apply raises_ret].
Qed.

Lemma raises_addLoop walletId currency details :
  forall addresses, raises notAmountError (addLoop walletId currency details addresses).
Proof.
  induction details as [| d rest IH]; intros addresses; cbn [addLoop].
  - apply raises_ret.
  - apply raises_bind; [apply raises_creditChain | intros a1].
    apply raises_bind; [apply raises_dbWrite | intros _; apply IH].
Qed.

Lemma raises_updateWalletBalances P fromWallet toWallet a r prec t :
  raises P (updateWalletBalances fromWallet toWallet a r prec t).
Proof.
  unfold updateWalletBalances.
  apply raises_bind; [apply raises_dbWrite | intros _; apply raises_dbWrite].
Qed.

Lemma raises_mutateStep_NaN transferType fromWallet toWallet fromCurrency fromType
    toType currencyData t :
  raises notAmountError
    (mutateStep transferType fromWallet toWallet NaN fromCurrency fromType toType
                currencyData t).
Proof.
  unfold mutateStep. destruct (negb _).
  - unfold handleCompleteTransfer. destruct (_ && _).
    + unfold handleEcoClientBalanceTransfer.
      apply raises_bind; [apply raises_lift_outcome | intros fromAddresses].
      apply raises_bind; [apply raises_lift_outcome | intros toAddresses].
      apply raises_bind_post with (Q := fun x => snd x = NaN).
      * apply raises_ecoClientLoop.
      * intros s s' [[e' a'] rem] H. apply ecoClientLoop_NaN in H. exact H.
      * intros [[e' a'] rem] Hq. simpl in Hq. subst rem. cbn [jgt jlt].
        apply raises_updateWalletBalances.
    + unfold handleNonClientTransfer.
      apply raises_bind; [| intros _; apply raises_updateWalletBalances].
      destruct (_ && _); [| apply raises_ret].
      apply raises_bind; [| intros ds].
      * unfold deductFromEcoWallet.
        apply raises_bind; [apply raises_lift_outcome | intros addresses].
        apply raises_bind_post with (Q := fun x => snd x = NaN).
        -- destruct (shadowsHasOwnProperty addresses);
             [apply raises_throw; reflexivity |].
           intros s s' e H. apply deductLoop_NaN in H as (? & ? & H). discriminate.
        -- intros s s' [[e' ds] rem] H.
           destruct (shadowsHasOwnProperty addresses); [discriminate |].
           apply deductLoop_NaN in H as (? & ? & H). inversion H. reflexivity.
        -- intros [[e' ds] rem] Hq. simpl in Hq. subst rem. cbn [jgt jlt].
           apply raises_bind; [apply raises_dbWrite | intros _; apply raises_ret].
      * unfold addToEcoWallet.
        apply raises_bind; [apply raises_lift_outcome | intros addresses].
        apply raises_bind; [apply raises_addLoop | intros a'; apply raises_dbWrite].
  - unfold handlePendingTransfer.
    apply raises_bind; [apply raises_dbWrite | intros _].
    destruct (transferStatusOf _ _ _); [apply raises_ret | apply raises_dbWrite].
Qed.

Lemma raises_recordLegs P payer receiver fromWallet toWallet gross fee received
    fromCurrency toCurrency dOut dIn status fromType toType t :
  raises P (recordLegs payer receiver fromWallet toWallet gross fee received
              fromCurrency toCurrency dOut dIn status fromType toType t).
Proof.
  intros s s' e H.
  destruct (recordLegs_total payer receiver fromWallet toWallet gross fee received
              fromCurrency toCurrency dOut dIn status fromType toType t s)
    as (s1 & pair & E).
  rewrite E in H. discriminate.
Qed.

Lemma raises_sequelize_transaction {A : Type} P (callback : TxHandle -> M TxState A) :
  raises P (callback TxH) -> raises P (sequelize_transaction callback).
Proof.
  intros Hc db db' e H. apply sequelize_transaction_inl in H as (s' & H & _).
  eapply Hc. exact H.
Qed.

Lemma raises_performTransaction_NaN transferType fromWallet toWallet fromCurrency
    toCurrency userId clientId fromType toType currencyData :
  raises notAmountError
    (performTransaction transferType fromWallet toWallet NaN fromCurrency toCurrency
       userId clientId fromType toType currencyData).
Proof.
  unfold performTransaction.
  replace (jlt (w_balance fromWallet) NaN) with false
    by (destruct (w_balance fromWallet); reflexivity).
  apply raises_sequelize_transaction. rewrite performTransaction_body_eq.
  apply raises_bind; [apply raises_mutateStep_NaN | intros _; apply raises_recordLegs].
Qed.

Lemma raises_resolveDestination userId b :
  raises notAmountError (resolveDestination userId b).
Proof.
  unfold resolveDestination. destruct (isClient (transferType b)).
  - apply raises_bind; [| intros [w u]; apply raises_ret].
    unfold handleClientTransfer.
    destruct (clientId b); [| apply raises_throw; reflexivity].
    apply raises_bind; [apply raises_gets | intros [u |]];
      [| apply raises_throw; reflexivity].
    apply raises_bind.
    + destruct (WalletType_eqb (fromType b) ECO); [apply raises_gets |].
      apply raises_bind; [apply raises_gets | intros [w |]]; [apply raises_ret |].
      apply raises_bind; [| intros w; apply raises_ret].
      intros s s' e H. discriminate.
    + intros [w |]; [apply raises_ret | apply raises_throw; reflexivity].
  - apply raises_bind; [| intros w; apply raises_ret].
    unfold handleWalletTransfer.
    destruct (WalletType_eqb _ _); [apply raises_throw; reflexivity |].
    destruct (validTransfers _); [| apply raises_throw; reflexivity].
    destruct (negb _); [apply raises_throw; reflexivity |].
    apply raises_bind; [apply raises_gets | intros [w |]]; [apply raises_ret |].
    intros s s' e H. discriminate.
Qed.

Lemma raises_createTransfer_NaN data :
  amount (body data) = NaN -> raises notAmountError (createTransfer data).
Proof.
  intros Ha. destruct data as [u b]. cbn [body] in Ha.
  unfold createTransfer. cbn [user body].
  destruct u as [userId |]; [| apply raises_throw; reflexivity].
  destruct (String.eqb _ _); [apply raises_throw; reflexivity |].
  apply raises_bind; [apply raises_gets | intros [u |]];
    [| apply raises_throw; reflexivity].
  apply raises_bind; [apply raises_gets | intros [fromWallet |]];
    [| apply raises_throw; reflexivity].
  apply raises_bind; [apply raises_resolveDestination | intros [toWallet toUser]].
  rewrite Ha.
  replace (jlt (w_balance fromWallet) NaN) with false
    by (destruct (w_balance fromWallet); reflexivity).
  destruct (getCurrencyData _ _); [| apply raises_throw; reflexivity].
  apply raises_bind; [apply raises_performTransaction_NaN | intros pair].
  apply raises_ret.
Qed.

Lemma performTransaction_total transferType fromWallet toWallet parsedAmount
    fromCurrency toCurrency userId clientId fromType toType currencyData db :
  jlt (w_balance fromWallet) parsedAmount = false ->
  fromType <> ECO -> w_type fromWallet = fromType ->
  exists db' pair,
    performTransaction transferType fromWallet toWallet parsedAmount fromCurrency
      toCurrency userId clientId fromType toType currencyData db = (db', inr pair).
Proof.
  intros Hg Hne Ht. unfold performTransaction. rewrite Hg.
  unfold sequelize_transaction. rewrite performTransaction_body_eq.
  assert (Hm : exists s1,
             mutateStep transferType fromWallet toWallet parsedAmount fromCurrency
               fromType toType currencyData TxH (mkTxState db db) = (s1, inr tt)).
  { unfold mutateStep. apply WalletType_eqb_neq in Hne.
    destruct (negb _).
    - unfold handleCompleteTransfer. rewrite Hne. cbn [andb].
      unfold handleNonClientTransfer. rewrite Ht, Hne. cbn [andb].
      eexists. reflexivity.
    - unfold handlePendingTransfer.
      destruct (transferStatusOf _ _ _); eexists; reflexivity. }
  destruct Hm as [s1 Hm]. rewrite (bind_run _ _ _ _ _ Hm).
  match goal with
  | |- context [recordLegs ?a ?b ?c ?d ?e ?f ?g ?h ?i ?j ?k ?l ?m ?n ?o s1] =>
      destruct (recordLegs_total a b c d e f g h i j k l m n o s1)
        as (s2 & pair & E)
  end.
  rewrite E. eauto.
Qed.

(** C8, amended.  A request whose amount is not a number is never
    rejected because of its amount: the balance guards and the
    chain-balance guards compare with [NaN] and do not fire, so no error
    the handler ends with is one of the insufficient-balance errors.  When
    the caller, the source wallet, the destination wallet and the currency
    metadata resolve and the source is not an ECO wallet, the request is
    accepted and two transaction records with amount [NaN] are written. *)
Theorem nan_amount_passes_guards (data : Handler) (db : Db) :
  amount (body data) = NaN ->
  (forall db' e, createTransfer data db = (db', inl e) -> amountError e = false) /\
  (forall userId u fromWallet db1 toWallet toUser currencyData,
     user data = Some userId ->
     String.eqb (toCurrency (body data)) "Select a currency" = false ->
     find (Nat.eqb userId) (users db) = Some u ->
     find (wallet_matches userId (fromCurrency (body data)) (fromType (body data)))
          (wallets db) = Some fromWallet ->
     resolveDestination userId (body data) db = (db1, inr (toWallet, toUser)) ->
     getCurrencyData (fromType (body data)) (fromCurrency (body data))
     = Some currencyData ->
     fromType (body data) <> ECO ->
     exists db' r,
       createTransfer data db = (db', inr r) /\
       tx_amount (r_fromTransfer r) = NaN /\ tx_amount (r_toTransfer r) = NaN /\
       transactions db' = transactions db ++ [r_fromTransfer r; r_toTransfer r]).
Proof.
  intros Ha. split.
  - intros db' e H. eapply raises_createTransfer_NaN; eauto.
  - intros userId u fromWallet db1 toWallet toUser cd Hu Hp Hf Hw Hr Hc Hne.
    assert (Hg : jlt (w_balance fromWallet) (amount (body data)) = false).
    { rewrite Ha. destruct (w_balance fromWallet); reflexivity. }
    destruct (performTransaction_total (transferType (body data)) fromWallet toWallet
                (amount (body data)) (fromCurrency (body data))
                (toCurrency (body data)) userId toUser (fromType (body data))
                (toType (body data)) cd db1 Hg Hne)
      as (db' & pair & Hp').
    { apply wallet_findOne_some in Hw. tauto. }
    assert (E : createTransfer data db
                = (db', inr (mkResponse "Transfer initiated successfully"
                               (fromTransfer pair) (toTransfer pair)
                               (fromType (body data)) (toType (body data))
                               (fromCurrency (body data)) (toCurrency (body data))))).
    { unfold createTransfer. rewrite Hu, Hp.
      unfold bind at 1. unfold user_findByPk, gets. rewrite Hf.
      unfold bind at 1. unfold wallet_findOne, gets. rewrite Hw.
      rewrite (bind_run _ _ _ _ _ Hr). rewrite Hg, Hc.
      rewrite (bind_run _ _ _ _ _ Hp'). reflexivity. }
    eexists; eexists. split; [exact E |].
    destruct (createTransfer_legs _ _ _ _ E) as (Tx & Tout & Tin).
    cbn [r_fromTransfer r_toTransfer] in *.
    rewrite Tout, Tin, Ha. repeat split. exact Tx.
Qed.

(** ** Rollback *)

Lemma committed_scoped_ledger walletId index currency chain amount t :
  keeps committed (updatePrivateLedger walletId index currency chain amount (Some t)).
Proof. apply (keeps_dbWrite_scoped (fun db => db)). Qed.

Lemma committed_balance wallet b t :
  keeps committed (wallet_update_balance wallet b (Some t)).
Proof. apply (keeps_dbWrite_scoped (fun db => db)). Qed.

Lemma committed_recordLegs payer receiver fromWallet toWallet gross fee received
    fromCurrency toCurrency dOut dIn status fromType toType t :
  keeps committed (recordLegs payer receiver fromWallet toWallet gross fee received
                     fromCurrency toCurrency dOut dIn status fromType toType t).
Proof.
  intros s s' r H.
  destruct (recordLegs_total payer receiver fromWallet toWallet gross fee received
              fromCurrency toCurrency dOut dIn status fromType toType t s)
    as (s1 & pair & E).
  rewrite E in H. inversion H; subst.
  apply recordLegs_spec in E. tauto.
Qed.

(** Without the chain deduction of [deductFromEcoWallet], the MUTATE step
    writes under the transaction handle only. *)
Lemma mutateStep_committed transferType fromWallet toWallet parsedAmount fromCurrency
    fromType toType currencyData t :
  requiresPrivateLedgerUpdate transferType fromType toType = true \/
  WalletType_eqb fromType ECO && isClient transferType = true \/
  WalletType_eqb (w_type fromWallet) ECO && WalletType_eqb (w_type toWallet) ECO = false ->
  keeps committed (mutateStep transferType fromWallet toWallet parsedAmount fromCurrency
                     fromType toType currencyData t).
Proof.
  intros Hpath. unfold mutateStep.
  destruct (requiresPrivateLedgerUpdate transferType fromType toType) eqn:Hp; cbn [negb].
  - apply handlePendingTransfer_keeps. apply committed_balance.
  - unfold handleCompleteTransfer.
    destruct (WalletType_eqb fromType ECO && isClient transferType) eqn:Hk.
    + apply handleEcoClientBalanceTransfer_keeps;
        [apply committed_scoped_ledger | apply committed_balance].
    + destruct Hpath as [Hpath | [Hpath | Hpath]]; try discriminate.
      unfold handleNonClientTransfer. rewrite Hpath.
      apply keeps_bind; [apply keeps_ret | intros _].
      apply updateWalletBalances_keeps. apply committed_balance.
Qed.

(** On those paths a failed transaction leaves the store as it found it. *)
Lemma performTransaction_rollback transferType fromWallet toWallet parsedAmount
    fromCurrency toCurrency userId clientId fromType toType currencyData db db' e :
  requiresPrivateLedgerUpdate transferType fromType toType = true \/
  WalletType_eqb fromType ECO && isClient transferType = true \/
  WalletType_eqb (w_type fromWallet) ECO && WalletType_eqb (w_type toWallet) ECO = false ->
  performTransaction transferType fromWallet toWallet parsedAmount fromCurrency
    toCurrency userId clientId fromType toType currencyData db = (db', inl e) ->
  db' = db.
Proof.
  intros Hpath. unfold performTransaction.
  destruct (jlt (w_balance fromWallet) parsedAmount).
  { intros H. inversion H. reflexivity. }
  intros H. apply sequelize_transaction_inl in H as (s' & H & ->).
  rewrite performTransaction_body_eq in H.
  assert (K : keeps committed
                (mutateStep transferType fromWallet toWallet parsedAmount fromCurrency
                   fromType toType currencyData TxH ;;
                 recordLegs userId (if isClient transferType then clientId else Some userId)
                   fromWallet toWallet parsedAmount (transferFee parsedAmount)
                   (jsub parsedAmount (transferFee parsedAmount)) fromCurrency toCurrency
                   ("Transfer to " ++ walletTypeName toType ++ " wallet")
                   ("Transfer from " ++ walletTypeName fromType ++ " wallet")
                   (transferStatusOf transferType fromType toType) fromType toType TxH)).
  { apply keeps_bind; [apply mutateStep_committed; exact Hpath | intros _].
    apply committed_recordLegs. }
  apply K in H. exact H.
Qed.

Lemma resolveDestination_types userId b db db1 toWallet toUser :
  resolveDestination userId b db = (db1, inr (toWallet, toUser)) ->
  WalletType_eqb (fromType b) ECO && isClient (transferType b) = false ->
  WalletType_eqb (fromType b) ECO && WalletType_eqb (w_type toWallet) ECO = false.
Proof.
  intros H Hk. unfold resolveDestination in H.
  destruct (isClient (transferType b)).
  - rewrite andb_true_r in Hk. rewrite Hk. reflexivity.
  - apply bind_inr in H as (d & w & H & Hr). inversion Hr; subst. clear Hr.
    destruct (spec_route_table (fromType b) (toType b)) eqn:R.
    + destruct (handleWalletTransfer_accepts userId (fromType b) (toType b)
                  (toCurrency b) db R) as (d' & w' & E & _ & _ & Ht).
      rewrite E in H. inversion H; subst. rewrite Ht.
      destruct (fromType b), (toType b); try discriminate; reflexivity.
    + rewrite handleWalletTransfer_rejects in H by exact R. discriminate.
Qed.

(** A request the handler rejects leaves the store as wallet resolution
    left it: no balance, address map, ledger row, transaction record or
    profit record differs, whichever check or step failed. *)
Lemma createTransfer_failure_resolved data db db' e :
  createTransfer data db = (db', inl e) -> resolved db db'.
Proof.
  destruct data as [u b]. unfold createTransfer. cbn [user body].
  destruct u as [userId |]; [| intros H; inversion H; apply resolved_refl].
  destruct (String.eqb _ _); [intros H; inversion H; apply resolved_refl |].
  unfold bind at 1. unfold user_findByPk, gets.
  destruct (find (Nat.eqb userId) (users db));
    [| intros H; inversion H; apply resolved_refl].
  unfold bind at 1. unfold wallet_findOne, gets.
  destruct (find (wallet_matches userId (fromCurrency b) (fromType b)) (wallets db))
    as [fromWallet |] eqn:F; [| intros H; inversion H; apply resolved_refl].
  intros H. apply bind_inl in H as [H | (db1 & [toWallet toUser] & Hr & H)].
  { eapply resolveDestination_resolved. exact H. }
  pose proof (resolveDestination_resolved _ _ _ _ _ Hr) as R.
  destruct (jlt (w_balance fromWallet) (amount b)); [inversion H; subst; exact R |].
  destruct (getCurrencyData (fromType b) (fromCurrency b)) as [cd |];
    [| inversion H; subst; exact R].
  apply bind_inl in H as [H | (db2 & pair & _ & H)]; [| discriminate].
  apply performTransaction_rollback in H; [subst; exact R |].
  destruct (WalletType_eqb (fromType b) ECO && isClient (transferType b)) eqn:Hk.
  - right. left. reflexivity.
  - right. right. apply wallet_findOne_some in F as (_ & _ & _ & Ft). rewrite Ft.
    eapply resolveDestination_types; eauto.
Qed.

(** A failed run of [processInternalTransfer] restores the wallets, the
    transaction records and the profit records; the private ledger is not
    part of what is restored. *)
Lemma processInternalTransfer_failure fromUserId toUserId currency chain amount db db' e :
  processInternalTransfer fromUserId toUserId currency chain amount db = (db', inl e) ->
  exists db1, resolved db db1 /\ core db' = core db1.
Proof.
  unfold processInternalTransfer. intros H.
  apply bind_inl in H as [H | (d1 & fw & Hw & H)]; [discriminate |].
  unfold wallet_findOne, gets in Hw. inversion Hw; subst d1 fw. clear Hw.
  destruct (find (wallet_matches fromUserId currency ECO) (wallets db))
    as [fromWallet |].
  2: { inversion H; subst. exists db'. split; [apply resolved_refl | reflexivity]. }
  apply bind_inl in H as [H | (d1 & found & Hw & H)]; [discriminate |].
  unfold wallet_findOne, gets in Hw. inversion Hw; subst d1 found. clear Hw.
  apply bind_inl in H as [H | (db1 & toWallet & Hc & H)].
  { destruct (find (wallet_matches toUserId currency ECO) (wallets db)); discriminate. }
  assert (R : resolved db db1).
  { destruct (find (wallet_matches toUserId currency ECO) (wallets db)).
    - inversion Hc; subst. apply resolved_refl.
    - eapply wallet_create_resolved; eauto. }
  exists db1. split; [exact R |].
  destruct (jlt (w_balance fromWallet) amount); [inversion H; reflexivity |].
  apply bind_inl in H as [H | (db2 & pair & _ & H)].
  2: { apply bind_inl in H as [H | (db3 & uw & _ & H)]; discriminate. }
  apply sequelize_transaction_inl in H as (s' & H & ->).
  rewrite processInternalTransfer_body_eq in H.
  set (f := fun s : TxState => core (committed s)).
  assert (Fs : forall walletId index cur ch a t,
             keeps f (updatePrivateLedger walletId index cur ch a (Some t))).
  { intros. apply (keeps_dbWrite_scoped core). }
  assert (Fu : forall walletId index cur ch a,
             keeps f (updatePrivateLedger walletId index cur ch a None)).
  { intros. apply (keeps_dbWrite_committed core). reflexivity. }
  assert (Fb : forall wallet b t, keeps f (wallet_update_balance wallet b (Some t))).
  { intros. apply (keeps_dbWrite_scoped core). }
  assert (Fa : forall wallet a t, keeps f (wallet_update_address wallet a (Some t))).
  { intros. apply (keeps_dbWrite_scoped core). }
  revert H. generalize (@inl HttpError TransferPair e). intros r0 H.
  change (f s' = f (mkTxState db1 db1)).
  revert H. generalize (mkTxState db1 db1). intros s0 H. revert s0 s' r0 H.
  change (keeps f
            (prec <- internalEcoStep fromWallet toWallet amount currency TxH ;;
             updateWalletBalances fromWallet toWallet amount
               (jsub amount (jdiv100 (jmul amount (orZero walletTransferFeePercentage))))
               prec TxH ;;
             recordLegs fromUserId (Some toUserId) fromWallet toWallet amount
               (jdiv100 (jmul amount (orZero walletTransferFeePercentage)))
               (jsub amount (jdiv100 (jmul amount (orZero walletTransferFeePercentage))))
               currency currency
               ("Internal transfer to user " ++ string_of_nat toUserId)
               ("Internal transfer from user " ++ string_of_nat fromUserId)
               COMPLETED ECO ECO TxH)).
  apply keeps_bind.
  - unfold internalEcoStep. destruct (_ && _); [| apply keeps_ret].
    apply keeps_bind; [apply deductFromEcoWallet_keeps; assumption | intros ds].
    apply keeps_bind; [apply addToEcoWallet_keeps; assumption | intros _].
    destruct (getCurrencyData _ _); [apply keeps_ret | apply keeps_throw].
  - intros prec. apply keeps_bind.
    + apply updateWalletBalances_keeps. exact Fb.
    + intros _. intros s0 s1 r1 Hrun. unfold f.
      apply committed_recordLegs in Hrun. rewrite Hrun. reflexivity.
Qed.

(** ** The errors of the two entry points *)

Ltac in_errors :=
  unfold handlerErrors, internalErrors, typeError; simpl;
  repeat (first [left; reflexivity | right]).

Lemma raises_weaken {S A : Type} (P Q : HttpError -> Prop) (c : M S A) :
  (forall e, P e -> Q e) -> raises P c -> raises Q c.
Proof. intros Hpq Hc s s' e H. apply Hpq. eapply Hc. exact H. Qed.

Lemma raises_parseAddresses {S : Type} P address :
  raises P (@lift_outcome S JsValue (parseAddresses address)).
Proof.
  destruct (parseAddresses_returns address) as [v ->]. apply raises_ret.
Qed.

Lemma raises_creditChain_type {S : Type} (P : HttpError -> Prop) addresses chain init
    amount :
  P (typeError "Cannot access a property of a value that is not an object") ->
  raises P (@creditChain S addresses chain init amount).
Proof.
  intros Hp. unfold creditChain.
  destruct addresses; try destruct (inheritedMember _ _);
    try (apply raises_throw; exact Hp); apply raises_ret.
Qed.

Lemma raises_assignChain_type {S : Type} (P : HttpError -> Prop) toAddresses chain init
    amount :
  P (typeError "Cannot access a property of a value that is not an object") ->
  raises P (@assignChain S toAddresses chain init amount).
Proof.
  intros Hp. unfold assignChain.
  destruct toAddresses; try (apply raises_throw; exact Hp); apply raises_ret.
Qed.

Lemma raises_ecoClientLoop_type (P : HttpError -> Prop) fromId toId currency t entries :
  P (typeError "Cannot access a property of a value that is not an object") ->
  forall toAddresses remaining,
    raises P (ecoClientLoop fromId toId currency t entries toAddresses remaining).
Proof.
  intros Hp.
  induction entries as [| [chain info] rest IH]; intros toAddresses remaining;
    cbn [ecoClientLoop].
  - apply raises_ret.
  - destruct (jle remaining jzero); [apply raises_ret |].
    apply raises_bind; [apply raises_assignChain_type; exact Hp | intros a1].
    apply raises_bind; [apply raises_dbWrite | intros _].
    apply raises_bind; [apply raises_dbWrite | intros _].
    apply raises_bind; [apply IH | intros [[? ?] ?]; apply raises_ret].
Qed.

Lemma raises_addLoop_type (P : HttpError -> Prop) walletId currency details :
  P (typeError "Cannot access a property of a value that is not an object") ->
  forall addresses, raises P (addLoop walletId currency details addresses).
Proof.
  intros Hp.
  induction details as [| d rest IH]; intros addresses; cbn [addLoop].
  - apply raises_ret.
  - apply raises_bind; [apply raises_creditChain_type; exact Hp | intros a1].
    apply raises_bind; [apply raises_dbWrite | intros _; apply IH].
Qed.

Lemma raises_deductLoop P walletId currency entries remainingAmount :
  raises P (deductLoop walletId currency entries remainingAmount).
Proof.
  intros s s' e H.
  destruct (deductLoop_returns walletId currency entries remainingAmount s)
    as (s1 & r & E).
  rewrite E in H. discriminate.
Qed.

Lemma raises_mutateStep_handler (P : HttpError -> Prop) transferType fromWallet
    toWallet parsedAmount fromCurrency fromType toType currencyData t :
  P (createError 400 "Insufficient chain balance across all addresses.") ->
  P (typeError "Cannot access a property of a value that is not an object") ->
  handlerPath transferType fromType toType fromWallet toWallet ->
  raises P
    (mutateStep transferType fromWallet toWallet parsedAmount fromCurrency fromType
                toType currencyData t).
Proof.
  intros Pchain Ptype Hpath. unfold handlerPath in Hpath. unfold mutateStep.
  destruct (requiresPrivateLedgerUpdate transferType fromType toType) eqn:Hp; cbn [negb].
  - unfold handlePendingTransfer.
    apply raises_bind; [apply raises_dbWrite | intros _].
    destruct (transferStatusOf _ _ _); [apply raises_ret | apply raises_dbWrite].
  - unfold handleCompleteTransfer.
    destruct (WalletType_eqb fromType ECO && isClient transferType) eqn:Hk.
    + unfold handleEcoClientBalanceTransfer.
      apply raises_bind; [apply raises_parseAddresses | intros fromAddresses].
      apply raises_bind; [apply raises_parseAddresses | intros toAddresses].
      apply raises_bind; [apply raises_ecoClientLoop_type; exact Ptype |].
      intros [[e' a'] rem].
      destruct (jgt rem jzero); [apply raises_throw; exact Pchain |].
      apply raises_updateWalletBalances.
    + destruct Hpath as [Hpath | [Hpath | Hpath]]; try discriminate.
      unfold handleNonClientTransfer. rewrite Hpath.
      apply raises_bind; [apply raises_ret | intros _].
      apply raises_updateWalletBalances.
Qed.

Lemma raises_resolveDestination_handler userId b :
  raises (fun e => In e handlerErrors) (resolveDestination userId b).
Proof.
  unfold resolveDestination. destruct (isClient (transferType b)).
  - apply raises_bind; [| intros [w u]; apply raises_ret].
    unfold handleClientTransfer.
    destruct (clientId b); [| apply raises_throw; in_errors].
    apply raises_bind; [apply raises_gets | intros [u |]];
      [| apply raises_throw; in_errors].
    apply raises_bind.
    + destruct (WalletType_eqb (fromType b) ECO); [apply raises_gets |].
      apply raises_bind; [apply raises_gets | intros [w |]]; [apply raises_ret |].
      apply raises_bind; [| intros w; apply raises_ret].
      intros s s' e H. discriminate.
    + intros [w |]; [apply raises_ret | apply raises_throw; in_errors].
  - apply raises_bind; [| intros w; apply raises_ret].
    unfold handleWalletTransfer.
    destruct (WalletType_eqb _ _); [apply raises_throw; in_errors |].
    destruct (validTransfers _); [| apply raises_throw; in_errors].
    destruct (negb _); [apply raises_throw; in_errors |].
    apply raises_bind; [apply raises_gets | intros [w |]]; [apply raises_ret |].
    intros s s' e H. discriminate.
Qed.

(** The path of a request whose wallets the handler resolved. *)
Lemma resolved_handlerPath userId b db db1 fromWallet toWallet toUser :
  find (wallet_matches userId (fromCurrency b) (fromType b)) (wallets db)
  = Some fromWallet ->
  resolveDestination userId b db = (db1, inr (toWallet, toUser)) ->
  handlerPath (transferType b) (fromType b) (toType b) fromWallet toWallet.
Proof.
  intros F Hr. unfold handlerPath.
  destruct (WalletType_eqb (fromType b) ECO && isClient (transferType b)) eqn:Hk.
  - right. left. reflexivity.
  - right. right. apply wallet_findOne_some in F as (_ & _ & _ & Ft). rewrite Ft.
    eapply resolveDestination_types; eauto.
Qed.

(** X1.  Every error the request handler ends with is one of thirteen:
    the authentication, currency, user, wallet, client and route errors of
    the checks, "Insufficient balance", "Invalid wallet type", the
    insufficient-chain-balance error of the client transfer, or the
    [TypeError] of a credit to a destination address that is not an object.
    The second balance guard, in [performTransaction], repeats the first and
    never fires, and [deductFromEcoWallet] is never reached from the
    handler, so their two messages are not among them. *)
Theorem createTransfer_errors (data : Handler) (db db' : Db) (e : HttpError) :
  createTransfer data db = (db', inl e) ->
  In e handlerErrors /\
  message e <> "Insufficient balance to cover transfer and fees." /\
  message e <> "Insufficient chain balance to complete the transfer".
Proof.
  intros H.
  assert (Hin : In e handlerErrors).
  { revert H. destruct data as [u b]. unfold createTransfer. cbn [user body].
    destruct u as [userId |]; [| intros H; inversion H; in_errors].
    destruct (String.eqb _ _); [intros H; inversion H; in_errors |].
    unfold bind at 1. unfold user_findByPk, gets.
    destruct (find (Nat.eqb userId) (users db)); [| intros H; inversion H; in_errors].
    unfold bind at 1. unfold wallet_findOne, gets.
    destruct (find (wallet_matches userId (fromCurrency b) (fromType b)) (wallets db))
      as [fromWallet |] eqn:F; [| intros H; inversion H; in_errors].
    intros H. apply bind_inl in H as [H | (db1 & [toWallet toUser] & Hr & H)].
    { eapply (raises_resolveDestination_handler userId b). exact H. }
    pose proof (resolved_handlerPath _ _ _ _ _ _ _ F Hr) as Hpath.
    destruct (jlt (w_balance fromWallet) (amount b)) eqn:Hg;
      [inversion H; in_errors |].
    destruct (getCurrencyData (fromType b) (fromCurrency b)) as [cd |];
      [| inversion H; in_errors].
    apply bind_inl in H as [H | (db2 & pair & _ & H)]; [| discriminate].
    unfold performTransaction in H. rewrite Hg in H.
    eapply (raises_sequelize_transaction (fun e => In e handlerErrors)); [| exact H].
    rewrite performTransaction_body_eq.
    apply raises_bind; [| intros _; apply raises_recordLegs].
    apply raises_mutateStep_handler; [in_errors | in_errors | exact Hpath]. }
  split; [exact Hin |].
  unfold handlerErrors, typeError in Hin. simpl in Hin.
  repeat (destruct Hin as [Hin | Hin]; [subst e; split; discriminate |]).
  contradiction.
Qed.

(** ** What the request handler leaves alone *)

Lemma bind_cases {S A B : Type} (c : M S A) (k : A -> M S B) s s' r :
  bind c k s = (s', r) ->
  (exists e, c s = (s', inl e) /\ r = inl e) \/
  exists s1 a, c s = (s1, inr a) /\ k a s1 = (s', r).
Proof.
  unfold bind. destruct (c s) as [s1 [e | a]]; intros H.
  - left. exists e. inversion H. split; reflexivity.
  - right. exists s1, a. split; [reflexivity | exact H].
Qed.

Lemma steps_ret {S A : Type} (R : S -> S -> Prop) (a : A) :
  (forall s, R s s) -> steps R (ret a).
Proof. intros Hr s s' r H. inversion H; subst. apply Hr. Qed.

Lemma steps_throw {S A : Type} (R : S -> S -> Prop) e :
  (forall s, R s s) -> steps R (@throw S A e).
Proof. intros Hr s s' r H. inversion H; subst. apply Hr. Qed.

Lemma steps_bind {S A B : Type} (R : S -> S -> Prop) (c : M S A) (k : A -> M S B) :
  (forall s1 s2 s3, R s1 s2 -> R s2 s3 -> R s1 s3) ->
  steps R c -> (forall a, steps R (k a)) -> steps R (bind c k).
Proof.
  intros Ht Hc Hk s s' r H.
  apply bind_cases in H as [(e & H & _) | (s1 & a & Ha & H)].
  - eapply Hc; eauto.
  - eapply Ht; [eapply Hc | eapply Hk]; eauto.
Qed.

Lemma keeps_steps {S A X : Type} (f : S -> X) (R : S -> S -> Prop) (c : M S A) :
  (forall s s', f s' = f s -> R s s') -> keeps f c -> steps R c.
Proof. intros Hf Hc s s' r H. apply Hf. eapply Hc. exact H. Qed.

Lemma withoutBalance_set_balance id b db :
  withoutBalance (update_row id (set_balance b) db) = withoutBalance db.
Proof.
  unfold withoutBalance, update_row. cbn [wallets]. rewrite map_map.
  apply map_ext. intros w. destruct (Nat.eqb (w_id w) id); reflexivity.
Qed.

Lemma address_of_withoutBalance id db db' :
  withoutBalance db' = withoutBalance db -> address_of id db' = address_of id db.
Proof.
  assert (E : forall d, address_of id d
                        = option_map w_address (find (has_id id) (withoutBalance d))).
  { intros d. unfold address_of, withoutBalance. fold (has_id id).
    rewrite find_map_id by reflexivity.
    destruct (find (has_id id) (wallets d)); reflexivity. }
  intros H. rewrite !E, H. reflexivity.
Qed.

(** A wallet that exists keeps its address map through wallet resolution. *)
Lemma resolved_address db db1 id a :
  resolved db db1 -> address_of id db = Some a -> address_of id db1 = Some a.
Proof.
  intros (_ & _ & _ & _ & [Hw | (w & Hw & _)]) H; unfold address_of in *; rewrite Hw.
  - exact H.
  - fold (has_id id) in *.
    destruct (find (has_id id) (wallets db)) as [w0 |] eqn:F; [| discriminate].
    rewrite (find_app_some (has_id id) (wallets db) [w] w0 F). exact H.
Qed.

Lemma recordLegs_keeps_working {X : Type} (g : Db -> X) payer receiver fromWallet
    toWallet gross fee received fromCurrency toCurrency dOut dIn status fromType toType
    t :
  (forall db txs ps,
     g (mkDb (users db) (wallets db) (ledger db) txs ps) = g db) ->
  keeps (fun s => g (working s))
    (recordLegs payer receiver fromWallet toWallet gross fee received fromCurrency
       toCurrency dOut dIn status fromType toType t).
Proof.
  intros Hg s s' r H.
  destruct (recordLegs_total payer receiver fromWallet toWallet gross fee received
              fromCurrency toCurrency dOut dIn status fromType toType t s)
    as (s1 & pair & E).
  rewrite E in H. inversion H; subst.
  apply recordLegs_spec in E as (_ & _ & -> & _). apply Hg.
Qed.

(** On the paths of the handler the MUTATE step changes nothing that the
    scoped ledger writes and the balance updates leave alone. *)
Lemma mutateStep_keeps_path {X : Type} (f : TxState -> X) transferType fromWallet
    toWallet parsedAmount fromCurrency fromType toType currencyData t :
  (forall walletId index currency chain amount h,
     keeps f (updatePrivateLedger walletId index currency chain amount (Some h))) ->
  (forall wallet b h, keeps f (wallet_update_balance wallet b (Some h))) ->
  handlerPath transferType fromType toType fromWallet toWallet ->
  keeps f (mutateStep transferType fromWallet toWallet parsedAmount fromCurrency
             fromType toType currencyData t).
Proof.
  intros Fl Fb Hpath. unfold handlerPath in Hpath. unfold mutateStep.
  destruct (requiresPrivateLedgerUpdate transferType fromType toType) eqn:Hp; cbn [negb].
  - apply handlePendingTransfer_keeps. exact Fb.
  - unfold handleCompleteTransfer.
    destruct (WalletType_eqb fromType ECO && isClient transferType) eqn:Hk.
    + apply handleEcoClientBalanceTransfer_keeps; assumption.
    + destruct Hpath as [Hpath | [Hpath | Hpath]]; try discriminate.
      unfold handleNonClientTransfer. rewrite Hpath.
      apply keeps_bind; [apply keeps_ret | intros _].
      apply updateWalletBalances_keeps. exact Fb.
Qed.

(** X2.  Whatever a request does, it changes no wallet row beyond its
    aggregate balance: after wallet resolution, which may append one empty
    wallet, every row keeps its id, owner, currency, type, status and
    address map.  In particular the handler never writes a per-chain address
    map, not even on the client transfer out of an ECO wallet, whose loop
    updates the chain balances in memory only. *)
Theorem createTransfer_writes_balances_only (data : Handler) (db db' : Db)
    (r : Result TransferResponse) :
  createTransfer data db = (db', r) ->
  exists db1,
    resolved db db1 /\
    withoutBalance db' = withoutBalance db1 /\
    (forall id a, address_of id db = Some a -> address_of id db' = Some a).
Proof.
  intros H.
  assert (K : exists db1, resolved db db1 /\ withoutBalance db' = withoutBalance db1).
  { destruct r as [e | resp].
    - exists db'. split; [| reflexivity].
      eapply createTransfer_failure_resolved. exact H.
    - apply createTransfer_inr in H.
      destruct H as [userId fromWallet toWallet toUser db1 cd pair
                       Hu Hp Hf Hw Hr Hg Hc Hperf Hresp].
      exists db1. split; [eapply resolveDestination_resolved; exact Hr |].
      apply performTransaction_inr in Hperf as (_ & s' & Hbody & ->).
      rewrite performTransaction_body_eq in Hbody.
      revert Hbody.
      generalize (@inr HttpError TransferPair pair). intros r0 Hbody.
      change (withoutBalance db1)
        with ((fun s => withoutBalance (working s)) (mkTxState db1 db1)).
      change (withoutBalance (working s'))
        with ((fun s => withoutBalance (working s)) s').
      revert Hbody. apply keeps_bind.
      + apply mutateStep_keeps_path.
        * intros. apply (keeps_dbWrite_working withoutBalance). reflexivity.
        * intros. apply (keeps_dbWrite_working withoutBalance).
          intros d. apply withoutBalance_set_balance.
        * eapply resolved_handlerPath; eauto.
      + intros _. apply (recordLegs_keeps_working withoutBalance). reflexivity. }
  destruct K as (db1 & R & E). exists db1. split; [exact R |]. split; [exact E |].
  intros id a Ha. rewrite (address_of_withoutBalance id db1 db' E).
  eapply resolved_address; eauto.
Qed.

(** ** The private ledger *)

Lemma ledgerPaired_refl fromId toId currency s : ledgerPaired fromId toId currency s s.
Proof. exists []. simpl. rewrite app_nil_r. reflexivity. Qed.

Lemma ledgerPaired_trans fromId toId currency s1 s2 s3 :
  ledgerPaired fromId toId currency s1 s2 -> ledgerPaired fromId toId currency s2 s3 ->
  ledgerPaired fromId toId currency s1 s3.
Proof.
  intros [d1 H1] [d2 H2]. exists (d1 ++ d2). rewrite H2, H1.
  unfold transferEntries. rewrite flat_map_app, app_assoc. reflexivity.
Qed.

Lemma ledgerPaired_same fromId toId currency s s' :
  ledger (working s') = ledger (working s) -> ledgerPaired fromId toId currency s s'.
Proof. intros H. exists []. simpl. rewrite app_nil_r. exact H. Qed.

Lemma ecoClientLoop_paired fromId toId currency t entries :
  forall toAddresses remaining,
    steps (ledgerPaired fromId toId currency)
      (ecoClientLoop fromId toId currency t entries toAddresses remaining).
Proof.
  induction entries as [| [chain info] rest IH]; intros toAddresses remaining;
    cbn [ecoClientLoop].
  - apply steps_ret. apply ledgerPaired_refl.
  - destruct (jle remaining jzero); [apply steps_ret; apply ledgerPaired_refl |].
    intros s s' r H.
    apply bind_cases in H as [(e & H & _) | (s1 & a1 & Hc & H)].
    { apply (assignChain_keeps (fun x => x)) in H. subst. apply ledgerPaired_refl. }
    apply assignChain_inr in Hc. subst s1.
    apply bind_cases in H as [(e & H & _) | (s2 & [] & Hl1 & H)]; [discriminate |].
    apply bind_cases in H as [(e & H & _) | (s3 & [] & Hl2 & H)]; [discriminate |].
    assert (P : ledgerPaired fromId toId currency s s3).
    { exists [mkDetail chain (jmin (ci_balance info) remaining)].
      unfold updatePrivateLedger, dbWrite, modify in Hl1, Hl2.
      inversion Hl1; subst s2. inversion Hl2; subst s3.
      cbn [working ledger transferEntries flat_map debitEntry creditEntry
           d_chain d_amount app].
      rewrite <- app_assoc. reflexivity. }
    apply (ledgerPaired_trans _ _ _ _ _ _ P).
    apply bind_cases in H as [(e & H & _) | (s4 & [[rest' toA2] rem'] & Hrec & H)].
    + eapply IH. exact H.
    + inversion H; subst. eapply IH. exact Hrec.
Qed.

Lemma working_ledger_balance wallet b h :
  keeps (fun s => ledger (working s)) (wallet_update_balance wallet b (Some h)).
Proof. apply (keeps_dbWrite_working ledger). reflexivity. Qed.

Lemma mutateStep_ledger_wallet transferType fromWallet toWallet parsedAmount
    fromCurrency fromType toType currencyData t :
  WalletType_eqb fromType ECO && isClient transferType = false ->
  handlerPath transferType fromType toType fromWallet toWallet ->
  keeps (fun s => ledger (working s))
    (mutateStep transferType fromWallet toWallet parsedAmount fromCurrency fromType
                toType currencyData t).
Proof.
  intros Hk Hpath. unfold handlerPath in Hpath. unfold mutateStep.
  destruct (requiresPrivateLedgerUpdate transferType fromType toType) eqn:Hp; cbn [negb].
  - apply handlePendingTransfer_keeps. apply working_ledger_balance.
  - unfold handleCompleteTransfer. rewrite Hk.
    destruct Hpath as [Hpath | [Hpath | Hpath]]; try discriminate.
    { rewrite Hk in Hpath. discriminate. }
    unfold handleNonClientTransfer. rewrite Hpath.
    apply keeps_bind; [apply keeps_ret | intros _].
    apply updateWalletBalances_keeps. apply working_ledger_balance.
Qed.

Lemma mutateStep_paired transferType fromWallet toWallet parsedAmount fromCurrency
    fromType toType currencyData t :
  handlerPath transferType fromType toType fromWallet toWallet ->
  steps (ledgerPaired (w_id fromWallet) (w_id toWallet) fromCurrency)
    (mutateStep transferType fromWallet toWallet parsedAmount fromCurrency fromType
                toType currencyData t).
Proof.
  intros Hpath.
  destruct (WalletType_eqb fromType ECO && isClient transferType) eqn:Hk.
  2: { apply (keeps_steps (fun s => ledger (working s)));
         [apply ledgerPaired_same | apply mutateStep_ledger_wallet; assumption]. }
  unfold mutateStep.
  destruct (requiresPrivateLedgerUpdate transferType fromType toType); cbn [negb].
  { apply (keeps_steps (fun s => ledger (working s))); [apply ledgerPaired_same |].
    apply handlePendingTransfer_keeps. apply working_ledger_balance. }
  unfold handleCompleteTransfer. rewrite Hk. unfold handleEcoClientBalanceTransfer.
  apply steps_bind; [apply ledgerPaired_trans | | intros fromAddresses].
  { apply (keeps_steps (fun s => ledger (working s)));
      [apply ledgerPaired_same | apply keeps_lift_outcome]. }
  apply steps_bind; [apply ledgerPaired_trans | | intros toAddresses].
  { apply (keeps_steps (fun s => ledger (working s)));
      [apply ledgerPaired_same | apply keeps_lift_outcome]. }
  apply steps_bind; [apply ledgerPaired_trans | apply ecoClientLoop_paired |].
  intros [[e' a'] rem].
  destruct (jgt rem jzero); [apply steps_throw; apply ledgerPaired_refl |].
  apply (keeps_steps (fun s => ledger (working s))); [apply ledgerPaired_same |].
  apply updateWalletBalances_keeps. apply working_ledger_balance.
Qed.

(** X3.  The request handler writes private-ledger rows on one path only,
    the client transfer out of an ECO wallet, and there in pairs: a debit on
    the source wallet followed by the mirrored credit on the destination
    wallet, for the same chain and amount.  A rejected request leaves the
    ledger as it was, and so does every transfer that is not such a client
    transfer, the wallet-type transfers between two ECO-related wallets
    included. *)
Theorem createTransfer_ledger_rows (data : Handler) (db db' : Db)
    (r : Result TransferResponse) :
  createTransfer data db = (db', r) ->
  (forall e, r = inl e -> ledger db' = ledger db) /\
  (WalletType_eqb (fromType (body data)) ECO && isClient (transferType (body data))
   = false -> ledger db' = ledger db) /\
  (forall resp, r = inr resp ->
     exists details,
       ledger db'
       = ledger db
         ++ transferEntries (tx_fromWallet (r_fromTransfer resp))
              (tx_toWallet (r_fromTransfer resp)) (fromCurrency (body data)) details).
Proof.
  intros H.
  assert (Hfail : forall e, r = inl e -> ledger db' = ledger db).
  { intros e ->. apply createTransfer_failure_resolved in H.
    destruct H as (_ & Hl & _). exact Hl. }
  split; [exact Hfail |].
  destruct r as [e | resp].
  { split; [intros _; eapply Hfail; reflexivity | intros resp Hr; discriminate]. }
  apply createTransfer_inr in H.
  destruct H as [userId fromWallet toWallet toUser db1 cd pair
                   Hu Hp Hf Hw Hr Hg Hc Hperf Hresp].
  pose proof (resolveDestination_resolved _ _ _ _ _ Hr) as (_ & Hl1 & _).
  pose proof (resolved_handlerPath _ _ _ _ _ _ _ Hw Hr) as Hpath.
  apply performTransaction_inr in Hperf as (_ & s' & Hbody & ->).
  pose proof (performTransaction_body_records _ _ _ _ _ _ _ _ _ _ _ _ _ _ _ Hbody)
    as (Hout & _).
  rewrite performTransaction_body_eq in Hbody.
  split.
  - intros Hk. rewrite <- Hl1.
    revert Hbody. generalize (@inr HttpError TransferPair pair). intros r0 Hbody.
    change (ledger db1) with ((fun s => ledger (working s)) (mkTxState db1 db1)).
    change (ledger (working s')) with ((fun s => ledger (working s)) s').
    revert Hbody. apply keeps_bind.
    + apply mutateStep_ledger_wallet; assumption.
    + intros _. apply (recordLegs_keeps_working ledger). reflexivity.
  - intros resp' E. inversion E; subst resp'. clear E.
    rewrite Hresp. cbn [r_fromTransfer]. rewrite Hout.
    cbn [outgoingLeg tx_fromWallet tx_toWallet]. rewrite <- Hl1.
    assert (K : ledgerPaired (w_id fromWallet) (w_id toWallet)
                  (fromCurrency (body data)) (mkTxState db1 db1) s').
    { revert Hbody. generalize (@inr HttpError TransferPair pair). intros r0 Hbody.
      revert Hbody. apply steps_bind.
      - apply ledgerPaired_trans.
      - apply mutateStep_paired. exact Hpath.
      - intros _. apply (keeps_steps (fun s => ledger (working s)));
          [apply ledgerPaired_same |].
        apply (recordLegs_keeps_working ledger). reflexivity. }
    exact K.
Qed.

(** ** A rejected internal transfer *)

Lemma ledgerGrew_refl s : ledgerGrew s s.
Proof. exists []. rewrite app_nil_r. reflexivity. Qed.

Lemma ledgerGrew_trans s1 s2 s3 : ledgerGrew s1 s2 -> ledgerGrew s2 s3 -> ledgerGrew s1 s3.
Proof.
  intros [r1 H1] [r2 H2]. exists (r1 ++ r2). rewrite H2, H1, app_assoc. reflexivity.
Qed.

Lemma ledgerGrew_committed s s' : committed s' = committed s -> ledgerGrew s s'.
Proof. intros H. exists []. rewrite H, app_nil_r. reflexivity. Qed.

Lemma ledgerGrew_write walletId index currency chain amount t :
  steps ledgerGrew (updatePrivateLedger walletId index currency chain amount t).
Proof.
  intros s s' r H. unfold updatePrivateLedger, dbWrite, modify in H.
  destruct t; inversion H; subst.
  - apply ledgerGrew_committed. reflexivity.
  - eexists. reflexivity.
Qed.

Lemma ledgerGrew_scoped upd h : steps ledgerGrew (dbWrite (Some h) upd).
Proof.
  apply (keeps_steps committed); [apply ledgerGrew_committed |].
  apply (keeps_dbWrite_scoped (fun db => db)).
Qed.

Lemma ledgerGrew_parse address :
  steps ledgerGrew (@lift_outcome TxState JsValue (parseAddresses address)).
Proof.
  apply (keeps_steps committed); [apply ledgerGrew_committed | apply keeps_lift_outcome].
Qed.

Lemma ledgerGrew_deductLoop walletId currency entries :
  forall remainingAmount,
    steps ledgerGrew (deductLoop walletId currency entries remainingAmount).
Proof.
  induction entries as [| [chain info] rest IH]; intros remainingAmount;
    cbn [deductLoop].
  - apply steps_ret. apply ledgerGrew_refl.
  - destruct (jgt (ci_balance info) jzero).
    + apply steps_bind; [apply ledgerGrew_trans | apply ledgerGrew_write | intros _].
      destruct (jle _ jzero); [apply steps_ret; apply ledgerGrew_refl |].
      apply steps_bind; [apply ledgerGrew_trans | apply IH |].
      intros [[? ?] ?]. apply steps_ret. apply ledgerGrew_refl.
    + apply steps_bind; [apply ledgerGrew_trans | apply IH |].
      intros [[? ?] ?]. apply steps_ret. apply ledgerGrew_refl.
Qed.

Lemma ledgerGrew_addLoop walletId currency details :
  forall addresses, steps ledgerGrew (addLoop walletId currency details addresses).
Proof.
  induction details as [| d rest IH]; intros addresses; cbn [addLoop].
  - apply steps_ret. apply ledgerGrew_refl.
  - apply steps_bind; [apply ledgerGrew_trans | | intros a'].
    { apply (keeps_steps committed); [apply ledgerGrew_committed |].
      apply creditChain_keeps. }
    apply steps_bind; [apply ledgerGrew_trans | apply ledgerGrew_write | intros _].
    apply IH.
Qed.

Lemma ledgerGrew_internalEcoStep fromWallet toWallet parsedAmount currency t :
  steps ledgerGrew (internalEcoStep fromWallet toWallet parsedAmount currency t).
Proof.
  unfold internalEcoStep. destruct (_ && _); [| apply steps_ret; apply ledgerGrew_refl].
  apply steps_bind; [apply ledgerGrew_trans | | intros ds].
  { unfold deductFromEcoWallet.
    apply steps_bind; [apply ledgerGrew_trans | apply ledgerGrew_parse | intros a].
    apply steps_bind;
      [apply ledgerGrew_trans
      | destruct (shadowsHasOwnProperty a);
          [apply steps_throw; apply ledgerGrew_refl | apply ledgerGrew_deductLoop]
      |].
    intros [[e' ds] rem].
    destruct (jgt rem jzero); [apply steps_throw; apply ledgerGrew_refl |].
    apply steps_bind; [apply ledgerGrew_trans | apply ledgerGrew_scoped | intros _].
    apply steps_ret. apply ledgerGrew_refl. }
  apply steps_bind; [apply ledgerGrew_trans | | intros _].
  { unfold addToEcoWallet.
    apply steps_bind; [apply ledgerGrew_trans | apply ledgerGrew_parse | intros a].
    apply steps_bind; [apply ledgerGrew_trans | apply ledgerGrew_addLoop | intros a'].
    apply ledgerGrew_scoped. }
  destruct (getCurrencyData _ _);
    [apply steps_ret | apply steps_throw]; apply ledgerGrew_refl.
Qed.

Lemma raises_internalEcoStep fromWallet toWallet parsedAmount currency t :
  raises (fun e => In e internalErrors)
    (internalEcoStep fromWallet toWallet parsedAmount currency t).
Proof.
  unfold internalEcoStep. destruct (_ && _); [| apply raises_ret].
  apply raises_bind; [| intros ds].
  - unfold deductFromEcoWallet.
    apply raises_bind; [apply raises_parseAddresses | intros addresses].
    apply raises_bind;
      [destruct (shadowsHasOwnProperty addresses);
         [apply raises_throw; in_errors | apply raises_deductLoop]
      | intros [[e' ds] rem]].
    destruct (jgt rem jzero); [apply raises_throw; in_errors |].
    apply raises_bind; [apply raises_dbWrite | intros _; apply raises_ret].
  - apply raises_bind.
    + unfold addToEcoWallet.
      apply raises_bind; [apply raises_parseAddresses | intros addresses].
      apply raises_bind; [apply raises_addLoop_type; in_errors | intros a'].
      apply raises_dbWrite.
    + intros _. destruct (getCurrencyData _ _);
        [apply raises_ret | apply raises_throw; in_errors].
Qed.

(** X4.  A run of [processInternalTransfer] that fails ends with one of
    six errors: the sender wallet is missing, the aggregate balance or the
    chain balances are insufficient, or a [TypeError] (credit to a
    destination address that is not an object, currency metadata missing,
    a source chain named [hasOwnProperty]).
    It restores the wallets, the transaction records and the profit records
    to what they were after the destination wallet was found or created;
    the private ledger is not restored: it has the rows it had, possibly
    followed by rows written before the failure. *)
Theorem processInternalTransfer_rejection (fromUserId toUserId : nat)
    (currency chain : string) (amount : jsnum) (db db' : Db) (e : HttpError) :
  processInternalTransfer fromUserId toUserId currency chain amount db = (db', inl e) ->
  In e internalErrors /\
  (exists db1, resolved db db1 /\ core db' = core db1) /\
  (exists rows, ledger db' = ledger db ++ rows).
Proof.
  intros H0. split; [| split].
  2: { eapply processInternalTransfer_failure. exact H0. }
  - revert H0. unfold processInternalTransfer. intros H.
    apply bind_inl in H as [H | (d1 & fw & Hw & H)]; [discriminate |].
    unfold wallet_findOne, gets in Hw. inversion Hw; subst d1 fw. clear Hw.
    destruct (find (wallet_matches fromUserId currency ECO) (wallets db))
      as [fromWallet |]; [| inversion H; in_errors].
    apply bind_inl in H as [H | (d1 & found & Hw & H)]; [discriminate |].
    apply bind_inl in H as [H | (db1 & toWallet & Hc & H)].
    { unfold wallet_findOne, gets in Hw. inversion Hw; subst d1 found.
      destruct (find (wallet_matches toUserId currency ECO) (wallets db));
        discriminate. }
    destruct (jlt (w_balance fromWallet) amount); [inversion H; in_errors |].
    apply bind_inl in H as [H | (db2 & pair & _ & H)].
    2: { apply bind_inl in H as [H | (db3 & uw & _ & H)]; discriminate. }
    eapply (raises_sequelize_transaction (fun e => In e internalErrors)); [| exact H].
    rewrite processInternalTransfer_body_eq.
    apply raises_bind; [apply raises_internalEcoStep | intros prec].
    apply raises_bind; [apply raises_updateWalletBalances | intros _].
    apply raises_recordLegs.
  - revert H0. unfold processInternalTransfer. intros H.
    apply bind_inl in H as [H | (d1 & fw & Hw & H)]; [discriminate |].
    unfold wallet_findOne, gets in Hw. inversion Hw; subst d1 fw. clear Hw.
    destruct (find (wallet_matches fromUserId currency ECO) (wallets db))
      as [fromWallet |].
    2: { inversion H; subst. exists []. rewrite app_nil_r. reflexivity. }
    apply bind_inl in H as [H | (d1 & found & Hw & H)]; [discriminate |].
    unfold wallet_findOne, gets in Hw. inversion Hw; subst d1 found. clear Hw.
    apply bind_inl in H as [H | (db1 & toWallet & Hc & H)].
    { destruct (find (wallet_matches toUserId currency ECO) (wallets db));
        discriminate. }
    assert (R : ledger db1 = ledger db).
    { destruct (find (wallet_matches toUserId currency ECO) (wallets db)).
      - inversion Hc; subst. reflexivity.
      - apply wallet_create_resolved in Hc. destruct Hc as (_ & Hl & _). exact Hl. }
    destruct (jlt (w_balance fromWallet) amount).
    { inversion H; subst. exists []. rewrite app_nil_r. exact R. }
    apply bind_inl in H as [H | (db2 & pair & _ & H)].
    2: { apply bind_inl in H as [H | (db3 & uw & _ & H)]; discriminate. }
    apply sequelize_transaction_inl in H as (s' & H & ->).
    rewrite processInternalTransfer_body_eq in H. rewrite <- R.
    change (ledgerGrew (mkTxState db1 db1) s').
    revert H. apply steps_bind.
    + apply ledgerGrew_trans.
    + apply ledgerGrew_internalEcoStep.
    + intros prec. apply steps_bind; [apply ledgerGrew_trans | | intros _].
      * apply (keeps_steps committed); [apply ledgerGrew_committed |].
        apply updateWalletBalances_keeps. apply committed_balance.
      * apply (keeps_steps committed); [apply ledgerGrew_committed |].
        apply committed_recordLegs.
Qed.

(** ** Credits to an address map *)







(** *** The order of the keys *)












(** *** One credit, then all of them *)















Lemma chainCredits_none chain details b :
  ~ In chain (map d_chain details) -> chainCredits chain details b = b.
Proof.
  revert b. induction details as [| d rest IH]; intros b Hn;
    cbn [chainCredits fold_left]; [reflexivity |].
  destruct (String.eqb_spec (d_chain d) chain) as [E | E].
  - exfalso. apply Hn. left. exact E.
  - apply IH. intros Hin. apply Hn. right. exact Hin.
Qed.

(** The loop of [addToEcoWallet] on an object never throws. *)
Lemma addLoop_object walletId currency details :
  forall m s,
    addLoop walletId currency details (JsObject m) s
    = (mkTxState
         (appendLedger (map (creditEntry walletId currency) details) (committed s))
         (appendLedger (map (creditEntry walletId currency) details) (working s)),
       inr (JsObject (creditAll details m))).
Proof.
  induction details as [| d rest IH]; intros m s; cbn [addLoop map creditAll fold_left].
  - rewrite !appendLedger_nil. destruct s. reflexivity.
  - unfold bind at 1. cbn [creditChain ret].
    unfold bind at 1. unfold updatePrivateLedger, dbWrite, modify.
    fold (creditOne m d). rewrite IH. cbn [committed working].
    unfold appendLedger, creditEntry. cbn [users wallets ledger transactions profits].
    rewrite <- !app_assoc. reflexivity.
Qed.

Lemma addLoop_ledger walletId currency details :
  forall addresses s s' v,
    addLoop walletId currency details addresses s = (s', inr v) ->
    working s' = appendLedger (map (creditEntry walletId currency) details) (working s) /\
    committed s'
    = appendLedger (map (creditEntry walletId currency) details) (committed s).
Proof.
  induction details as [| d rest IH]; intros addresses s s' v H; cbn [addLoop map] in H.
  - inversion H; subst. rewrite !appendLedger_nil. split; reflexivity.
  - apply bind_inr in H as (s1 & a1 & Hc & H).
    apply creditChain_inr in Hc. subst s1.
    apply bind_inr in H as (s2 & [] & Hl & H).
    unfold updatePrivateLedger, dbWrite, modify in Hl. inversion Hl; subst s2. clear Hl.
    apply IH in H as [Hw Hcm]. rewrite Hw, Hcm. cbn [working committed].
    unfold appendLedger, creditEntry. cbn [users wallets ledger transactions profits].
    rewrite <- !app_assoc. split; reflexivity.
Qed.


(** ** The order of a chain deduction *)





Lemma addToEcoWallet_inr wallet details currency t s s' :
  addToEcoWallet wallet details currency t s = (s', inr tt) ->
  exists addresses addresses' s1,
    parseAddresses (w_address wallet) = Returned addresses /\
    addLoop (w_id wallet) currency details addresses s = (s1, inr addresses') /\
    s' = mkTxState (committed s1)
           (update_row (w_id wallet) (set_address (JsString (JSON_stringify addresses')))
              (working s1)).
Proof.
  unfold addToEcoWallet. intros H.
  apply bind_inr in H as (s0 & addresses & Hp & H).
  destruct (lift_parseAddresses (w_address wallet) s) as (v & Hv & Hl).
  rewrite Hl in Hp. inversion Hp; subst s0 v. clear Hp.
  apply bind_inr in H as (s1 & addresses' & Hloop & Hu).
  unfold wallet_update_address, dbWrite, modify in Hu. inversion Hu; subst s'.
  exists addresses, addresses', s1. repeat split; assumption.
Qed.


(** ** A deduction followed by its credit *)

Lemma ecoPair_spec fromWallet toWallet a currency t s s' :
  0 <= a ->
  (deductionDetails <- deductFromEcoWallet fromWallet (Num a) currency t ;;
   addToEcoWallet toWallet deductionDetails currency t) s = (s', inr tt) ->
  exists details addresses entries' dstAddresses dstAddresses',
    parseAddresses (w_address fromWallet) = Returned addresses /\
    parseAddresses (w_address toWallet) = Returned dstAddresses /\
    Forall (fun d => is_num (d_amount d)) details /\
    Contributions (entries_of addresses) (Num a) details /\
    jeq (remainingAfter (Num a) details) jzero /\
    (forall m, dstAddresses = JsObject m ->
               dstAddresses' = JsObject (creditAll details m)) /\
    working s'
    = update_row (w_id toWallet) (set_address (JsString (JSON_stringify dstAddresses')))
        (appendLedger (map (creditEntry (w_id toWallet) currency) details)
           (update_row (w_id fromWallet)
              (set_address
                 (JsString (JSON_stringify (with_entries addresses entries'))))
              (appendLedger (map (debitEntry (w_id fromWallet) currency) details)
                 (working s)))).
Proof.
  intros Ha H.
  apply bind_inr in H as (sd & details & Hd & Hadd).
  apply deductFromEcoWallet_inr in Hd
    as (addresses & s1 & entries' & rem & Hp & _ & Hloop & G & ->).
  apply deductLoop_spec in Hloop
    as (r' & -> & Hr' & Hnum & Hrem & Hc & _ & Hw & _); [| exact Ha].
  apply jgt_zero_false in G; [| exact Hr'].
  apply addToEcoWallet_inr in Hadd as (dst & dst' & s2 & Hp2 & Hloop2 & ->).
  exists details, addresses, entries', dst, dst'.
  split; [exact Hp |]. split; [exact Hp2 |]. split; [exact Hnum |].
  split; [exact Hc |]. split; [rewrite Hrem; exact G |].
  split.
  - intros m ->. rewrite addLoop_object in Hloop2. inversion Hloop2. reflexivity.
  - apply addLoop_ledger in Hloop2 as [Hw2 _]. cbn [working] in *.
    rewrite Hw2, Hw. reflexivity.
Qed.

Lemma processInternalTransfer_wallets fromUserId toUserId currency chain amount db db'
    r :
  processInternalTransfer fromUserId toUserId currency chain amount db = (db', inr r) ->
  exists fromWallet toWallet db1 s' pair,
    w_type fromWallet = ECO /\ w_type toWallet = ECO /\
    ledger db1 = ledger db /\
    processInternalTransfer_body fromUserId toUserId currency fromWallet toWallet
      amount (transferFee amount) (jsub amount (transferFee amount)) TxH
      (mkTxState db1 db1) = (s', inr pair) /\
    db' = working s' /\
    it_outgoingTransfer r = fromTransfer pair.
Proof.
  unfold processInternalTransfer. intros H.
  apply bind_inr in H as (d1 & fw & Hw & H).
  unfold wallet_findOne, gets in Hw. inversion Hw; subst d1 fw. clear Hw.
  destruct (find (wallet_matches fromUserId currency ECO) (wallets db))
    as [fromWallet |] eqn:F; [| discriminate].
  apply bind_inr in H as (d1 & found & Hw & H).
  unfold wallet_findOne, gets in Hw. inversion Hw; subst d1 found. clear Hw.
  apply bind_inr in H as (db1 & toWallet & Hc & H).
  assert (R : w_type toWallet = ECO /\ ledger db1 = ledger db).
  { destruct (find (wallet_matches toUserId currency ECO) (wallets db)) eqn:F2.
    - inversion Hc; subst. apply wallet_findOne_some in F2. tauto.
    - unfold wallet_create in Hc. inversion Hc; subst. split; reflexivity. }
  destruct R as [Rt Rl].
  destruct (jlt (w_balance fromWallet) amount) eqn:G; [discriminate |].
  apply bind_inr in H as (db2 & pair & Hp & H).
  apply sequelize_transaction_inr in Hp as (s' & Hb & ->).
  apply bind_inr in H as (db3 & uw & Hu & H).
  unfold wallet_findOne, gets in Hu. inversion Hu; subst db3 uw. clear Hu.
  inversion H; subst db' r. clear H.
  apply wallet_findOne_some in F as (_ & _ & _ & Ft).
  exists fromWallet, toWallet, db1, s', pair. repeat split; auto.
Qed.

(** X9.  A successful [processInternalTransfer] of an amount that is a
    number and is not negative appends to the private ledger the debits of
    the source wallet, one per deduction detail, and then the credits of
    the destination wallet for the same chains and amounts.  The details
    exhaust the amount: subtracted from it one after the other, as the
    deduction loop subtracts them, they leave zero, whatever the fee is. *)
Theorem internal_transfer_ledger_mirror (fromUserId toUserId : nat)
    (currency chain : string) (a : Q) (db db' : Db) (r : InternalTransferResult) :
  0 <= a ->
  processInternalTransfer fromUserId toUserId currency chain (Num a) db = (db', inr r) ->
  exists details,
    Forall (fun d => is_num (d_amount d)) details /\
    jeq (remainingAfter (Num a) details) jzero /\
    ledger db'
    = ledger db
      ++ map (debitEntry (tx_fromWallet (it_outgoingTransfer r)) currency) details
      ++ map (creditEntry (tx_toWallet (it_outgoingTransfer r)) currency) details.
Proof.
  intros Ha H.
  apply processInternalTransfer_wallets in H
    as (fromWallet & toWallet & db1 & s' & pair & Tf & Tt & Hl & Hbody & -> & Hout).
  pose proof (processInternalTransfer_body_records _ _ _ _ _ _ _ _ _ _ _ _ Hbody)
    as (Hleg & _).
  rewrite Hout, Hleg. cbn [outgoingLeg tx_fromWallet tx_toWallet].
  rewrite processInternalTransfer_body_eq in Hbody.
  apply bind_inr in Hbody as (s1 & prec & Heco & Hbody).
  assert (K : ledger (working s') = ledger (working s1)).
  { revert Hbody. generalize (@inr HttpError TransferPair pair). intros r0 Hbody.
    change (ledger (working s')) with ((fun x => ledger (working x)) s').
    change (ledger (working s1)) with ((fun x => ledger (working x)) s1).
    revert Hbody. apply keeps_bind.
    - apply updateWalletBalances_keeps. apply working_ledger_balance.
    - intros _. apply (recordLegs_keeps_working ledger). reflexivity. }
  rewrite K. clear K Hbody.
  unfold internalEcoStep in Heco. rewrite Tf, Tt in Heco. cbn [WalletType_eqb andb] in Heco.
  assert (P : exists s2,
            (deductionDetails <- deductFromEcoWallet fromWallet (Num a) currency TxH ;;
             addToEcoWallet toWallet deductionDetails currency TxH) (mkTxState db1 db1)
            = (s2, inr tt) /\ ledger (working s1) = ledger (working s2)).
  { apply bind_inr in Heco as (sd & details & Hd & Heco).
    apply bind_inr in Heco as (sa & [] & Hadd & Heco).
    exists sa. split.
    - rewrite (bind_run _ _ _ _ _ Hd). exact Hadd.
    - destruct (getCurrencyData _ _); inversion Heco. reflexivity. }
  destruct P as (s2 & P & ->).
  apply ecoPair_spec in P
    as (details & addresses & entries' & dst & dst' & _ & _ & Hnum & _ & Hs & _ & Hw);
    [| exact Ha].
  exists details. split; [exact Hnum |]. split; [exact Hs |].
  rewrite Hw. cbn [ledger update_row appendLedger working]. rewrite Hl.
  rewrite <- app_assoc. reflexivity.
Qed.

(** ** Resolution, guards and fees *)

Lemma find_app_none {A : Type} (f : A -> bool) l l' :
  find f l = None -> find f (l ++ l') = find f l'.
Proof.
  induction l as [| a l IH]; simpl; [reflexivity |].
  destruct (f a); [discriminate | exact IH].
Qed.

Lemma find_or_create_again userId currency type db db1 w :
  bind (wallet_findOne userId currency type)
       (fun found => match found with
                     | Some w => ret w
                     | None => wallet_create userId currency type
                     end) db = (db1, inr w) ->
  find (wallet_matches userId currency type) (wallets db1) = Some w.
Proof.
  unfold bind, wallet_findOne, gets.
  destruct (find (wallet_matches userId currency type) (wallets db)) eqn:F.
  - intros H. inversion H; subst. exact F.
  - unfold wallet_create. intros H. inversion H; subst. cbn [wallets].
    rewrite (find_app_none _ _ _ F). cbn [find].
    unfold wallet_matches. cbn [w_userId w_currency w_type].
    rewrite Nat.eqb_refl, String.eqb_refl.
    destruct type; reflexivity.
Qed.

Lemma created_wallet_found userId currency type db db1 w :
  find (wallet_matches userId currency type) (wallets db) = None ->
  wallet_create userId currency type db = (db1, inr w) ->
  find (wallet_matches userId currency type) (wallets db1) = Some w.
Proof.
  intros F H. unfold wallet_create in H. inversion H; subst. cbn [wallets].
  rewrite (find_app_none _ _ _ F). cbn [find].
  unfold wallet_matches. cbn [w_userId w_currency w_type].
  rewrite Nat.eqb_refl, String.eqb_refl.
  destruct type; reflexivity.
Qed.

Lemma handleClientTransfer_again cid currency fromType db db1 w u :
  handleClientTransfer cid currency fromType db = (db1, inr (w, u)) ->
  handleClientTransfer cid currency fromType db1 = (db1, inr (w, u)).
Proof.
  intros H0. pose proof (handleClientTransfer_resolved _ _ _ _ _ _ H0) as (U & _).
  revert H0. unfold handleClientTransfer. destruct cid as [c |]; [| discriminate].
  intros H. apply bind_inr in H as (d0 & fu & Hf & H).
  unfold user_findByPk, gets in Hf. inversion Hf; subst d0 fu. clear Hf.
  destruct (find (Nat.eqb c) (users db)) as [u0 |] eqn:Fu; [| discriminate].
  apply bind_inr in H as (d2 & found & Hw & H).
  destruct found as [w0 |]; [| discriminate]. inversion H; subst d2 w0 u0. clear H.
  erewrite bind_run; [| unfold user_findByPk, gets; rewrite U, Fu; reflexivity].
  destruct (WalletType_eqb fromType ECO).
  - unfold gets in Hw. inversion Hw as [[Hd Hh]]. subst db1.
    erewrite bind_run; [| unfold gets; rewrite Hh; reflexivity]. reflexivity.
  - assert (Hfind : find (wallet_matches c currency fromType) (wallets db1) = Some w).
    { revert Hw. unfold bind at 1. unfold wallet_findOne, gets.
      destruct (find (wallet_matches c currency fromType) (wallets db)) eqn:F.
      - intros Hw. inversion Hw; subst. exact F.
      - intros Hw. apply bind_inr in Hw as (d3 & w1 & Hc & Hw).
        inversion Hw; subst d3 w1. eapply created_wallet_found; eauto. }
    erewrite bind_run;
      [| unfold bind, wallet_findOne, gets; rewrite Hfind; reflexivity].
    reflexivity.
Qed.

Lemma handleWalletTransfer_again userId fromType toType toCurrency db db1 w :
  handleWalletTransfer userId fromType toType toCurrency db = (db1, inr w) ->
  handleWalletTransfer userId fromType toType toCurrency db1 = (db1, inr w).
Proof.
  unfold handleWalletTransfer.
  destruct (WalletType_eqb fromType toType); [discriminate |].
  destruct (validTransfers fromType) as [targets |]; [| discriminate].
  destruct (negb (includes targets toType)); [discriminate |].
  intros H. apply find_or_create_again in H.
  unfold bind, wallet_findOne, gets. rewrite H. reflexivity.
Qed.

(** X10.  Wallet resolution is idempotent: resolving the destination of
    the same request again, on the store the first resolution left, finds
    the same wallet and changes nothing.  A wallet that was created is found
    the next time, so repeating a request never creates a second one. *)
Theorem resolveDestination_idempotent (userId : nat) (b : TransferBody) (db db1 : Db)
    (toWallet : Wallet) (toUser : option nat) :
  resolveDestination userId b db = (db1, inr (toWallet, toUser)) ->
  resolveDestination userId b db1 = (db1, inr (toWallet, toUser)).
Proof.
  unfold resolveDestination. destruct (isClient (transferType b)); intros H.
  - apply bind_inr in H as (d1 & [w u] & H & Hr).
    inversion Hr; subst d1 w toUser. clear Hr.
    apply handleClientTransfer_again in H.
    rewrite (bind_run _ _ _ _ _ H). reflexivity.
  - apply bind_inr in H as (d1 & w & H & Hr).
    inversion Hr; subst d1 w toUser. clear Hr.
    apply handleWalletTransfer_again in H.
    rewrite (bind_run _ _ _ _ _ H). reflexivity.
Qed.

Lemma notAmountError_balance e :
  notAmountError e -> message e <> "Insufficient balance".
Proof.
  unfold notAmountError, amountError. intros H E. rewrite E in H. discriminate.
Qed.

(** X11.  The balance guard of the handler.  Once the caller, the source
    wallet and the destination wallet are resolved, a source balance below
    the amount ends the request with the 400 error "Insufficient balance",
    before the currency metadata is looked up; the store is then the one
    wallet resolution left, which may hold a destination wallet created for
    this request.  Conversely the handler ends with that error only when
    the balance and the amount are numbers and the balance is the smaller
    one. *)
Theorem insufficient_balance_rejection (data : Handler) (db : Db) :
  (forall userId u fromWallet db1 toWallet toUser,
     user data = Some userId ->
     String.eqb (toCurrency (body data)) "Select a currency" = false ->
     find (Nat.eqb userId) (users db) = Some u ->
     find (wallet_matches userId (fromCurrency (body data)) (fromType (body data)))
          (wallets db) = Some fromWallet ->
     resolveDestination userId (body data) db = (db1, inr (toWallet, toUser)) ->
     jlt (w_balance fromWallet) (amount (body data)) = true ->
     createTransfer data db = (db1, inl (createError 400 "Insufficient balance"))) /\
  (forall db' e,
     createTransfer data db = (db', inl e) ->
     message e = "Insufficient balance" ->
     exists userId fromWallet balance requested,
       user data = Some userId /\
       find (wallet_matches userId (fromCurrency (body data)) (fromType (body data)))
            (wallets db) = Some fromWallet /\
       w_balance fromWallet = Num balance /\
       amount (body data) = Num requested /\
       balance < requested /\
       resolved db db' /\
       e = createError 400 "Insufficient balance").
Proof.
  split.
  - intros userId u fromWallet db1 toWallet toUser Hu Hp Hf Hw Hr Hg.
    unfold createTransfer. rewrite Hu, Hp.
    unfold bind at 1. unfold user_findByPk, gets. rewrite Hf.
    unfold bind at 1. unfold wallet_findOne, gets. rewrite Hw.
    rewrite (bind_run _ _ _ _ _ Hr). rewrite Hg. reflexivity.
  - destruct data as [u b]. unfold createTransfer. cbn [user body].
    intros db' e H Hm.
    destruct u as [userId |]; [| inversion H; subst; discriminate].
    destruct (String.eqb _ _); [inversion H; subst; discriminate |].
    unfold bind at 1 in H. unfold user_findByPk, gets in H.
    destruct (find (Nat.eqb userId) (users db)); [| inversion H; subst; discriminate].
    unfold bind at 1 in H. unfold wallet_findOne, gets in H.
    destruct (find (wallet_matches userId (fromCurrency b) (fromType b)) (wallets db))
      as [fromWallet |] eqn:F; [| inversion H; subst; discriminate].
    apply bind_inl in H as [H | (db1 & [toWallet toUser] & Hr & H)].
    { exfalso. apply raises_resolveDestination in H.
      apply notAmountError_balance in H. contradiction. }
    pose proof (resolveDestination_resolved _ _ _ _ _ Hr) as R.
    pose proof (resolved_handlerPath _ _ _ _ _ _ _ F Hr) as Hpath.
    destruct (jlt (w_balance fromWallet) (amount b)) eqn:Hg.
    + inversion H; subst db' e. clear H.
      destruct (w_balance fromWallet) as [| bal] eqn:B; [discriminate |].
      destruct (amount b) as [| req] eqn:A; [discriminate |].
      exists userId, fromWallet, bal, req.
      split; [reflexivity |]. split; [exact F |]. split; [exact B |].
      split; [reflexivity |]. split; [apply Qlt_bool_true; exact Hg |].
      split; [exact R | reflexivity].
    + exfalso.
      destruct (getCurrencyData (fromType b) (fromCurrency b)) as [cd |];
        [| inversion H; subst; discriminate].
      apply bind_inl in H as [H | (db2 & pair & _ & H)]; [| discriminate].
      unfold performTransaction in H. rewrite Hg in H.
      revert Hm.
      eapply (raises_sequelize_transaction
                (fun e => message e <> "Insufficient balance")); [| exact H].
      rewrite performTransaction_body_eq.
      apply raises_bind; [| intros _; apply raises_recordLegs].
      apply raises_mutateStep_handler; [discriminate | discriminate | exact Hpath].
Qed.

(** X12.  The balance guard is the only check on the amount.  Once the
    caller, the wallets and the currency metadata are resolved and the
    source is not an ECO wallet, every amount that is a number not above
    the source balance is accepted, zero and negative amounts included: the
    two transaction records are written with that amount. *)
Theorem amount_within_balance_is_accepted (data : Handler) (db db1 : Db)
    (userId u : nat) (fromWallet toWallet : Wallet) (toUser : option nat)
    (currencyData : CurrencyData) (balance requested : Q) :
  user data = Some userId ->
  String.eqb (toCurrency (body data)) "Select a currency" = false ->
  find (Nat.eqb userId) (users db) = Some u ->
  find (wallet_matches userId (fromCurrency (body data)) (fromType (body data)))
       (wallets db) = Some fromWallet ->
  resolveDestination userId (body data) db = (db1, inr (toWallet, toUser)) ->
  getCurrencyData (fromType (body data)) (fromCurrency (body data)) = Some currencyData ->
  fromType (body data) <> ECO ->
  w_balance fromWallet = Num balance ->
  amount (body data) = Num requested ->
  requested <= balance ->
  exists db' r,
    createTransfer data db = (db', inr r) /\
    tx_amount (r_fromTransfer r) = Num requested /\
    tx_amount (r_toTransfer r) = jsub (Num requested) (transferFee (Num requested)) /\
    transactions db' = transactions db ++ [r_fromTransfer r; r_toTransfer r].
Proof.
  intros Hu Hp Hf Hw Hr Hc Hne Hb Ha Hle.
  assert (Hg : jlt (w_balance fromWallet) (amount (body data)) = false).
  { rewrite Hb, Ha. cbn [jlt]. unfold Qlt_bool. apply negb_false_iff.
    apply Qle_bool_iff. exact Hle. }
  destruct (performTransaction_total (transferType (body data)) fromWallet toWallet
              (amount (body data)) (fromCurrency (body data))
              (toCurrency (body data)) userId toUser (fromType (body data))
              (toType (body data)) currencyData db1 Hg Hne)
    as (db' & pair & Hp').
  { apply wallet_findOne_some in Hw. tauto. }
  assert (E : createTransfer data db
              = (db', inr (mkResponse "Transfer initiated successfully"
                             (fromTransfer pair) (toTransfer pair)
                             (fromType (body data)) (toType (body data))
                             (fromCurrency (body data)) (toCurrency (body data))))).
  { unfold createTransfer. rewrite Hu, Hp.
    unfold bind at 1. unfold user_findByPk, gets. rewrite Hf.
    unfold bind at 1. unfold wallet_findOne, gets. rewrite Hw.
    rewrite (bind_run _ _ _ _ _ Hr). rewrite Hg, Hc.
    rewrite (bind_run _ _ _ _ _ Hp'). reflexivity. }
  eexists; eexists. split; [exact E |].
  destruct (createTransfer_legs _ _ _ _ E) as (Tx & Tout & Tin).
  cbn [r_fromTransfer r_toTransfer] in *.
  rewrite Tout, Tin, Ha. repeat split. exact Tx.
Qed.

(** X13.  The records of a successful [processInternalTransfer] of an
    amount that is a number: the fee is [(amount * percentage) / 100] as the
    language computes it, the percentage counting as 0 when the setting is
    missing, zero or not a number; the incoming leg carries
    [amount - fee].  With an amount and a percentage that are not negative
    the fee is not negative.  With a percentage of 0 the fee is 0, the
    incoming leg carries [amount - 0] and no profit is recorded. *)
Theorem internal_transfer_fee_split (fromUserId toUserId : nat)
    (currency chain : string) (a : Q) (db db' : Db) (r : InternalTransferResult) :
  processInternalTransfer fromUserId toUserId currency chain (Num a) db = (db', inr r) ->
  exists p,
    orZero walletTransferFeePercentage = Num p /\
    (walletTransferFeePercentage = None -> p = 0) /\
    (forall n, walletTransferFeePercentage = Some n -> num_truthy n = false -> p = 0) /\
    tx_amount (it_outgoingTransfer r) = Num a /\
    tx_fee (it_outgoingTransfer r) = jdiv100 (jmul (Num a) (Num p)) /\
    tx_amount (it_incomingTransfer r)
    = jsub (Num a) (jdiv100 (jmul (Num a) (Num p))) /\
    (0 <= a -> 0 <= p ->
     exists fee, tx_fee (it_outgoingTransfer r) = Num fee /\ 0 <= fee) /\
    (p == 0 ->
     tx_fee (it_outgoingTransfer r) = jzero /\
     tx_amount (it_incomingTransfer r) = jsub (Num a) jzero /\
     profits db' = profits db).
Proof.
  intros H.
  apply processInternalTransfer_inr in H.
  destruct H as [fromWallet toWallet db1 s' pair F R G Hbody -> Hout Hin].
  apply processInternalTransfer_body_records in Hbody as (Ho & Hi & _ & Hprof).
  destruct R as (_ & _ & _ & Rp & _). cbn [working] in Hprof. rewrite Rp in Hprof.
  destruct (orZero_num walletTransferFeePercentage) as [p Hp].
  exists p. split; [exact Hp |].
  split; [intros E; rewrite E in Hp; inversion Hp; reflexivity |].
  split.
  { intros n E Hn. rewrite E in Hp. cbn [orZero] in Hp. rewrite Hn in Hp.
    inversion Hp. reflexivity. }
  rewrite Hout, Hin, Ho, Hi. unfold transferFee, calculateTransferFee in *.
  rewrite Hp in *. cbn [outgoingLeg incomingLeg tx_amount tx_fee] in *.
  split; [reflexivity |]. split; [reflexivity |]. split; [reflexivity |].
  split.
  - intros Ha Hp0. cbn [jmul jdiv100]. eexists. split; [reflexivity |].
    apply rnd_nonneg. apply Qle_shift_div_l; [reflexivity |].
    rewrite Qmult_0_l. apply rnd_nonneg. apply Qmult_le_0_compat; assumption.
  - intros Hz.
    assert (E : jdiv100 (jmul (Num a) (Num p)) = jzero).
    { cbn [jmul jdiv100]. rewrite (rnd_zero (a * p)) by (rewrite Hz; ring).
      rewrite rnd_zero by reflexivity. reflexivity. }
    rewrite E in *. split; [reflexivity |]. split; [reflexivity |].
    rewrite Hprof. unfold profitRows. cbn. apply app_nil_r.
Qed.

(** ** The client transfer out of an ECO wallet *)

Lemma resolveDestination_eco_client userId b db db1 toWallet toUser :
  WalletType_eqb (fromType b) ECO && isClient (transferType b) = true ->
  resolveDestination userId b db = (db1, inr (toWallet, toUser)) ->
  db1 = db /\
  exists cid, clientId b = Some cid /\
              getWalletByUserIdAndCurrency cid (fromCurrency b) db = Some toWallet.
Proof.
  intros Hk. apply andb_true_iff in Hk as [He Hc].
  unfold resolveDestination. rewrite Hc. intros H.
  apply bind_inr in H as (d1 & [w u] & H & Hr). inversion Hr; subst d1 w toUser.
  clear Hr. unfold handleClientTransfer in H. rewrite He in H.
  destruct (clientId b) as [cid |]; [| discriminate].
  apply bind_inr in H as (d0 & fu & Hf & H).
  unfold user_findByPk, gets in Hf. inversion Hf; subst d0 fu. clear Hf.
  destruct (find (Nat.eqb cid) (users db)); [| discriminate].
  apply bind_inr in H as (d2 & found & Hw & H).
  unfold gets in Hw. inversion Hw; subst d2 found. clear Hw.
  destruct (getWalletByUserIdAndCurrency cid (fromCurrency b) db) as [w |] eqn:G;
    [| discriminate].
  inversion H; subst. split; [reflexivity |]. exists cid. split; [reflexivity | exact G].
Qed.

Lemma eco_client_body_balances transferType fromWallet toWallet parsedAmount
    fromCurrency toCurrency userId clientId fromType toType currencyData t s s' pair :
  transferStatusOf transferType fromType toType = COMPLETED ->
  WalletType_eqb fromType ECO && isClient transferType = true ->
  performTransaction_body transferType fromWallet toWallet parsedAmount fromCurrency
    toCurrency userId clientId fromType toType currencyData t s = (s', inr pair) ->
  working_balances s'
  = credited fromWallet toWallet parsedAmount parsedAmount (precision currencyData)
      (working_balances s).
Proof.
  intros Hs Hk. rewrite performTransaction_body_eq. intros H.
  apply bind_inr in H as (s1 & [] & Hm & H).
  apply recordLegs_balances in H. rewrite H. clear H.
  unfold mutateStep in Hm.
  assert (Hp : requiresPrivateLedgerUpdate transferType fromType toType = false).
  { unfold transferStatusOf in Hs.
    destruct (requiresPrivateLedgerUpdate transferType fromType toType);
      [discriminate | reflexivity]. }
  rewrite Hp in Hm. cbn [negb] in Hm.
  unfold handleCompleteTransfer in Hm. rewrite Hk in Hm.
  unfold handleEcoClientBalanceTransfer in Hm.
  apply bind_inr in Hm as (s2 & fromA & H1 & Hm).
  apply (keeps_lift_outcome working_balances) in H1.
  apply bind_inr in Hm as (s3 & toA & H2 & Hm).
  apply (keeps_lift_outcome working_balances) in H2.
  apply bind_inr in Hm as (s4 & [[e' a'] rem] & H3 & Hm).
  apply (ecoClientLoop_keeps working_balances) in H3.
  2: { intros. apply working_balances_ledger. }
  destruct (jgt rem jzero); [discriminate |].
  apply updateWalletBalances_balances in Hm. rewrite Hm, H3, H2, H1. reflexivity.
Qed.

(** X17.  A client transfer out of an ECO wallet that settles at once
    hands [updateWalletBalances] the requested amount twice: the source
    balance loses the amount and the destination balance gains the whole
    amount, not the amount less the fee, each rounded to the precision of
    the currency.  The incoming transaction record still carries the amount
    less the fee, and the fee is still recorded as a profit when it is
    positive.  The destination wallet is the one the ECO lookup answers
    with, assumed to be a row of the wallet table. *)
Theorem eco_client_transfer_credits_gross (data : Handler) (db db' : Db)
    (r : TransferResponse) :
  createTransfer data db = (db', inr r) ->
  transferStatusOf (transferType (body data)) (fromType (body data))
                   (toType (body data)) = COMPLETED ->
  WalletType_eqb (fromType (body data)) ECO && isClient (transferType (body data))
  = true ->
  NoDup (map w_id (wallets db)) ->
  (forall userId currency w,
     getWalletByUserIdAndCurrency userId currency db = Some w -> In w (wallets db)) ->
  tx_toWallet (r_fromTransfer r) <> tx_fromWallet (r_fromTransfer r) ->
  exists currencyData,
    getCurrencyData (fromType (body data)) (fromCurrency (body data))
    = Some currencyData /\
    BalancesMoved db db' (tx_fromWallet (r_fromTransfer r))
      (tx_toWallet (r_fromTransfer r)) (amount (body data)) (amount (body data))
      (precision currencyData) /\
    tx_amount (r_toTransfer r)
    = jsub (amount (body data)) (transferFee (amount (body data))) /\
    (jgt (transferFee (amount (body data))) jzero = true ->
     List.length (profits db') = S (List.length (profits db))).
Proof.
  intros H Hs Hk Hn Hlook Hne.
  destruct (createTransfer_legs _ _ _ _ H) as (_ & _ & Hin).
  apply createTransfer_inr in H.
  destruct H as [userId fromWallet toWallet toUser db1 cd pair _ _ _ Hf Hr _ Hc Hp ->].
  destruct (resolveDestination_eco_client _ _ _ _ _ _ Hk Hr) as (-> & cid & _ & Hg).
  apply performTransaction_inr in Hp as (_ & s' & Hb & ->).
  pose proof (performTransaction_body_records _ _ _ _ _ _ _ _ _ _ _ _ _ _ _ Hb)
    as (Hout & _ & _ & Hprof).
  apply eco_client_body_balances in Hb; [| assumption | assumption].
  cbn [r_fromTransfer r_toTransfer] in *. rewrite Hout in *. unfold outgoingLeg in *.
  cbn [tx_fromWallet tx_toWallet] in *.
  exists cd. split; [exact Hc |]. split; [| split; [exact Hin |]].
  - apply balances_moved.
    + exact Hn.
    + apply wallet_findOne_some in Hf. tauto.
    + eapply Hlook. exact Hg.
    + exact Hne.
    + exact Hb.
  - intros Hfee. cbn [working] in Hprof. rewrite Hprof. unfold profitRows.
    rewrite Hfee. rewrite length_app. cbn [List.length]. apply Nat.add_1_r.
Qed.

(** ** The answer of an internal transfer *)

Lemma wallet_keys_update_row id f db :
  (forall w, wallet_key (f w) = wallet_key w) ->
  wallet_keys (update_row id f db) = wallet_keys db.
Proof.
  intros Hf. unfold wallet_keys, update_row. cbn [wallets]. rewrite map_map.
  apply map_ext. intros w. destruct (Nat.eqb (w_id w) id); [apply Hf | reflexivity].
Qed.

Lemma find_by_keys userId currency type l :
  forall l' w,
    map wallet_key l' = map wallet_key l ->
    find (wallet_matches userId currency type) l = Some w ->
    exists w', find (wallet_matches userId currency type) l' = Some w' /\
               w_id w' = w_id w /\ In w' l'.
Proof.
  induction l as [| x l IH]; intros l' w Hk F; [discriminate |].
  destruct l' as [| x' l']; [discriminate |].
  cbn [map] in Hk. unfold wallet_key at 1 3 in Hk. injection Hk as Hi Hu Hc Ht Hl.
  assert (Hm : wallet_matches userId currency type x'
               = wallet_matches userId currency type x).
  { unfold wallet_matches. rewrite Hu, Hc, Ht. reflexivity. }
  cbn [find] in *. rewrite Hm.
  destruct (wallet_matches userId currency type x).
  - inversion F; subst. exists x'. split; [reflexivity |].
    split; [exact Hi | left; reflexivity].
  - destruct (IH l' w Hl F) as (w' & Hf & Hi' & Hin).
    exists w'. split; [exact Hf |]. split; [exact Hi' | right; exact Hin].
Qed.

Lemma wallet_keys_ids db : map w_id (wallets db) = map (fun k => fst (fst (fst k))) (wallet_keys db).
Proof. unfold wallet_keys. rewrite map_map. reflexivity. Qed.

Lemma internal_body_keys fromUserId toUserId currency fromWallet toWallet parsedAmount
    fee received t :
  keeps (fun s => wallet_keys (working s))
    (processInternalTransfer_body fromUserId toUserId currency fromWallet toWallet
       parsedAmount fee received t).
Proof.
  rewrite processInternalTransfer_body_eq.
  assert (Fl : forall walletId index cur ch a h,
             keeps (fun s => wallet_keys (working s))
               (updatePrivateLedger walletId index cur ch a h)).
  { intros. apply (keeps_dbWrite_working wallet_keys). reflexivity. }
  assert (Fb : forall wallet b h,
             keeps (fun s => wallet_keys (working s))
               (wallet_update_balance wallet b (Some h))).
  { intros. apply (keeps_dbWrite_working wallet_keys).
    intros d. apply wallet_keys_update_row. reflexivity. }
  assert (Fa : forall wallet a h,
             keeps (fun s => wallet_keys (working s))
               (wallet_update_address wallet a (Some h))).
  { intros. apply (keeps_dbWrite_working wallet_keys).
    intros d. apply wallet_keys_update_row. reflexivity. }
  apply keeps_bind.
  - unfold internalEcoStep. destruct (_ && _); [| apply keeps_ret].
    apply keeps_bind; [apply deductFromEcoWallet_keeps; auto | intros ds].
    apply keeps_bind; [apply addToEcoWallet_keeps; auto | intros _].
    destruct (getCurrencyData _ _); [apply keeps_ret | apply keeps_throw].
  - intros prec. apply keeps_bind.
    + apply updateWalletBalances_keeps. exact Fb.
    + intros _. apply (recordLegs_keeps_working wallet_keys). reflexivity.
Qed.

Lemma processInternalTransfer_answer fromUserId toUserId currency chain amount db db' r :
  processInternalTransfer fromUserId toUserId currency chain amount db = (db', inr r) ->
  exists fromWallet toWallet db1 s' pair,
    find (wallet_matches fromUserId currency ECO) (wallets db) = Some fromWallet /\
    resolved db db1 /\
    processInternalTransfer_body fromUserId toUserId currency fromWallet toWallet
      amount (transferFee amount) (jsub amount (transferFee amount)) TxH
      (mkTxState db1 db1) = (s', inr pair) /\
    db' = working s' /\
    r = mkInternalResult (fromTransfer pair) (toTransfer pair)
          (option_map w_balance
             (find (wallet_matches fromUserId currency ECO) (wallets db')))
          chain currency.
Proof.
  unfold processInternalTransfer. intros H.
  apply bind_inr in H as (d1 & fw & Hw & H).
  unfold wallet_findOne, gets in Hw. inversion Hw; subst d1 fw. clear Hw.
  destruct (find (wallet_matches fromUserId currency ECO) (wallets db))
    as [fromWallet |] eqn:F; [| discriminate].
  apply bind_inr in H as (d1 & found & Hw & H).
  unfold wallet_findOne, gets in Hw. inversion Hw; subst d1 found. clear Hw.
  apply bind_inr in H as (db1 & toWallet & Hc & H).
  assert (R : resolved db db1).
  { destruct (find (wallet_matches toUserId currency ECO) (wallets db)).
    - inversion Hc; subst. apply resolved_refl.
    - eapply wallet_create_resolved; eauto. }
  destruct (jlt (w_balance fromWallet) amount) eqn:G; [discriminate |].
  apply bind_inr in H as (db2 & pair & Hp & H).
  apply sequelize_transaction_inr in Hp as (s' & Hb & ->).
  apply bind_inr in H as (db3 & uw & Hu & H).
  unfold wallet_findOne, gets in Hu. inversion Hu; subst db3 uw. clear Hu.
  inversion H; subst db' r. clear H.
  exists fromWallet, toWallet, db1, s', pair.
  split; [reflexivity |]. split; [exact R |]. split; [exact Hb |].
  split; reflexivity.
Qed.

(** X18.  What a successful [processInternalTransfer] answers.  The
    balance it reports is the aggregate balance the sender's ECO wallet has
    after the transfer, read back from the store.  The [chain] argument is
    only echoed as [method]: it does not select the chain that is debited,
    and the store and the two transaction records are the same whatever
    chain is asked for. *)
Theorem internal_transfer_answer (fromUserId toUserId : nat) (currency chain : string)
    (amount : jsnum) (db db' : Db) (r : InternalTransferResult) :
  processInternalTransfer fromUserId toUserId currency chain amount db = (db', inr r) ->
  it_method r = chain /\ it_currency r = currency /\
  (NoDup (map w_id (wallets db)) ->
   it_balance r <> None /\
   it_balance r = balance_of (tx_fromWallet (it_outgoingTransfer r)) db') /\
  (forall chain',
     processInternalTransfer fromUserId toUserId currency chain' amount db
     = (db', inr (mkInternalResult (it_outgoingTransfer r) (it_incomingTransfer r)
                    (it_balance r) chain' currency))).
Proof.
  intros H. pose proof H as H0.
  apply processInternalTransfer_answer in H
    as (fromWallet & toWallet & db1 & s' & pair & F & R & Hbody & -> & ->).
  cbn [it_method it_currency it_balance it_outgoingTransfer it_incomingTransfer].
  split; [reflexivity |]. split; [reflexivity |]. split.
  - intros Hn.
    pose proof (processInternalTransfer_body_records _ _ _ _ _ _ _ _ _ _ _ _ Hbody)
      as (Hout & _).
    rewrite Hout. cbn [outgoingLeg tx_fromWallet].
    assert (K : wallet_keys (working s') = wallet_keys db1).
    { revert Hbody. generalize (@inr HttpError TransferPair pair). intros r0 Hbody.
      apply internal_body_keys in Hbody. exact Hbody. }
    assert (F1 : find (wallet_matches fromUserId currency ECO) (wallets db1)
                 = Some fromWallet).
    { destruct R as (_ & _ & _ & _ & [Hw | (w & Hw & _)]); rewrite Hw.
      - exact F.
      - apply find_app_some. exact F. }
    destruct (find_by_keys fromUserId currency ECO (wallets db1) (wallets (working s'))
                fromWallet K F1) as (w' & Fw & Hid & Hin).
    rewrite Fw. cbn [option_map]. split; [discriminate |].
    assert (Hn' : NoDup (map w_id (wallets (working s')))).
    { rewrite wallet_keys_ids, K, <- wallet_keys_ids.
      apply (resolved_NoDup _ _ R Hn). }
    rewrite balance_of_balances. rewrite <- Hid.
    pose proof (NoDup_lookup _ _ Hn' Hin) as L. unfold lookup in L.
    unfold balances. symmetry. exact L.
  - intros chain'. revert H0. unfold processInternalTransfer, bind.
    repeat match goal with
           | |- context [match ?x with _ => _ end] => destruct x
           end; intros E; inversion E; subst; try reflexivity.
Qed.

End TransferEngine.

(** * The fee setting *)

Section FeeSetting.

Variable JSON_parse : string -> Outcome SyntaxError JsValue.
Variable JSON_stringify : JsValue -> string.
Variable inheritedMember : JsTypeof -> string -> bool.
Variable getWalletByUserIdAndCurrency : nat -> string -> Db -> option Wallet.
Variable getCurrencyData : WalletType -> string -> option CurrencyData.
Variable getSortedChainBalances : JsValue -> list (string * ChainInfo).
Variable requiresPrivateLedgerUpdate : string -> WalletType -> WalletType -> bool.

(** The two entry points under the setting [fee] of
    [walletTransferFeePercentage]. *)
Local Abbreviation handler fee :=
  (createTransfer JSON_parse JSON_stringify inheritedMember
     getWalletByUserIdAndCurrency getCurrencyData getSortedChainBalances
     requiresPrivateLedgerUpdate fee).

Local Abbreviation internal fee :=
  (processInternalTransfer JSON_parse JSON_stringify inheritedMember getCurrencyData
     fee).

(** C7.  A transfer that succeeds appends one admin profit record when the
    computed fee is strictly positive and none otherwise; the record
    carries the fee and the id of the OUTGOING_TRANSFER row.  Whether a
    transfer succeeds does not depend on the fee setting: a transfer that
    succeeds under one setting succeeds under every other, and when the fee
    it computes there is 0 it succeeds with no profit record.  This holds
    for the handler and for [processInternalTransfer]. *)
Theorem profit_record_iff_fee :
  (forall fee data db db' r,
     handler fee data db = (db', inr r) ->
     let b := body data in
     let charged := transferFee fee (amount b) in
     (jgt charged jzero = true ->
      exists payer,
        user data = Some payer /\
        profits db' = profits db
          ++ [mkAdminProfit payer charged (fromCurrency b) (fromType b) (toType b)
                            (tx_id (r_fromTransfer r))]) /\
     (jgt charged jzero = false -> profits db' = profits db) /\
     (List.length (profits db') = S (List.length (profits db))
      <-> jgt charged jzero = true)) /\
  (forall fee fromUserId toUserId currency chain amount db db' r,
     internal fee fromUserId toUserId currency chain amount db = (db', inr r) ->
     let charged := transferFee fee amount in
     (jgt charged jzero = true ->
      profits db' = profits db
        ++ [mkAdminProfit fromUserId charged currency ECO ECO
                          (tx_id (it_outgoingTransfer r))]) /\
     (jgt charged jzero = false -> profits db' = profits db) /\
     (List.length (profits db') = S (List.length (profits db))
      <-> jgt charged jzero = true)) /\
  (forall fee fee' data db db' r,
     handler fee data db = (db', inr r) ->
     exists db'' r',
       handler fee' data db = (db'', inr r') /\
       (jgt (transferFee fee' (amount (body data))) jzero = false ->
        profits db'' = profits db)) /\
  (forall fee fee' fromUserId toUserId currency chain amount db db' r,
     internal fee fromUserId toUserId currency chain amount db = (db', inr r) ->
     exists db'' r',
       internal fee' fromUserId toUserId currency chain amount db = (db'', inr r') /\
       (jgt (transferFee fee' amount) jzero = false -> profits db'' = profits db)).
Proof.
  split; [intros fee data db db' r; apply createTransfer_profits |].
  split; [intros fee fromUserId toUserId currency chain amount db db' r;
          apply processInternalTransfer_profits |].
  split.
  - intros fee fee' data db db' r H.
    assert (A : exists db'' r',
              createTransfer JSON_parse JSON_stringify inheritedMember
                getWalletByUserIdAndCurrency getCurrencyData getSortedChainBalances
                requiresPrivateLedgerUpdate fee' data db = (db'', inr r')).
    { apply createTransfer_accepts_iff.
      apply (createTransfer_accepts_iff JSON_parse JSON_stringify inheritedMember
               getWalletByUserIdAndCurrency getCurrencyData getSortedChainBalances
               requiresPrivateLedgerUpdate fee).
      exists db', r. exact H. }
    destruct A as (db'' & r' & H').
    exists db'', r'. split; [exact H' |].
    apply createTransfer_profits in H'. apply H'.
  - intros fee fee' fromUserId toUserId currency chain amount db db' r H.
    assert (A : exists db'' r',
              processInternalTransfer JSON_parse JSON_stringify inheritedMember
                getCurrencyData fee' fromUserId toUserId currency chain amount db
              = (db'', inr r')).
    { apply processInternalTransfer_accepts_iff.
      apply (processInternalTransfer_accepts_iff JSON_parse JSON_stringify
               inheritedMember getCurrencyData fee fromUserId toUserId currency chain).
      exists db', r. exact H. }
    destruct A as (db'' & r' & H').
    exists db'', r'. split; [exact H' |].
    apply processInternalTransfer_profits in H'. apply H'.
Qed.

End FeeSetting.

(** * The engine on the sample store *)

Abbreviation sample_createTransfer :=
  (createTransfer sample_JSON_parse sample_JSON_stringify sample_inheritedMember
     sample_getWalletByUserIdAndCurrency sample_getCurrencyData
     sample_getSortedChainBalances sample_requiresPrivateLedgerUpdate sample_fee).

Abbreviation sample_processInternalTransfer :=
  (processInternalTransfer sample_JSON_parse sample_JSON_stringify
     sample_inheritedMember sample_getCurrencyData sample_fee).

Lemma sample_db_ids : NoDup (map w_id (wallets sample_db)).
Proof.
  simpl. repeat constructor; simpl; intuition discriminate.
Qed.

(** ** Parsing addresses *)

Lemma parseAddresses_total_witness :
  sample_JSON_parse "" = Thrown JsonSyntaxError /\
  parseAddresses sample_JSON_parse (JsString "{}") = Returned (JsObject []) /\
  parseAddresses sample_JSON_parse (JsString "{oops") = Returned emptyObject.
Proof.
  split; [reflexivity |].
  split.
  - destruct (parseAddresses_total sample_JSON_parse eq_refl (JsString "{}"))
      as (_ & _ & _ & _ & H & _).
    apply (H "{}" (JsObject [])); reflexivity.
  - destruct (parseAddresses_total sample_JSON_parse eq_refl (JsString "{oops"))
      as (_ & _ & _ & H & _).
    apply (H "{oops" JsonSyntaxError); reflexivity.
Defined.

(** C10, counterexample.  The texts [null] and [5] are well-formed JSON:
    [parseAddresses] returns [null] and the number 5 for them, neither of
    which is a chain map.  A credit to a wallet whose address column holds
    the text [null] then ends with a [TypeError]. *)
Lemma parsed_text_need_not_be_a_map :
  parseAddresses sample_JSON_parse (JsString "null") = Returned JsNull /\
  parseAddresses sample_JSON_parse (JsString "5") = Returned (JsNumber (Num 5)) /\
  (forall m, parseAddresses sample_JSON_parse (JsString "null")
             <> Returned (JsObject m)) /\
  (forall m, parseAddresses sample_JSON_parse (JsString "5")
             <> Returned (JsObject m)) /\
  addToEcoWallet sample_JSON_parse sample_JSON_stringify sample_inheritedMember
    (mkWallet 4 2 "USDT" ECO (Num 0) (JsString "null") true)
    [mkDetail chainA (Num 1)] "USDT" TxH (mkTxState sample_db sample_db)
  = (mkTxState sample_db sample_db,
     inl (typeError "Cannot access a property of a value that is not an object")).
Proof.
  split; [reflexivity |]. split; [reflexivity |].
  split; [intros m; discriminate |]. split; [intros m; discriminate |].
  reflexivity.
Qed.

(** ** Routes *)

(** C4, counterexample.  A client transfer from a FIAT wallet with requested
    destination type FIAT, a pair outside the route table and a same-type
    pair, is accepted. *)
Lemma client_transfer_outside_route_table :
  spec_route_table FIAT FIAT = false /\
  exists db' r,
    sample_createTransfer (sample_request FIAT FIAT (Num 5) "client" (Some 2%nat))
                          sample_db = (db', inr r).
Proof.
  split; [reflexivity |]. eexists; eexists. vm_compute. reflexivity.
Qed.

Lemma wallet_transfer_route_table_witness :
  isClient "wallet" = false /\
  spec_route_table FIAT FUTURES = false /\
  sample_createTransfer (sample_request FIAT FUTURES (Num 5) "wallet" None) sample_db
  = (sample_db, inl (createError 400 "Invalid wallet type transfer")).
Proof.
  split; [reflexivity |]. split; [reflexivity |].
  destruct (wallet_transfer_route_table sample_JSON_parse sample_JSON_stringify
    sample_inheritedMember
              sample_getWalletByUserIdAndCurrency sample_getCurrencyData
              sample_getSortedChainBalances sample_requiresPrivateLedgerUpdate
              sample_fee (sample_request FIAT FUTURES (Num 5) "wallet" None)
              sample_db eq_refl) as (_ & H & _).
  destruct (H eq_refl) as [E _]. exact E.
Defined.

(** ** Client destinations *)



(** ** Transaction and profit records *)

Lemma transfer_records_two_legs_witness :
  (exists db' r,
     sample_createTransfer (sample_request FIAT SPOT (Num 100) "wallet" None) sample_db
     = (db', inr r) /\
     transactions db' = transactions sample_db ++ [r_fromTransfer r; r_toTransfer r] /\
     tx_type (r_fromTransfer r) = OUTGOING_TRANSFER /\
     tx_amount (r_fromTransfer r) = Num 100 /\
     tx_fee (r_fromTransfer r) = transferFee sample_fee (Num 100)) /\
  (exists db' r,
     sample_processInternalTransfer 1%nat 2%nat "USDT" chainA (Num 100) sample_db
     = (db', inr r) /\
     transactions db'
     = transactions sample_db ++ [it_outgoingTransfer r; it_incomingTransfer r] /\
     tx_type (it_outgoingTransfer r) = OUTGOING_TRANSFER /\
     tx_amount (it_outgoingTransfer r) = Num 100 /\
     tx_fee (it_outgoingTransfer r) = transferFee sample_fee (Num 100) /\
     tx_type (it_incomingTransfer r) = INCOMING_TRANSFER /\
     tx_amount (it_incomingTransfer r)
     = jsub (Num 100) (transferFee sample_fee (Num 100))).
Proof.
  split.
  - eexists; eexists. split; [vm_compute; reflexivity |].
    refine (let P := proj1 (transfer_records_two_legs sample_JSON_parse
                              sample_JSON_stringify sample_inheritedMember
                              sample_getWalletByUserIdAndCurrency
                              sample_getCurrencyData sample_getSortedChainBalances
                              sample_requiresPrivateLedgerUpdate sample_fee)
                           (sample_request FIAT SPOT (Num 100) "wallet" None)
                           sample_db _ _ _ in
            conj (proj1 P)
                 (conj (proj1 (proj2 P))
                       (conj (proj1 (proj2 (proj2 P)))
                             (proj1 (proj2 (proj2 (proj2 P))))))).
    vm_compute. reflexivity.
  - eexists; eexists. split; [vm_compute; reflexivity |].
    refine (let P := proj2 (transfer_records_two_legs sample_JSON_parse
                              sample_JSON_stringify sample_inheritedMember
                              sample_getWalletByUserIdAndCurrency
                              sample_getCurrencyData sample_getSortedChainBalances
                              sample_requiresPrivateLedgerUpdate sample_fee)
                           1%nat 2%nat "USDT" chainA (Num 100) sample_db _ _ _ in
            conj (proj1 P)
                 (conj (proj1 (proj2 P))
                       (conj (proj1 (proj2 (proj2 P)))
                             (conj (proj1 (proj2 (proj2 (proj2 P))))
                                   (conj (proj1 (proj2 (proj2 (proj2 (proj2 P)))))
                                         (proj1 (proj2 (proj2 (proj2 (proj2
                                                   (proj2 P))))))))))).
    vm_compute. reflexivity.
Defined.

(** The two entry points on the sample collaborators, under a given
    setting of the fee percentage. *)
Abbreviation sample_createTransfer_at fee :=
  (createTransfer sample_JSON_parse sample_JSON_stringify sample_inheritedMember
     sample_getWalletByUserIdAndCurrency sample_getCurrencyData
     sample_getSortedChainBalances sample_requiresPrivateLedgerUpdate fee).

Abbreviation sample_processInternalTransfer_at fee :=
  (processInternalTransfer sample_JSON_parse sample_JSON_stringify
     sample_inheritedMember sample_getCurrencyData fee).

Lemma profit_record_iff_fee_witness :
  (exists db' r,
     sample_createTransfer_at sample_fee
       (sample_request FIAT SPOT (Num 100) "wallet" None) sample_db = (db', inr r) /\
     jgt (transferFee sample_fee (Num 100)) jzero = true /\
     exists payer,
       Some 1%nat = Some payer /\
       profits db'
       = profits sample_db
         ++ [mkAdminProfit payer (transferFee sample_fee (Num 100)) "USDT" FIAT SPOT
                           (tx_id (r_fromTransfer r))]) /\
  (exists db' r,
     sample_processInternalTransfer_at sample_fee 1%nat 2%nat "USDT" chainA
       (Num 100) sample_db = (db', inr r) /\
     jgt (transferFee sample_fee (Num 100)) jzero = true /\
     profits db'
     = profits sample_db
       ++ [mkAdminProfit 1 (transferFee sample_fee (Num 100)) "USDT" ECO ECO
                         (tx_id (it_outgoingTransfer r))]) /\
  (exists db' r,
     sample_createTransfer_at None
       (sample_request FIAT SPOT (Num 100) "wallet" None) sample_db = (db', inr r) /\
     jgt (transferFee None (Num 100)) jzero = false /\
     profits db' = profits sample_db) /\
  (exists db' r,
     sample_processInternalTransfer_at (Some (Num 0)) 1%nat 2%nat "USDT" chainA
       (Num 100) sample_db = (db', inr r) /\
     jgt (transferFee (Some (Num 0)) (Num 100)) jzero = false /\
     profits db' = profits sample_db) /\
  (exists db' r,
     sample_createTransfer_at None
       (sample_request FIAT SPOT (Num 100) "wallet" None) sample_db = (db', inr r) /\
     profits db' = profits sample_db) /\
  (exists db' r,
     sample_processInternalTransfer_at None 1%nat 2%nat "USDT" chainA (Num 100)
       sample_db = (db', inr r) /\
     profits db' = profits sample_db).
Proof.
  pose proof (profit_record_iff_fee sample_JSON_parse sample_JSON_stringify
       sample_inheritedMember sample_getWalletByUserIdAndCurrency
       sample_getCurrencyData sample_getSortedChainBalances
       sample_requiresPrivateLedgerUpdate) as T.
  split; [| split; [| split; [| split; [| split]]]].
  - eexists; eexists. split; [vm_compute; reflexivity |].
    split; [reflexivity |].
    refine (proj1 (proj1 T sample_fee
                     (sample_request FIAT SPOT (Num 100) "wallet" None)
                     sample_db _ _ _) _).
    + vm_compute. reflexivity.
    + reflexivity.
  - eexists; eexists. split; [vm_compute; reflexivity |].
    split; [reflexivity |].
    refine (proj1 (proj1 (proj2 T) sample_fee
                     1%nat 2%nat "USDT" chainA (Num 100) sample_db _ _ _) _).
    + vm_compute. reflexivity.
    + reflexivity.
  - eexists; eexists. split; [vm_compute; reflexivity |].
    split; [reflexivity |].
    refine (proj1 (proj2 (proj1 T None
                            (sample_request FIAT SPOT (Num 100) "wallet" None)
                            sample_db _ _ _)) _).
    + vm_compute. reflexivity.
    + reflexivity.
  - eexists; eexists. split; [vm_compute; reflexivity |].
    split; [reflexivity |].
    refine (proj1 (proj2 (proj1 (proj2 T) (Some (Num 0))
                            1%nat 2%nat "USDT" chainA (Num 100) sample_db _ _ _)) _).
    + vm_compute. reflexivity.
    + reflexivity.
  - destruct (proj1 (proj2 (proj2 T)) sample_fee None
                (sample_request FIAT SPOT (Num 100) "wallet" None) sample_db
                _ _ ltac:(vm_compute; reflexivity)) as (db'' & r' & Hrun & Hp).
    exists db'', r'. split; [exact Hrun | apply Hp; reflexivity].
  - destruct (proj2 (proj2 (proj2 T)) sample_fee None
                1%nat 2%nat "USDT" chainA (Num 100) sample_db
                _ _ ltac:(vm_compute; reflexivity)) as (db'' & r' & Hrun & Hp).
    exists db'', r'. split; [exact Hrun | apply Hp; reflexivity].
Defined.

(** ** A PENDING transfer *)

Lemma pending_transfer_debits_source_only_witness :
  exists db' r,
    sample_createTransfer (sample_request ECO FUTURES (Num 100) "wallet" None) sample_db
    = (db', inr r) /\
    transferStatusOf sample_requiresPrivateLedgerUpdate "wallet" ECO FUTURES = PENDING /\
    tx_toWallet (r_fromTransfer r) = 5%nat /\
    balance_of 5 sample_db = Some (Num 7) /\
    balance_of 5 db' = Some (Num 7) /\
    ledger db' = ledger sample_db.
Proof.
  eexists; eexists. split; [vm_compute; reflexivity |].
  split; [reflexivity |]. split; [reflexivity |]. split; [reflexivity |].
  destruct (pending_transfer_debits_source_only sample_JSON_parse sample_JSON_stringify
    sample_inheritedMember
              sample_getWalletByUserIdAndCurrency sample_getCurrencyData
              sample_getSortedChainBalances sample_requiresPrivateLedgerUpdate
              sample_fee (sample_request ECO FUTURES (Num 100) "wallet" None)
              sample_db _ _ ltac:(vm_compute; reflexivity) eq_refl)
    as (fromWallet & cd & db1 & _ & _ & _ & _ & _ & Hl & _ & _ & Hb & _).
  split; [| exact Hl].
  apply (Hb 5%nat (Num 7)); [discriminate | reflexivity].
Defined.

(** ** Balance deltas *)

(** C1, counterexample.  Three transfers that succeed on the sample store
    with a fee of one percent.  (1) ECO to FUTURES, status PENDING, amount
    100: the destination balance stays 7.  (2) FIAT to SPOT, status
    COMPLETED, amount 0.004 at precision 2: the source balance stays 100.
    (3) A client transfer of 5 from a FIAT wallet to its own owner, status
    COMPLETED: the balance of the wallet goes up. *)
Lemma transfer_balance_deltas_differ :
  (exists db' r dstAfter,
     sample_createTransfer (sample_request ECO FUTURES (Num 100) "wallet" None)
                           sample_db = (db', inr r) /\
     balance_of 5 sample_db = Some (Num 7) /\
     balance_of 5 db' = Some dstAfter /\
     ~ jeq (jsub dstAfter (Num 7))
           (jsub (Num 100) (transferFee sample_fee (Num 100)))) /\
  (exists db' r srcAfter,
     sample_createTransfer (sample_request FIAT SPOT (Num (4 # 1000)) "wallet" None)
                           sample_db = (db', inr r) /\
     tx_status (r_fromTransfer r) = COMPLETED /\
     balance_of 1 sample_db = Some (Num 100) /\
     balance_of 1 db' = Some srcAfter /\
     ~ jeq (jsub (Num 100) srcAfter) (Num (4 # 1000))) /\
  (exists db' r srcAfter,
     sample_createTransfer (sample_request FIAT FIAT (Num 5) "client" (Some 1%nat))
                           sample_db = (db', inr r) /\
     tx_status (r_fromTransfer r) = COMPLETED /\
     balance_of 1 sample_db = Some (Num 100) /\
     balance_of 1 db' = Some srcAfter /\
     ~ jeq (jsub (Num 100) srcAfter) (Num 5)).
Proof.
  split; [| split].
  - eexists; eexists; eexists. split; [vm_compute; reflexivity |].
    split; [reflexivity |]. split; [vm_compute; reflexivity |].
    vm_compute. discriminate.
  - eexists; eexists; eexists. split; [vm_compute; reflexivity |].
    split; [reflexivity |]. split; [reflexivity |].
    split; [vm_compute; reflexivity |]. vm_compute. discriminate.
  - eexists; eexists; eexists. split; [vm_compute; reflexivity |].
    split; [reflexivity |]. split; [reflexivity |].
    split; [vm_compute; reflexivity |]. vm_compute. discriminate.
Qed.

(** A client transfer of 100 from an ECO wallet with a fee of one percent:
    [handleEcoClientBalanceTransfer] hands [updateWalletBalances] the gross
    amount twice, so the destination gains 100 while the INCOMING_TRANSFER
    record says 99 and a profit of 1 is recorded;
    [handleNonClientTransfer] hands it the amount less the fee. *)
Lemma eco_client_destination_credited_gross :
  exists db' r dstAfter,
    sample_createTransfer (sample_request ECO ECO (Num 100) "client" (Some 2%nat))
                          sample_db = (db', inr r) /\
    tx_status (r_fromTransfer r) = COMPLETED /\
    balance_of 4 sample_db = Some (Num 0) /\
    balance_of 4 db' = Some dstAfter /\
    jeq (jsub dstAfter (Num 0)) (Num 100) /\
    jeq (tx_amount (r_toTransfer r)) (Num 99) /\
    List.length (profits db') = 1%nat.
Proof.
  eexists; eexists; eexists. split; [vm_compute; reflexivity |].
  split; [reflexivity |]. split; [reflexivity |].
  split; [vm_compute; reflexivity |].
  split; [vm_compute; reflexivity |].
  split; vm_compute; reflexivity.
Qed.

Lemma completed_transfer_balances_witness :
  (exists db' r,
     sample_createTransfer (sample_request FIAT SPOT (Num 100) "wallet" None) sample_db
     = (db', inr r) /\
     transferStatusOf sample_requiresPrivateLedgerUpdate "wallet" FIAT SPOT = COMPLETED /\
     exists currencyData db1,
       sample_getCurrencyData FIAT "USDT" = Some currencyData /\
       resolved sample_db db1 /\
       BalancesMoved db1 db' (tx_fromWallet (r_fromTransfer r))
         (tx_toWallet (r_fromTransfer r)) (Num 100)
         (jsub (Num 100) (transferFee sample_fee (Num 100)))
         (precision currencyData)) /\
  (exists db' r,
     sample_processInternalTransfer 1%nat 2%nat "USDT" chainA (Num 100) sample_db
     = (db', inr r) /\
     tx_fromWallet (it_outgoingTransfer r) = 3%nat /\
     tx_toWallet (it_outgoingTransfer r) = 4%nat /\
     exists currencyData db1,
       sample_getCurrencyData ECO "USDT" = Some currencyData /\
       resolved sample_db db1 /\
       BalancesMoved db1 db' (tx_fromWallet (it_outgoingTransfer r))
         (tx_toWallet (it_outgoingTransfer r)) (Num 100)
         (jsub (Num 100) (transferFee sample_fee (Num 100)))
         (precision currencyData)).
Proof.
  split.
  - eexists; eexists. split; [vm_compute; reflexivity |].
    split; [reflexivity |].
    refine (proj1 (completed_transfer_balances sample_JSON_parse sample_JSON_stringify
                     sample_inheritedMember sample_getWalletByUserIdAndCurrency
                     sample_getCurrencyData sample_getSortedChainBalances
                     sample_requiresPrivateLedgerUpdate sample_fee)
                  (sample_request FIAT SPOT (Num 100) "wallet" None) sample_db
                  _ _ _ eq_refl eq_refl sample_db_ids _).
    + vm_compute. reflexivity.
    + vm_compute. discriminate.
  - eexists; eexists. split; [vm_compute; reflexivity |].
    split; [reflexivity |]. split; [reflexivity |].
    refine (proj2 (completed_transfer_balances sample_JSON_parse sample_JSON_stringify
                     sample_inheritedMember sample_getWalletByUserIdAndCurrency
                     sample_getCurrencyData sample_getSortedChainBalances
                     sample_requiresPrivateLedgerUpdate sample_fee)
                  1%nat 2%nat "USDT" chainA (Num 100) sample_db
                  _ _ _ sample_db_ids _).
    + vm_compute. reflexivity.
    + vm_compute. discriminate.
Defined.

(** ** Chain deductions *)

(** The ECO wallet of user 1 and of user 2 in the sample store. *)
Abbreviation sample_eco_wallet :=
  (mkWallet 3 1 "USDT" ECO (Num 110) sample_addresses true).

Abbreviation sample_empty_eco_wallet :=
  (mkWallet 4 2 "USDT" ECO (Num 0) (JsObject []) true).



(** Two further runs of [deductFromEcoWallet].  Chains that hold 0.1 and
    0.7 do not cover a requested 0.8: 0.8 - 0.1 is the double
    0.7000000000000001, the second chain leaves about 1.1e-16 to find and the
    deduction throws.  And a map with a chain named [hasOwnProperty] makes
    the loop throw a [TypeError] before it writes anything. *)
Lemma deduction_runs_on_doubles :
  (exists s',
     deductFromEcoWallet sample_JSON_parse sample_JSON_stringify
       (mkWallet 3 1 "USDT" ECO (Num 1)
          (JsObject [(chainA, mkChainInfo None None (lit (1 # 10)));
                     (chainB, mkChainInfo None None (lit (7 # 10)))]) true)
       (lit (8 # 10)) "USDT" TxH (mkTxState sample_db sample_db)
     = (s', inl (createError 400
                   "Insufficient chain balance to complete the transfer"))) /\
  jeq (jsub (lit (8 # 10)) (lit (1 # 10))) (lit (7000000000000001 # 10000000000000000)) /\
  deductFromEcoWallet sample_JSON_parse sample_JSON_stringify
    (mkWallet 3 1 "USDT" ECO (Num 1)
       (JsObject [("hasOwnProperty", mkChainInfo None None (Num 5))]) true)
    (Num 1) "USDT" TxH (mkTxState sample_db sample_db)
  = (mkTxState sample_db sample_db,
     inl (typeError "addresses.hasOwnProperty is not a function")).
Proof.
  split; [eexists; vm_compute; reflexivity |].
  split; vm_compute; reflexivity.
Qed.

(** ** A failed deduction *)

(** C3.  On the sample store user 1 moves 10 from the SPOT wallet to the ECO
    wallet, which raises the aggregate balance of the ECO wallet to 119.9
    while its chains still hold 30 and 80.  An internal transfer of 115 then
    passes the aggregate check and fails in [deductFromEcoWallet] with the
    insufficient-chain-balance error.  The wallets and the transaction
    records are those from before the failed transfer, but the two rows that
    the loop wrote to the private ledger without the transaction handle
    remain. *)
Theorem failed_deduction_leaves_ledger_rows :
  exists db1 r1 db2,
    sample_createTransfer (sample_request SPOT ECO (Num 10) "wallet" None) sample_db
    = (db1, inr r1) /\
    sample_processInternalTransfer 1%nat 2%nat "USDT" chainA (Num 115) db1
    = (db2, inl (createError 400 "Insufficient chain balance to complete the transfer")) /\
    wallets db2 = wallets db1 /\
    transactions db2 = transactions db1 /\
    profits db2 = profits db1 /\
    ledger db1 = [] /\
    ledger db2 = [mkLedgerEntry 3 0 "USDT" chainA (jneg (Num 30));
                  mkLedgerEntry 3 0 "USDT" chainB (jneg (Num 80))] /\
    db2 <> db1.
Proof.
  eexists; eexists; eexists.
  split; [vm_compute; reflexivity |].
  split; [vm_compute; reflexivity |].
  repeat (split; [vm_compute; reflexivity |]).
  vm_compute. discriminate.
Qed.

(** ** An amount that is not a number *)

(** C8, counterexample.  A FIAT to SPOT request whose amount is [NaN] is not
    rejected: it is accepted and two transaction records are written. *)
Lemma nan_amount_is_accepted :
  (exists db' r,
     sample_createTransfer (sample_request FIAT SPOT NaN "wallet" None) sample_db
     = (db', inr r) /\
     map tx_amount (transactions db') = [NaN; NaN] /\
     balance_of 1 db' = Some NaN) /\
  ~ (exists e,
       sample_createTransfer (sample_request FIAT SPOT NaN "wallet" None) sample_db
       = (sample_db, inl e)).
Proof.
  split.
  - eexists; eexists. repeat split; vm_compute; reflexivity.
  - intros [e H]. vm_compute in H. discriminate.
Qed.

Lemma nan_amount_passes_guards_witness :
  amount (body (sample_request FIAT SPOT NaN "wallet" None)) = NaN /\
  exists db' r,
    sample_createTransfer (sample_request FIAT SPOT NaN "wallet" None) sample_db
    = (db', inr r) /\
    tx_amount (r_fromTransfer r) = NaN /\ tx_amount (r_toTransfer r) = NaN /\
    transactions db' = transactions sample_db ++ [r_fromTransfer r; r_toTransfer r].
Proof.
  split; [reflexivity |].
  refine (proj2 (nan_amount_passes_guards sample_JSON_parse sample_JSON_stringify
    sample_inheritedMember
                   sample_getWalletByUserIdAndCurrency sample_getCurrencyData
                   sample_getSortedChainBalances sample_requiresPrivateLedgerUpdate
                   sample_fee (sample_request FIAT SPOT NaN "wallet" None) sample_db
                   eq_refl)
                1%nat 1%nat (mkWallet 1 1 "USDT" FIAT (Num 100) JsNull true) sample_db
                (mkWallet 2 1 "USDT" SPOT (Num 10) JsNull true) None
                (mkCurrencyData 2) eq_refl eq_refl eq_refl eq_refl eq_refl eq_refl _).
  discriminate.
Defined.

(** * The blog category page *)

Lemma text_or_truthy v fallback :
  fallback <> EmptyString -> text_truthy (Some (text_or v fallback)) = true.
Proof.
  intros Hf. unfold text_or, text_truthy.
  destruct v as [s |].
  - destruct (String.eqb s EmptyString) eqn:E.
    + apply negb_true_iff. apply String.eqb_neq. exact Hf.
    + rewrite E. reflexivity.
  - apply negb_true_iff. apply String.eqb_neq. exact Hf.
Qed.

Lemma text_truthy_some s : text_truthy (Some s) = true -> s <> EmptyString.
Proof.
  unfold text_truthy. intros H. apply negb_true_iff in H. apply String.eqb_neq. exact H.
Qed.

Lemma props_error_truthy fetched e :
  props_error (getServerSideProps fetched) = Some e -> text_truthy (Some e) = true.
Proof.
  unfold getServerSideProps. destruct fetched as [err | res].
  - cbn [props_error]. intros H. inversion H; subst.
    unfold text_truthy. destruct (error_message err); reflexivity.
  - destruct (text_truthy (fetch_error res) || _); cbn [props_error];
      [| discriminate].
    intros H. inversion H; subst. apply text_or_truthy. discriminate.
Qed.

Lemma categoryCards_spec categories :
  forall index,
    map card_key (categoryCards index categories) = seq index (List.length categories) /\
    map card_href (categoryCards index categories)
    = map (fun c => ("/blog/category/" ++ slug c)%string) categories /\
    map card_heading (categoryCards index categories) = map name categories /\
    map card_text (categoryCards index categories) = map description categories /\
    map card_src (categoryCards index categories)
    = map (fun c => text_or (image c) "/img/placeholder.svg") categories /\
    Forall (fun card => card_src card <> EmptyString) (categoryCards index categories).
Proof.
  induction categories as [| c rest IH]; intros index; cbn [categoryCards map seq List.length].
  - repeat split; constructor.
  - destruct (IH (S index)) as (Hk & Hh & Hn & Ht & Hs & Hne).
    cbn [card_key card_href card_heading card_text card_src].
    rewrite Hk, Hh, Hn, Ht, Hs. repeat split.
    constructor; [| exact Hne]. cbn [card_src].
    apply text_truthy_some. apply text_or_truthy. discriminate.
Qed.

(** X14.  The props [getServerSideProps] answers with hold either the
    categories or an error text, never both and never neither, and it never
    throws.  The categories are set exactly when the fetch returned data and
    no error text, and are that data; an error text of the fetch wins over
    data; missing data without an error gives "Unable to fetch
    categories."; a fetch that throws gives "An unexpected error occurred: "
    followed by the message.  The error text is never empty. *)
Theorem getServerSideProps_shape (fetched : Outcome JsError FetchResult) :
  (props_categories (getServerSideProps fetched) = None <->
   props_error (getServerSideProps fetched) <> None) /\
  (forall e, props_error (getServerSideProps fetched) = Some e -> e <> EmptyString) /\
  (forall categories,
     props_categories (getServerSideProps fetched) = Some categories <->
     exists e, fetched = Returned (mkFetchResult (Some categories) e) /\
               text_truthy e = false) /\
  (forall res e,
     fetched = Returned res -> fetch_error res = Some e -> e <> EmptyString ->
     props_error (getServerSideProps fetched) = Some e) /\
  (forall res,
     fetched = Returned res -> text_truthy (fetch_error res) = false ->
     fetch_data res = None ->
     props_error (getServerSideProps fetched) = Some "Unable to fetch categories.") /\
  (forall err,
     fetched = Thrown err ->
     props_error (getServerSideProps fetched)
     = Some ("An unexpected error occurred: " ++ error_message err)%string).
Proof.
  split; [| split; [| split; [| split; [| split]]]].
  - unfold getServerSideProps. destruct fetched as [err | [data e]];
      cbn [fetch_data fetch_error].
    + cbn [props_categories props_error]. split; [discriminate | reflexivity].
    + destruct (text_truthy e); cbn [orb negb].
      * cbn [props_categories props_error]. split; [discriminate | reflexivity].
      * destruct data as [cs |]; cbn [negb props_categories props_error].
        -- split; [discriminate | intros H; exfalso; apply H; reflexivity].
        -- split; [discriminate | reflexivity].
  - intros e H. apply text_truthy_some. eapply props_error_truthy. exact H.
  - intros categories. unfold getServerSideProps.
    destruct fetched as [err | [data e]]; cbn [fetch_data fetch_error].
    + cbn [props_categories]. split; [discriminate | intros (e & H & _); discriminate].
    + destruct (text_truthy e) eqn:T; cbn [orb negb].
      * cbn [props_categories]. split; [discriminate |].
        intros (e0 & H & T0). inversion H; subst. congruence.
      * destruct data as [cs |]; cbn [negb props_categories].
        -- split.
           ++ intros H. inversion H; subst. exists e. split; [reflexivity | exact T].
           ++ intros (e0 & H & _). inversion H; subst. reflexivity.
        -- split; [discriminate | intros (e0 & H & _); discriminate].
  - intros res e -> He Hne. unfold getServerSideProps. rewrite He.
    assert (T : text_truthy (Some e) = true).
    { unfold text_truthy. apply negb_true_iff. apply String.eqb_neq. exact Hne. }
    rewrite T. cbn [orb props_error]. unfold text_or.
    apply String.eqb_neq in Hne. rewrite Hne. reflexivity.
  - intros res -> T Hd. unfold getServerSideProps. rewrite T, Hd.
    cbn [orb negb props_error]. f_equal. unfold text_or.
    destruct (fetch_error res) as [s |]; [| reflexivity].
    unfold text_truthy in T. apply negb_false_iff in T. rewrite T. reflexivity.
  - intros err ->. reflexivity.
Qed.

(** X15.  The page never throws on the props [getServerSideProps]
    produces: [categories.map] is reached only when the categories are set.
    It shows the error page, which links back to "/blog", exactly when the
    props carry an error; otherwise it shows one card per category of the
    fetched data, in the order of the data and keyed by position, linking
    to "/blog/category/" followed by the slug, with the name and the
    description of the category and an image source that is never empty:
    the image of the category, or the placeholder when it has none. *)
Theorem blog_page_renders (t : string -> string)
    (fetched : Outcome JsError FetchResult) :
  exists page,
    Blog t (getServerSideProps fetched) = Returned page /\
    match page with
    | ErrorPage title text link linkTitle =>
        link = "/blog" /\
        exists e, props_error (getServerSideProps fetched) = Some e /\ text = t e
    | Layout title header cards =>
        exists categories e,
          fetched = Returned (mkFetchResult (Some categories) e) /\
          text_truthy e = false /\
          map card_key cards = seq 0 (List.length categories) /\
          map card_href cards
          = map (fun c => ("/blog/category/" ++ slug c)%string) categories /\
          map card_heading cards = map name categories /\
          map card_text cards = map description categories /\
          map card_src cards
          = map (fun c => text_or (image c) "/img/placeholder.svg") categories /\
          Forall (fun card => card_src card <> EmptyString) cards
    end.
Proof.
  unfold Blog.
  destruct (props_error (getServerSideProps fetched)) as [e |] eqn:E.
  - rewrite (props_error_truthy fetched e E). eexists. split; [reflexivity |].
    split; [reflexivity |]. exists e. split; [reflexivity |].
    f_equal. unfold text_or.
    pose proof (props_error_truthy fetched e E) as T. unfold text_truthy in T.
    apply negb_true_iff in T. rewrite T. reflexivity.
  - cbn [text_truthy].
    revert E. unfold getServerSideProps.
    destruct fetched as [err | [data e]]; cbn [fetch_data fetch_error props_error];
      [discriminate |].
    destruct (text_truthy e) eqn:T; cbn [orb negb props_error]; [discriminate |].
    destruct data as [cs |]; cbn [negb props_error props_categories];
      [| discriminate].
    intros _. eexists. split; [reflexivity |].
    exists cs, e. split; [reflexivity |]. split; [exact T |].
    apply categoryCards_spec.
Qed.

(** * The native deposit monitor *)

Lemma isDeposit_true toLowerCase address since tx :
  isDeposit toLowerCase address since tx = true <->
  exists to timestamp status,
    etx_to tx = Some to /\ to <> EmptyString /\
    toLowerCase to = toLowerCase address /\
    etx_timestamp tx = Num timestamp /\ inject_Z since < timestamp /\
    etx_status tx = Num status /\ status == 1.
Proof.
  unfold isDeposit. split.
  - destruct (etx_to tx) as [to |]; [| discriminate]. intros H.
    apply andb_true_iff in H as [H Hs]. apply andb_true_iff in H as [H Ht].
    apply andb_true_iff in H as [Hn Hl].
    apply negb_true_iff in Hn. apply String.eqb_neq in Hn.
    apply String.eqb_eq in Hl.
    destruct (etx_timestamp tx) as [| ts]; [discriminate |].
    destruct (etx_status tx) as [| st]; [discriminate |].
    exists to, ts, st. repeat split; auto.
    + apply Qlt_bool_true. exact Ht.
    + apply Qeq_bool_iff. exact Hs.
  - intros (to & ts & st & -> & Hn & Hl & -> & Ht & -> & Hs).
    apply String.eqb_neq in Hn. rewrite Hn. rewrite Hl, String.eqb_refl.
    cbn [negb andb jgt jlt jeqb].
    apply andb_true_iff. split.
    + unfold Qlt_bool. apply negb_true_iff.
      destruct (Qle_bool ts (inject_Z since)) eqn:E; [| reflexivity].
      apply Qle_bool_iff in E. lra.
    + apply Qeq_bool_iff. exact Hs.
Qed.

Lemma verifyLoop_spec {D : Type} toLowerCase
    (createTransactionDetails : EvmTransaction -> Outcome JsError D)
    (storeAndBroadcastTransaction : D -> string -> Outcome JsError unit)
    address now (st : MonitorState D) transactions :
  (Forall (fun tx => isDeposit toLowerCase address (startTime st) tx = false)
          transactions /\
   verifyLoop toLowerCase createTransactionDetails storeAndBroadcastTransaction
              address now st transactions = st) \/
  exists before tx after,
    transactions = before ++ tx :: after /\
    Forall (fun tx => isDeposit toLowerCase address (startTime st) tx = false) before /\
    isDeposit toLowerCase address (startTime st) tx = true /\
    verifyLoop toLowerCase createTransactionDetails storeAndBroadcastTransaction
               address now st transactions
    = mkMonitorState true now
        (broadcast st
         ++ match createTransactionDetails tx with
            | Returned txDetails =>
                match storeAndBroadcastTransaction txDetails (etx_hash tx) with
                | Returned _ => [(txDetails, etx_hash tx)]
                | Thrown _ => []
                end
            | Thrown _ => []
            end).
Proof.
  induction transactions as [| tx rest IH]; cbn [verifyLoop].
  - left. split; [constructor | reflexivity].
  - destruct (isDeposit toLowerCase address (startTime st) tx) eqn:E.
    + right. exists [], tx, rest. split; [reflexivity |]. split; [constructor |].
      split; [exact E |].
      destruct (createTransactionDetails tx) as [e | d];
        [rewrite app_nil_r; reflexivity |].
      destruct (storeAndBroadcastTransaction d (etx_hash tx));
        [rewrite app_nil_r; reflexivity | reflexivity].
    + destruct IH as [[Hall Hst] | (before & tx0 & after & -> & Hb & Hm & Hst)].
      * left. split; [constructor; assumption | exact Hst].
      * right. exists (tx :: before), tx0, after.
        split; [reflexivity |]. split; [constructor; assumption |].
        split; [exact Hm | exact Hst].
Qed.

(** X16.  One run of [verifyDeposits].  Once a deposit has been found a
    run does nothing, and a run in which the fetch throws is rejected with
    that error.  Otherwise the run never throws and handles at most one
    transaction, the first of the list that counts as a deposit: its
    recipient is the watched address up to letter case, its timestamp is
    strictly later than the start time and its status is 1.  It hands it to
    [storeAndBroadcastTransaction] with its hash, sets [depositFound] and
    moves the start time, also when building or storing the details threw:
    that transaction is then not stored and no later run looks at it.
    Without such a transaction the run changes nothing. *)
Theorem verifyDeposits_handles_first_deposit {D : Type}
    (toLowerCase : string -> string)
    (createTransactionDetails : EvmTransaction -> Outcome JsError D)
    (storeAndBroadcastTransaction : D -> string -> Outcome JsError unit)
    (address : string) (now : Z) (st : MonitorState D) :
  (depositFound st = true ->
   forall fetched,
     verifyDeposits toLowerCase createTransactionDetails storeAndBroadcastTransaction
                    address now st fetched = Returned st) /\
  (depositFound st = false ->
   forall e,
     verifyDeposits toLowerCase createTransactionDetails storeAndBroadcastTransaction
                    address now st (Thrown e) = Thrown e) /\
  (depositFound st = false ->
   forall transactions,
     exists st',
       verifyDeposits toLowerCase createTransactionDetails storeAndBroadcastTransaction
                      address now st (Returned transactions) = Returned st' /\
       ((Forall (fun tx => isDeposit toLowerCase address (startTime st) tx = false)
                transactions /\ st' = st) \/
        exists before tx after,
          transactions = before ++ tx :: after /\
          Forall (fun tx => isDeposit toLowerCase address (startTime st) tx = false)
                 before /\
          isDeposit toLowerCase address (startTime st) tx = true /\
          depositFound st' = true /\ startTime st' = now /\
          (broadcast st' = broadcast st \/
           exists txDetails,
             createTransactionDetails tx = Returned txDetails /\
             broadcast st' = broadcast st ++ [(txDetails, etx_hash tx)]) /\
          ((forall txDetails, createTransactionDetails tx = Returned txDetails ->
              storeAndBroadcastTransaction txDetails (etx_hash tx) = Returned tt) ->
           forall txDetails, createTransactionDetails tx = Returned txDetails ->
              broadcast st' = broadcast st ++ [(txDetails, etx_hash tx)]) /\
          forall now' fetched,
            verifyDeposits toLowerCase createTransactionDetails
              storeAndBroadcastTransaction address now' st' fetched = Returned st')) /\
  (forall since tx,
     isDeposit toLowerCase address since tx = true <->
     exists to timestamp status,
       etx_to tx = Some to /\ to <> EmptyString /\
       toLowerCase to = toLowerCase address /\
       etx_timestamp tx = Num timestamp /\ inject_Z since < timestamp /\
       etx_status tx = Num status /\ status == 1).
Proof.
  split; [| split; [| split]].
  - intros Hf fetched. unfold verifyDeposits. rewrite Hf. reflexivity.
  - intros Hf e. unfold verifyDeposits. rewrite Hf. reflexivity.
  - intros Hf transactions. unfold verifyDeposits. rewrite Hf.
    eexists. split; [reflexivity |].
    destruct (verifyLoop_spec toLowerCase createTransactionDetails
                storeAndBroadcastTransaction address now st transactions)
      as [[Hall Hst] | (before & tx & after & Ht & Hb & Hm & Hst)].
    + left. split; [exact Hall | exact Hst].
    + right. exists before, tx, after. rewrite Hst.
      cbn [depositFound startTime broadcast].
      split; [exact Ht |]. split; [exact Hb |]. split; [exact Hm |].
      split; [reflexivity |]. split; [reflexivity |].
      split; [| split].
      * destruct (createTransactionDetails tx) as [e | d];
          [left; apply app_nil_r |].
        destruct (storeAndBroadcastTransaction d (etx_hash tx));
          [left; apply app_nil_r |].
        right. exists d. split; reflexivity.
      * intros Hok d Hd. rewrite Hd. rewrite (Hok d Hd). reflexivity.
      * intros now' fetched. reflexivity.
  - intros since tx. apply isDeposit_true.
Qed.

(** * The further properties on the sample store *)

(** The ECO wallet of user 2 asks for a FIAT wallet it does not have. *)
Abbreviation sample_new_wallet_request :=
  (mkHandler (Some 2%nat) (mkBody ECO FIAT (Num 50) "wallet" None "USDT" "USDT")).

Lemma createTransfer_errors_witness :
  exists db' e,
    sample_createTransfer (sample_request FIAT FUTURES (Num 5) "wallet" None) sample_db
    = (db', inl e) /\
    In e handlerErrors /\
    message e <> "Insufficient balance to cover transfer and fees." /\
    message e <> "Insufficient chain balance to complete the transfer".
Proof.
  eexists; eexists. split; [vm_compute; reflexivity |].
  refine (createTransfer_errors sample_JSON_parse sample_JSON_stringify sample_inheritedMember
            sample_getWalletByUserIdAndCurrency sample_getCurrencyData
            sample_getSortedChainBalances sample_requiresPrivateLedgerUpdate
            sample_fee (sample_request FIAT FUTURES (Num 5) "wallet" None)
            sample_db _ _ _).
  vm_compute. reflexivity.
Defined.

Lemma createTransfer_writes_balances_only_witness :
  exists db' r,
    sample_createTransfer (sample_request ECO ECO (Num 100) "client" (Some 2%nat))
                          sample_db = (db', inr r) /\
    address_of 3 sample_db = Some sample_addresses /\
    address_of 3 db' = Some sample_addresses.
Proof.
  eexists; eexists. split; [vm_compute; reflexivity |].
  split; [reflexivity |].
  destruct (createTransfer_writes_balances_only sample_JSON_parse
              sample_JSON_stringify sample_inheritedMember sample_getWalletByUserIdAndCurrency
              sample_getCurrencyData sample_getSortedChainBalances
              sample_requiresPrivateLedgerUpdate sample_fee
              (sample_request ECO ECO (Num 100) "client" (Some 2%nat))
              sample_db _ _ ltac:(vm_compute; reflexivity))
    as (db1 & _ & _ & Ha).
  apply (Ha 3%nat sample_addresses). reflexivity.
Defined.

Lemma createTransfer_ledger_rows_witness :
  exists db' resp,
    sample_createTransfer (sample_request ECO ECO (Num 100) "client" (Some 2%nat))
                          sample_db = (db', inr resp) /\
    exists details,
      ledger db'
      = ledger sample_db
        ++ transferEntries (tx_fromWallet (r_fromTransfer resp))
             (tx_toWallet (r_fromTransfer resp)) "USDT" details.
Proof.
  eexists; eexists. split; [vm_compute; reflexivity |].
  refine (proj2 (proj2 (createTransfer_ledger_rows sample_JSON_parse
                          sample_JSON_stringify
                            sample_inheritedMember sample_getWalletByUserIdAndCurrency
                          sample_getCurrencyData sample_getSortedChainBalances
                          sample_requiresPrivateLedgerUpdate sample_fee
                          (sample_request ECO ECO (Num 100) "client" (Some 2%nat))
                          sample_db _ _ _)) _ eq_refl).
  vm_compute. reflexivity.
Defined.

Lemma processInternalTransfer_rejection_witness :
  exists db' e,
    sample_processInternalTransfer 1%nat 2%nat "USDT" chainA (Num 500) sample_db
    = (db', inl e) /\
    In e internalErrors /\
    (exists db1, resolved sample_db db1 /\ core db' = core db1) /\
    (exists rows, ledger db' = ledger sample_db ++ rows).
Proof.
  eexists; eexists. split; [vm_compute; reflexivity |].
  refine (processInternalTransfer_rejection sample_JSON_parse sample_JSON_stringify
            sample_inheritedMember sample_getWalletByUserIdAndCurrency
            sample_getCurrencyData sample_requiresPrivateLedgerUpdate sample_fee
            1%nat 2%nat "USDT" chainA (Num 500) sample_db _ _ _).
  vm_compute. reflexivity.
Defined.

(** A wallet whose map lists the chain "7" before [chainA], holding the
    doubles nearest to 0.1 and to 30. *)
Abbreviation sample_indexed_wallet :=
  (mkWallet 3 1 "USDT" ECO (Num 110)
     (JsObject [("7", mkChainInfo None None (lit (1 # 10)));
                (chainA, mkChainInfo (Some "0xa") (Some "mainnet") (Num 30))])
     true).

(** Credits to the chains "7" (held: 0.1 += 0.2 stores
    0.30000000000000004), "chainC" (new: listed last), "3" (new, an array
    index: listed first) and "toString" (inherited: nothing is created). *)
Abbreviation sample_credits :=
  [mkDetail "7" (lit (2 # 10)); mkDetail "chainC" (Num 7); mkDetail "3" (Num 1);
   mkDetail "toString" (Num 9)].



Lemma internal_transfer_ledger_mirror_witness :
  0 <= 100 /\
  exists db' r,
    sample_processInternalTransfer 1%nat 2%nat "USDT" chainA (Num 100) sample_db
    = (db', inr r) /\
    exists details,
      Forall (fun d => is_num (d_amount d)) details /\
      jeq (remainingAfter (Num 100) details) jzero /\
      ledger db'
      = ledger sample_db
        ++ map (debitEntry (tx_fromWallet (it_outgoingTransfer r)) "USDT") details
        ++ map (creditEntry (tx_toWallet (it_outgoingTransfer r)) "USDT") details.
Proof.
  split; [discriminate |].
  eexists; eexists. split; [vm_compute; reflexivity |].
  refine (internal_transfer_ledger_mirror sample_JSON_parse sample_JSON_stringify
            sample_inheritedMember sample_getWalletByUserIdAndCurrency
            sample_getCurrencyData sample_requiresPrivateLedgerUpdate sample_fee
            1%nat 2%nat "USDT" chainA 100 sample_db _ _ _ _).
  - discriminate.
  - vm_compute. reflexivity.
Defined.

Lemma resolveDestination_idempotent_witness :
  exists db1 toWallet toUser,
    resolveDestination sample_getWalletByUserIdAndCurrency 2
      (body sample_new_wallet_request) sample_db = (db1, inr (toWallet, toUser)) /\
    List.length (wallets db1) = S (List.length (wallets sample_db)) /\
    resolveDestination sample_getWalletByUserIdAndCurrency 2
      (body sample_new_wallet_request) db1 = (db1, inr (toWallet, toUser)).
Proof.
  eexists; eexists; eexists. split; [vm_compute; reflexivity |].
  split; [reflexivity |].
  refine (resolveDestination_idempotent sample_getWalletByUserIdAndCurrency 2
            (body sample_new_wallet_request) sample_db _ _ _ _).
  vm_compute. reflexivity.
Defined.

Lemma insufficient_balance_rejection_witness :
  exists db1,
    sample_createTransfer sample_new_wallet_request sample_db
    = (db1, inl (createError 400 "Insufficient balance")) /\
    List.length (wallets db1) = S (List.length (wallets sample_db)).
Proof.
  eexists. split.
  - refine (proj1 (insufficient_balance_rejection sample_JSON_parse
                     sample_JSON_stringify
                       sample_inheritedMember sample_getWalletByUserIdAndCurrency
                     sample_getCurrencyData sample_getSortedChainBalances
                     sample_requiresPrivateLedgerUpdate sample_fee
                     sample_new_wallet_request sample_db)
                  2%nat 2%nat sample_empty_eco_wallet _ _ _
                  eq_refl eq_refl eq_refl eq_refl _ _).
    + vm_compute. reflexivity.
    + reflexivity.
  - reflexivity.
Defined.

Lemma amount_within_balance_is_accepted_witness :
  -5 <= 100 /\
  exists db' r,
    sample_createTransfer (sample_request FIAT SPOT (Num (-5)) "wallet" None) sample_db
    = (db', inr r) /\
    tx_amount (r_fromTransfer r) = Num (-5) /\
    tx_amount (r_toTransfer r) = jsub (Num (-5)) (transferFee sample_fee (Num (-5))) /\
    transactions db' = transactions sample_db ++ [r_fromTransfer r; r_toTransfer r].
Proof.
  split; [discriminate |].
  refine (amount_within_balance_is_accepted sample_JSON_parse sample_JSON_stringify
    sample_inheritedMember
            sample_getWalletByUserIdAndCurrency sample_getCurrencyData
            sample_getSortedChainBalances sample_requiresPrivateLedgerUpdate
            sample_fee (sample_request FIAT SPOT (Num (-5)) "wallet" None)
            sample_db sample_db 1%nat 1%nat
            (mkWallet 1 1 "USDT" FIAT (Num 100) JsNull true)
            (mkWallet 2 1 "USDT" SPOT (Num 10) JsNull true) None
            (mkCurrencyData 2) 100 (-5)
            eq_refl eq_refl eq_refl eq_refl eq_refl eq_refl _ eq_refl eq_refl _).
  - discriminate.
  - discriminate.
Defined.

Lemma internal_transfer_fee_split_witness :
  exists db' r,
    sample_processInternalTransfer 1%nat 2%nat "USDT" chainA (Num 100) sample_db
    = (db', inr r) /\
    exists p,
      orZero sample_fee = Num p /\
      tx_amount (it_outgoingTransfer r) = Num 100 /\
      tx_fee (it_outgoingTransfer r) = jdiv100 (jmul (Num 100) (Num p)) /\
      tx_amount (it_incomingTransfer r)
      = jsub (Num 100) (jdiv100 (jmul (Num 100) (Num p))).
Proof.
  eexists; eexists. split; [vm_compute; reflexivity |].
  destruct (internal_transfer_fee_split sample_JSON_parse sample_JSON_stringify
              sample_inheritedMember sample_getCurrencyData sample_fee
              1%nat 2%nat "USDT" chainA 100
              sample_db _ _ ltac:(vm_compute; reflexivity))
    as (p & Hp & _ & _ & Ha & Hf & Hi & _).
  exists p. repeat split; assumption.
Defined.

Lemma getServerSideProps_shape_witness :
  props_error (getServerSideProps (Returned (mkFetchResult None None)))
  = Some "Unable to fetch categories." /\
  props_error (getServerSideProps (Thrown (mkJsError "timeout")))
  = Some "An unexpected error occurred: timeout".
Proof.
  split.
  - destruct (getServerSideProps_shape (Returned (mkFetchResult None None)))
      as (_ & _ & _ & _ & H & _).
    apply (H (mkFetchResult None None)); reflexivity.
  - destruct (getServerSideProps_shape (Thrown (mkJsError "timeout")))
      as (_ & _ & _ & _ & _ & H).
    apply (H (mkJsError "timeout")). reflexivity.
Defined.

(** A monitor for the address "0xAB" that started at time 100 and is shown
    an old transaction and then a deposit whose recipient is written in
    lower case. *)
Lemma verifyDeposits_handles_first_deposit_witness :
  exists st',
    verifyDeposits (fun s => if String.eqb s "0xAB" then "0xab" else s)
      (fun tx => Returned (etx_hash tx)) (fun _ _ => Returned tt) "0xAB" 250
      (mkMonitorState false 100 [])
      (Returned [mkEvmTransaction (Some "0xab") (Num 90) (Num 1) "h1";
                 mkEvmTransaction (Some "0xab") (Num 200) (Num 1) "h2";
                 mkEvmTransaction (Some "0xab") (Num 210) (Num 1) "h3"])
    = Returned st' /\
    depositFound st' = true /\ startTime st' = 250%Z /\
    broadcast st' = [("h2", "h2")].
Proof.
  destruct (verifyDeposits_handles_first_deposit
              (fun s => if String.eqb s "0xAB" then "0xab" else s)
              (fun tx => Returned (etx_hash tx)) (fun _ _ => Returned tt) "0xAB" 250
              (mkMonitorState false 100 []))
    as (_ & _ & H & _).
  destruct (H eq_refl [mkEvmTransaction (Some "0xab") (Num 90) (Num 1) "h1";
                       mkEvmTransaction (Some "0xab") (Num 200) (Num 1) "h2";
                       mkEvmTransaction (Some "0xab") (Num 210) (Num 1) "h3"])
    as (st' & Hrun & _).
  exists st'. split; [exact Hrun |].
  vm_compute in Hrun. inversion Hrun. repeat split; reflexivity.
Defined.

Lemma sample_lookup_is_a_row userId currency db w :
  sample_getWalletByUserIdAndCurrency userId currency db = Some w -> In w (wallets db).
Proof.
  unfold sample_getWalletByUserIdAndCurrency. intros H.
  apply wallet_findOne_some in H. tauto.
Qed.

Lemma eco_client_transfer_credits_gross_witness :
  exists db' r,
    sample_createTransfer (sample_request ECO ECO (Num 100) "client" (Some 2%nat))
                          sample_db = (db', inr r) /\
    exists currencyData,
      sample_getCurrencyData ECO "USDT" = Some currencyData /\
      BalancesMoved sample_db db' (tx_fromWallet (r_fromTransfer r))
        (tx_toWallet (r_fromTransfer r)) (Num 100) (Num 100) (precision currencyData) /\
      tx_amount (r_toTransfer r) = jsub (Num 100) (transferFee sample_fee (Num 100)) /\
      (jgt (transferFee sample_fee (Num 100)) jzero = true ->
       List.length (profits db') = S (List.length (profits sample_db))).
Proof.
  eexists; eexists. split; [vm_compute; reflexivity |].
  refine (eco_client_transfer_credits_gross sample_JSON_parse sample_JSON_stringify
    sample_inheritedMember
            sample_getWalletByUserIdAndCurrency sample_getCurrencyData
            sample_getSortedChainBalances sample_requiresPrivateLedgerUpdate
            sample_fee (sample_request ECO ECO (Num 100) "client" (Some 2%nat))
            sample_db _ _ _ eq_refl eq_refl sample_db_ids
            (fun u c w => sample_lookup_is_a_row u c sample_db w) _).
  - vm_compute. reflexivity.
  - vm_compute. discriminate.
Defined.

Lemma internal_transfer_answer_witness :
  exists db' r,
    sample_processInternalTransfer 1%nat 2%nat "USDT" chainA (Num 100) sample_db
    = (db', inr r) /\
    it_method r = chainA /\
    it_balance r = balance_of (tx_fromWallet (it_outgoingTransfer r)) db' /\
    sample_processInternalTransfer 1%nat 2%nat "USDT" chainB (Num 100) sample_db
    = (db', inr (mkInternalResult (it_outgoingTransfer r) (it_incomingTransfer r)
                   (it_balance r) chainB "USDT")).
Proof.
  eexists; eexists. split; [vm_compute; reflexivity |].
  destruct (internal_transfer_answer sample_JSON_parse sample_JSON_stringify
    sample_inheritedMember
              sample_getCurrencyData sample_fee 1%nat 2%nat "USDT" chainA (Num 100)
              sample_db _ _ ltac:(vm_compute; reflexivity))
    as (Hm & _ & Hb & Hc).
  split; [exact Hm |].
  split; [exact (proj2 (Hb sample_db_ids)) | exact (Hc chainB)].
Defined.
